(** * relativity_sim: the symbolic/numeric core and the simulator store

    A shallow embedding of [src/engine/cas.ts], of the physics engine the
    store imports as [../engine/physics] (its text follows the component in
    [src/components/SpacetimeGraph.tsx]) and of
    [src/store/useSimulatorStore.ts]; the integrity checks quoted below are
    the [runChecks] script whose text follows the store.

    JavaScript numbers are IEEE-754 binary64 values; they are modelled by
    Rocq's primitive floats, which are binary64 as well.  The numeric code
    is written once over an interface [Number] of the operations the
    source uses and is run at two instances: [float] (what the program
    computes) and [R] (the exact arithmetic the physics is stated in). *)

From Stdlib Require Import ZArith List Bool String Ascii Lia.
From Stdlib Require Import Floats Uint63.
From Stdlib Require Import Reals Lra.
Import ListNotations.

Set Implicit Arguments.

(** ** Numbers *)

Declare Scope num_scope.
Delimit Scope num_scope with num.

Class Number (T : Type) := {
  (** the decimal literal [m]e[e], e.g. [lit 1 (-4)] for [1e-4] *)
  lit : Z -> Z -> T;
  Infinity : T;
  add : T -> T -> T;
  sub : T -> T -> T;
  mul : T -> T -> T;
  div : T -> T -> T;
  neg : T -> T;
  Math_abs : T -> T;
  Math_sqrt : T -> T;
  Math_min : T -> T -> T;
  Math_max : T -> T -> T;
  (** [a < b] and [a <= b]; [a > b] is written [lt b a], [a >= b] is [le b a] *)
  lt : T -> T -> bool;
  le : T -> T -> bool;
  Number_isNaN : T -> bool
}.

Notation "a + b" := (add a b) : num_scope.
Notation "a - b" := (sub a b) : num_scope.
Notation "a * b" := (mul a b) : num_scope.
Notation "a / b" := (div a b) : num_scope.
Notation "- a" := (neg a) : num_scope.
Notation "a <? b" := (lt a b) : num_scope.
Notation "a <=? b" := (le a b) : num_scope.
Notation "a >? b" := (lt b a) : num_scope.
Notation "a >=? b" := (le b a) : num_scope.
Notation "0" := (lit Z0 Z0) : num_scope.
Notation "1" := (lit (Zpos xH) Z0) : num_scope.

(** [Math.pow(x, 2)]: the square, computed as one rounded product. *)
Definition Math_pow2 {T} `{Number T} (x : T) : T := (x * x)%num.

(** *** binary64 *)

Module F64.

Definition of_Z (z : Z) : float :=
  if (z <? 0)%Z then PrimFloat.opp (PrimFloat.of_uint63 (Uint63.of_Z (Z.opp z)))
  else PrimFloat.of_uint63 (Uint63.of_Z z).

(** A decimal literal whose digits and power of ten are both exactly
    representable is the correctly rounded quotient of the two, which is
    how this reads it; every literal of the source is of that kind. *)
Definition lit (m e : Z) : float :=
  if (0 <=? e)%Z then of_Z (m * 10 ^ e) else PrimFloat.div (of_Z m) (of_Z (10 ^ (Z.opp e))).

(** [Math.min] and [Math.max]: NaN if either argument is, and [-0] below [+0]. *)
Definition Math_min (a b : float) : float :=
  if PrimFloat.is_nan a || PrimFloat.is_nan b then PrimFloat.nan
  else if PrimFloat.ltb a b then a
  else if PrimFloat.ltb b a then b
  else if PrimFloat.get_sign a then a else b.

Definition Math_max (a b : float) : float :=
  if PrimFloat.is_nan a || PrimFloat.is_nan b then PrimFloat.nan
  else if PrimFloat.ltb a b then b
  else if PrimFloat.ltb b a then a
  else if PrimFloat.get_sign a then b else a.

(** The order of the numbers that are not NaN, read off their sign, exponent
    and mantissa: [lex (key x) (key y)] is how [x] compares with [y]. *)
Definition key (x : SpecFloat.spec_float) : Z * (Z * Z) :=
  match x with
  | SpecFloat.S754_nan => (0, (0, 0))
  | SpecFloat.S754_infinity s => ((if s then -2 else 2), (0, 0))
  | SpecFloat.S754_zero _ => (0, (0, 0))
  | SpecFloat.S754_finite s m e => if s then (-1, (- e, - Zpos m)) else (1, (e, Zpos m))
  end%Z.

Definition lex (a b : Z * (Z * Z)) : comparison :=
  match (fst a ?= fst b)%Z with
  | Eq => match (fst (snd a) ?= fst (snd b))%Z with
          | Eq => (snd (snd a) ?= snd (snd b))%Z
          | c => c
          end
  | c => c
  end.

End F64.

#[export] Instance Number_float : Number float := {
  lit := F64.lit;
  Infinity := PrimFloat.infinity;
  add := PrimFloat.add;
  sub := PrimFloat.sub;
  mul := PrimFloat.mul;
  div := PrimFloat.div;
  neg := PrimFloat.opp;
  Math_abs := PrimFloat.abs;
  Math_sqrt := PrimFloat.sqrt;
  Math_min := F64.Math_min;
  Math_max := F64.Math_max;
  lt := PrimFloat.ltb;
  le := PrimFloat.leb;
  Number_isNaN := PrimFloat.is_nan
}.

(** *** exact reals *)

Module Exact.

Definition lit (m e : Z) : R :=
  if (0 <=? e)%Z then IZR (m * 10 ^ e) else (IZR m / IZR (10 ^ (Z.opp e)))%R.

Definition ltb (a b : R) : bool := if Rlt_dec a b then true else false.
Definition leb (a b : R) : bool := if Rle_dec a b then true else false.

End Exact.

(** [R] has no infinity and no NaN: [Infinity] is the value [R] gives to
    [1 / 0], and [Number_isNaN] is constantly false. *)
#[export] Instance Number_R : Number R := {
  lit := Exact.lit;
  Infinity := (1 / 0)%R;
  add := Rplus;
  sub := Rminus;
  mul := Rmult;
  div := Rdiv;
  neg := Ropp;
  Math_abs := Rabs;
  Math_sqrt := sqrt;
  Math_min := Rmin;
  Math_max := Rmax;
  lt := Exact.ltb;
  le := Exact.leb;
  Number_isNaN := fun _ => false
}.

(** ** Tuples: [NumericVector4], [Vector4], 3-velocities, 4x4 matrices *)

Record Vec4 (A : Type) := vec4 { c0 : A; c1 : A; c2 : A; c3 : A }.
Record Vec3 (A : Type) := vec3 { d0 : A; d1 : A; d2 : A }.

Inductive Ix4 := I0 | I1 | I2 | I3.
Inductive Ix3 := J0 | J1 | J2.

Definition get4 {A} (v : Vec4 A) (i : Ix4) : A :=
  match i with I0 => c0 v | I1 => c1 v | I2 => c2 v | I3 => c3 v end.

Definition get3 {A} (v : Vec3 A) (i : Ix3) : A :=
  match i with J0 => d0 v | J1 => d1 v | J2 => d2 v end.

Definition tabulate4 {A} (f : Ix4 -> A) : Vec4 A := vec4 (f I0) (f I1) (f I2) (f I3).

Definition range4 : list Ix4 := [I0; I1; I2; I3].

Definition Matrix (T : Type) := Vec4 (Vec4 T).

Definition entry {T} (M : Matrix T) (i j : Ix4) : T := get4 (get4 M i) j.

Definition Vec4_some {A} (p : A -> bool) (v : Vec4 A) : bool :=
  p (c0 v) || p (c1 v) || p (c2 v) || p (c3 v).

(** [Number.isFinite] of the four components of a binary64 vector. *)
Definition finite4 (V : Vec4 float) : bool :=
  PrimFloat.is_finite (c0 V) && PrimFloat.is_finite (c1 V)
  && PrimFloat.is_finite (c2 V) && PrimFloat.is_finite (c3 V).

(** ** The physics engine, [engine/physics] *)

Section Physics.

Context {T : Type} `{Number T}.
Local Open Scope num_scope.

Definition NumericVector4 := Vec4 T.

Definition zero4 : NumericVector4 := vec4 0 0 0 0.

Definition magnitudeSquared (V : NumericVector4) : T :=
  - Math_pow2 (c0 V) + Math_pow2 (c1 V) + Math_pow2 (c2 V) + Math_pow2 (c3 V).

Definition calculateIntervalSquared (event1 event2 : NumericVector4) : T :=
  let deltaX := vec4 (c0 event2 - c0 event1) (c1 event2 - c1 event1)
                     (c2 event2 - c2 event1) (c3 event2 - c3 event1) in
  magnitudeSquared deltaX.

Definition extract3Velocity (U : NumericVector4) : Vec3 T :=
  if Math_abs (c0 U) <? lit 1 (-10) then vec3 0 0 0
  else vec3 (c1 U / c0 U) (c2 U / c0 U) (c3 U / c0 U).

Inductive Reason :=
  | BackwardInTime      (* "U^0 must be positive ..." *)
  | NotNormalized       (* "4-velocity invariant U^mu U_mu must equal -1 ..." *)
  | NotSubluminal.      (* "Speed |v| must be strictly less than c (1) ..." *)

Record Validation := { isValid : bool; reason : option Reason; U_squared : T; v_squared : T }.

Definition speedSquared (v3 : Vec3 T) : T :=
  Math_pow2 (d0 v3) + Math_pow2 (d1 v3) + Math_pow2 (d2 v3).

Definition validateCausality (U : NumericVector4) : Validation :=
  let U_squared := magnitudeSquared U in
  if c0 U <? 0 then
    {| isValid := false; reason := Some BackwardInTime; U_squared := U_squared; v_squared := 0 |}
  else
    let EPSILON := lit 1 (-4) in
    if Math_abs (U_squared - neg 1) >? EPSILON then
      {| isValid := false; reason := Some NotNormalized; U_squared := U_squared; v_squared := 0 |}
    else
      let v3 := extract3Velocity U in
      let v_squared := speedSquared v3 in
      if v_squared >=? 1 then
        {| isValid := false; reason := Some NotSubluminal; U_squared := U_squared; v_squared := v_squared |}
      else
        {| isValid := true; reason := None; U_squared := U_squared; v_squared := v_squared |}.

Definition calculateGamma (v3 : Vec3 T) : T :=
  let v_squared := speedSquared v3 in
  if v_squared >=? 1 then Infinity
  else 1 / Math_sqrt (1 - v_squared).

Definition identity4 : Matrix T :=
  vec4 (vec4 1 0 0 0) (vec4 0 1 0 0) (vec4 0 0 1 0) (vec4 0 0 0 1).

(** The spatial index [i - 1] of a row or column [i] in [1..3]. *)
Definition spatial (i : Ix4) : option Ix3 :=
  match i with I0 => None | I1 => Some J0 | I2 => Some J1 | I3 => Some J2 end.

(** The source fills a zero matrix entry by entry, each entry once; this is
    the matrix it returns. *)
Definition getLorentzBoostMatrix (v3 : Vec3 T) : Matrix T :=
  let v2 := speedSquared v3 in
  if v2 <? lit 1 (-10) then identity4
  else
    let gamma := calculateGamma v3 in
    tabulate4 (fun i => tabulate4 (fun j =>
      match spatial i, spatial j with
      | None, None => gamma
      | None, Some b => - gamma * get3 v3 b
      | Some a, None => - gamma * get3 v3 a
      | Some a, Some b =>
          let delta := match a, b with
                       | J0, J0 | J1, J1 | J2, J2 => 1
                       | _, _ => 0
                       end in
          delta + (gamma - 1) * (get3 v3 a * get3 v3 b) / v2
      end)).

Definition applyLorentzTransformation (Lambda : Matrix T) (V : NumericVector4) : NumericVector4 :=
  tabulate4 (fun i =>
    fold_left (fun sum j => sum + entry Lambda i j * get4 V j) range4 0).

(** The matrix product of the repository's reversibility check. *)
Definition multiply (A B : Matrix T) : Matrix T :=
  tabulate4 (fun i => tabulate4 (fun j =>
    fold_left (fun sum k => sum + entry A i k * entry B k j) range4 0)).

Definition negate3 (v : Vec3 T) : Vec3 T := vec3 (- d0 v) (- d1 v) (- d2 v).



End Physics.

(** ** [src/engine/cas.ts] *)

(** *** Strings

    A JavaScript string (of well-formed text) is held as its UTF-8
    bytes: a character up to U+007F is one [ascii], a character above it
    two bytes or more, none of them a word character. *)

Local Open Scope string_scope.

Definition Vector4 := Vec4 string.

(** [\w] of a JavaScript regular expression: [[A-Za-z0-9_]]. *)
Definition is_word (c : ascii) : bool :=
  let n := nat_of_ascii c in
  ((48 <=? n) && (n <=? 57) || (65 <=? n) && (n <=? 90) || (97 <=? n) && (n <=? 122) || (n =? 95))%nat.

(** [\b] between the character before a position and the one after it
    ([None] at either end of the string). *)
Definition word_boundary (prev next : option ascii) : bool :=
  let w o := match o with Some c => is_word c | None => false end in
  xorb (w prev) (w next).

Definition first_char (s : string) : option ascii :=
  match s with EmptyString => None | String c _ => Some c end.

Fixpoint last_char (prev : option ascii) (s : string) : option ascii :=
  match s with EmptyString => prev | String c s' => last_char (Some c) s' end.

Fixpoint drop (n : nat) (s : string) : string :=
  match n, s with
  | S n', String _ s' => drop n' s'
  | _, _ => s
  end.

(** Does [\bname\b] match at the head of [s], [prev] being the character
    before it? *)
Definition token_at (name : string) (prev : option ascii) (s : string) : bool :=
  String.prefix name s
  && word_boundary prev (first_char s)
  && word_boundary (last_char prev name) (first_char (drop (String.length name) s)).

(** [result.replace(new RegExp(`\\b${name}\\b`, 'g'), `(${value})`)] for a
    non-empty [name]: left to right, each match replaced, the search
    resuming after it.  [skip] counts the characters of a match still to
    be consumed. *)
Fixpoint replace_from (name value : string) (skip : nat) (prev : option ascii) (s : string) : string :=
  match s with
  | EmptyString => EmptyString
  | String c s' =>
      match skip with
      | S k => replace_from name value k (Some c) s'
      | O =>
          if token_at name prev s
          then "(" ++ value ++ ")" ++ replace_from name value (String.length name - 1) (Some c) s'
          else String c (replace_from name value O (Some c) s')
      end
  end.

Definition replace_token (name value : string) (s : string) : string :=
  match name with
  | EmptyString => s
  | _ => replace_from name value 0 None s
  end.

(** [Array.prototype.sort] with a comparator; the sort is stable. *)
Fixpoint sort_insert {A} (cmp : A -> A -> Z) (x : A) (l : list A) : list A :=
  match l with
  | [] => [x]
  | y :: l' => if (cmp x y <=? 0)%Z then x :: y :: l' else y :: sort_insert cmp x l'
  end.

Definition sort {A} (cmp : A -> A -> Z) (l : list A) : list A :=
  fold_right (sort_insert cmp) [] l.

(** White space and line terminators of JavaScript, which
    [String.prototype.trim] strips: U+0009 to U+000D, U+0020, U+00A0,
    U+1680, U+2000 to U+200A, U+2028, U+2029, U+202F, U+205F, U+3000 and
    U+FEFF.  In UTF-8 they take one, two or three bytes. *)
Definition is_space (c : ascii) : bool :=
  let n := nat_of_ascii c in
  ((9 <=? n) && (n <=? 13) || (n =? 32))%nat.

Definition is_space2 (c1 c2 : ascii) : bool :=
  ((nat_of_ascii c1 =? 194) && (nat_of_ascii c2 =? 160))%nat.

Definition is_space3 (c1 c2 c3 : ascii) : bool :=
  let n1 := nat_of_ascii c1 in
  let n2 := nat_of_ascii c2 in
  let n3 := nat_of_ascii c3 in
  ((n1 =? 225) && (n2 =? 154) && (n3 =? 128)
   || (n1 =? 226) && (n2 =? 128)
      && ((128 <=? n3) && (n3 <=? 138) || (n3 =? 168) || (n3 =? 169) || (n3 =? 175))
   || (n1 =? 226) && (n2 =? 129) && (n3 =? 159)
   || (n1 =? 227) && (n2 =? 128) && (n3 =? 128)
   || (n1 =? 239) && (n2 =? 187) && (n3 =? 191))%nat.

Fixpoint trim_start (s : string) : string :=
  match s with
  | EmptyString => EmptyString
  | String c1 s1 =>
      if is_space c1 then trim_start s1
      else
        match s1 with
        | EmptyString => s
        | String c2 s2 =>
            if is_space2 c1 c2 then trim_start s2
            else
              match s2 with
              | EmptyString => s
              | String c3 s3 => if is_space3 c1 c2 c3 then trim_start s3 else s
              end
        end
  end.

(** A string of white space only (the empty string included). *)
Definition all_space (s : string) : bool := trim_start s =? "".

Fixpoint trim_end (s : string) : string :=
  match s with
  | EmptyString => EmptyString
  | String c s' => if all_space s then EmptyString else String c (trim_end s')
  end.

Definition trim (s : string) : string := trim_end (trim_start s).

(** An identifier-like token: a run of [\w] characters. *)
Fixpoint all_word (s : string) : bool :=
  match s with
  | EmptyString => true
  | String c s' => is_word c && all_word s'
  end.

(** *** The constant table *)

Definition CONSTANTS : list (string * string) :=
  [("c", "1"); ("g", "9.80665"); ("hbar", "1"); ("kb", "1"); ("phi", "1.6180339887")].

(** [Object.entries(CONSTANTS).sort((a, b) => b[0].length - a[0].length)] *)
Definition sorted : list (string * string) :=
  sort (fun a b => (Z.of_nat (String.length (fst b)) - Z.of_nat (String.length (fst a)))%Z)
       CONSTANTS.

Definition substituteConstants (expr : string) : string :=
  fold_left (fun result entry => replace_token (fst entry) (snd entry) result) sorted expr.

(** *** The external algebra engine

    [nerdamer] and [mathjs] are libraries the program calls; the model takes
    them as functions and records every call.  A computation yields a value
    or throws ([None]), together with the engine calls it made, in order. *)

Inductive Call :=
  | Nerdamer (expr : string) (subs : list (string * string))  (* nerdamer(expr, subs) *)
  | MathEval (expr : string).                                 (* mathEval(expr) *)

Definition Eff (A : Type) : Type := option A * list Call.

Definition ret {A} (a : A) : Eff A := (Some a, []).

Definition bind {A B} (m : Eff A) (f : A -> Eff B) : Eff B :=
  match m with
  | (Some a, l) => let (r, l') := f a in (r, (l ++ l')%list)
  | (None, l) => (None, l)
  end.

(** [try { m } catch (e) { h }] *)
Definition try_catch {A} (m : Eff A) (h : Eff A) : Eff A :=
  match m with
  | (Some a, l) => (Some a, l)
  | (None, l) => let (r, l') := h in (r, (l ++ l')%list)
  end.

Definition result {A} (m : Eff A) : option A := fst m.
Definition calls {A} (m : Eff A) : list Call := snd m.

Notation "x <- m ;; k" := (bind m (fun x => k))
  (at level 61, m at next level, right associativity).

Section Cas.

Context {T : Type} `{Number T}.

(** [nerdamer(expr, subs).text()]: the text of the parsed (and simplified)
    expression, or an exception. *)
Variable nerdamer_text : string -> list (string * string) -> option string.

(** [Number(mathEval(expr))]: the evaluated expression as a number, or an
    exception of [mathEval]. *)
Variable mathEval_number : string -> option T.

(** [Number.prototype.toString] *)
Variable toString : T -> string.

Definition nerdamer (expr : string) (subs : list (string * string)) : Eff string :=
  (nerdamer_text expr subs, [Nerdamer expr subs]).

Definition mathEval (expr : string) : Eff T :=
  (mathEval_number expr, [MathEval expr]).

(** [!expr || expr.trim() === '' || expr.trim() === '0'] *)
Definition degenerate (expr : string) : bool :=
  (expr =? "") || (trim expr =? "") || (trim expr =? "0").


Definition deriveSymbolic (expr : string) (variable : string) : Eff string :=
  if degenerate expr then ret "0"
  else nerdamer ("diff(" ++ expr ++ ", " ++ variable ++ ")") [].

Definition integrateSymbolic (expr : string) (constant : T) (variable : string) : Eff string :=
  if degenerate expr then ret (toString constant)
  else
    integrated <- nerdamer ("integrate(" ++ expr ++ ", " ++ variable ++ ")") [] ;;
    evaluatedAtZero <- nerdamer integrated [("tau", "0")] ;;
    nerdamer (integrated ++ " - (" ++ evaluatedAtZero ++ ") + (" ++ toString constant ++ ")") [].

Record Solution := { sol_X : Vector4; sol_U : Vector4; sol_A : Vector4 }.

(** How many of the four components of a vector are not degenerate. *)
Definition nondegenerate (V : Vector4) : nat :=
  List.length (filter (fun i => negb (degenerate (get4 V i))) range4).

Definition derive4 (V : Vector4) : Eff Vector4 :=
  a <- deriveSymbolic (c0 V) "tau" ;;
  b <- deriveSymbolic (c1 V) "tau" ;;
  c <- deriveSymbolic (c2 V) "tau" ;;
  d <- deriveSymbolic (c3 V) "tau" ;;
  ret (vec4 a b c d).

Definition integrate4 (V : Vector4) (K : Vec4 T) : Eff Vector4 :=
  a <- integrateSymbolic (c0 V) (c0 K) "tau" ;;
  b <- integrateSymbolic (c1 V) (c1 K) "tau" ;;
  c <- integrateSymbolic (c2 V) (c2 K) "tau" ;;
  d <- integrateSymbolic (c3 V) (c3 K) "tau" ;;
  ret (vec4 a b c d).

Definition solveFromPosition (X : Vector4) : Eff Solution :=
  U <- derive4 X ;;
  A <- derive4 U ;;
  ret {| sol_X := X; sol_U := U; sol_A := A |}.

Definition solveFromVelocity (U : Vector4) (X0 : Vec4 T) : Eff Solution :=
  X <- integrate4 U X0 ;;
  A <- derive4 U ;;
  ret {| sol_X := X; sol_U := U; sol_A := A |}.

Definition solveFromAcceleration (A : Vector4) (U0 X0 : Vec4 T) : Eff Solution :=
  U <- integrate4 A U0 ;;
  X <- integrate4 U X0 ;;
  ret {| sol_X := X; sol_U := U; sol_A := A |}.

(** One component of [evaluateVectorAtTau]:
    [Number(mathEval(nerdamer(substituteConstants(e), { tau: tauStr }).text()))] *)
Definition evaluateComponent (e : string) (tauStr : string) : Eff T :=
  text <- nerdamer (substituteConstants e) [("tau", tauStr)] ;;
  mathEval text.

(** What one component of [V] evaluates to at [tau]: a number, or [None]
    when nerdamer or mathEval throws. *)
Definition component (e : string) (tau : T) : option T :=
  result (evaluateComponent e (toString tau)).

Definition evaluateVectorAtTau (V : Vector4) (tau : T) : Eff (Vec4 T) :=
  try_catch
    (let tauStr := toString tau in
     r0 <- evaluateComponent (c0 V) tauStr ;;
     r1 <- evaluateComponent (c1 V) tauStr ;;
     r2 <- evaluateComponent (c2 V) tauStr ;;
     r3 <- evaluateComponent (c3 V) tauStr ;;
     let res := vec4 r0 r1 r2 r3 in
     if Vec4_some Number_isNaN res then ret zero4 else ret res)
    (ret zero4).

Local Open Scope num_scope.

(** [evaluateVectorAtTau(positionExpr, tau)[0]] *)
Definition time_at (positionExpr : Vector4) (tau : T) : T :=
  match result (evaluateVectorAtTau positionExpr tau) with
  | Some V => c0 V
  | None => 0
  end.

(** The [for] loop of [findTauForLabTime] with [n] iterations left, then
    the code after it. *)
Fixpoint bisect (positionExpr : Vector4) (target_t : T) (n : nat) (low high : T) : Eff T :=
  match n with
  | S n' =>
      let mid := (low + high) / lit 2 0 in
      V <- evaluateVectorAtTau positionExpr mid ;;
      let t_mid := c0 V in
      if Number_isNaN t_mid then ret 0
      else if Math_abs (t_mid - target_t) <? lit 1 (-4) then ret mid
      else if t_mid <? target_t then bisect positionExpr target_t n' mid high
      else bisect positionExpr target_t n' low mid
  | O =>
      let result_tau := (low + high) / lit 2 0 in
      V <- evaluateVectorAtTau positionExpr result_tau ;;
      let t_final := c0 V in
      if Math_abs (t_final - target_t) >? lit 100 0 then ret 0
      else ret result_tau
  end.

Definition findTauForLabTime (positionExpr : Vector4) (target_t : T) : Eff T :=
  bisect positionExpr target_t 100 (- lit 1000 0) (lit 1000 0).

(** *** The search as the specification words it

    The bracket after [k] iterations that did not return, from the fixed
    bracket [[-1000, 1000]]: the half above the midpoint when the time
    there is below the target, the half below it otherwise. *)
Fixpoint bracket (positionExpr : Vector4) (target_t : T) (k : nat) : T * T :=
  match k with
  | O => (- lit 1000 0, lit 1000 0)
  | S k' =>
      let (low, high) := bracket positionExpr target_t k' in
      let mid := (low + high) / lit 2 0 in
      if time_at positionExpr mid <? target_t then (mid, high) else (low, mid)
  end.

Definition midpoint (positionExpr : Vector4) (target_t : T) (k : nat) : T :=
  let (low, high) := bracket positionExpr target_t k in (low + high) / lit 2 0.

(** [|t(mid) - target|] at the midpoint of iteration [k]. *)
Definition residual (positionExpr : Vector4) (target_t : T) (k : nat) : T :=
  Math_abs (time_at positionExpr (midpoint positionExpr target_t k) - target_t).

(** Iteration [k] returns: the time at its midpoint is NaN, or the
    residual is below [1e-4]. *)
Definition returns_at (positionExpr : Vector4) (target_t : T) (k : nat) : bool :=
  Number_isNaN (time_at positionExpr (midpoint positionExpr target_t k))
  || (residual positionExpr target_t k <? lit 1 (-4)).

(** What it returns: [0] for NaN, the midpoint otherwise. *)
Definition returned_at (positionExpr : Vector4) (target_t : T) (k : nat) : T :=
  if Number_isNaN (time_at positionExpr (midpoint positionExpr target_t k)) then 0
  else midpoint positionExpr target_t k.

(** The answer once [n] iterations are exhausted: [0] if the residual of
    the final midpoint exceeds [100], that midpoint otherwise. *)
Definition exhausted (positionExpr : Vector4) (target_t : T) (n : nat) : T :=
  if residual positionExpr target_t n >? lit 100 0 then 0
  else midpoint positionExpr target_t n.

(** The search with a budget of [n] iterations: the answer of the first
    iteration that returns, or the answer on exhaustion. *)
Definition bisection (positionExpr : Vector4) (target_t : T) (n : nat) : T :=
  match find (returns_at positionExpr target_t) (seq 0 n) with
  | Some k => returned_at positionExpr target_t k
  | None => exhausted positionExpr target_t n
  end.

End Cas.

(** ** [src/store/useSimulatorStore.ts] *)

Inductive InputType := position | velocity | acceleration.
Inductive SpatialDimension := dim_x | dim_y | dim_z.
Inductive ViewMode := view_2d | view_3d.

Module Store.

Section Store.

Context {T : Type} `{Number T}.
Variable nerdamer_text : string -> list (string * string) -> option string.
Variable toString : T -> string.

Record ParticleState := {
  id : string;
  name : string;
  color : string;
  mass : T;
  initialPosition : Vec4 T;
  initialVelocity : Vec4 T;
  inputPosition : option Vector4;
  inputVelocity : option Vector4;
  inputAcceleration : option Vector4;
  positionExpr : Vector4;
  velocityExpr : Vector4;
  accelerationExpr : Vector4
}.

Record SimulatorState := {
  particles : list ParticleState;
  activeReferenceFrameId : string;
  animationTime : T;
  activeDimension : SpatialDimension;
  viewMode : ViewMode;
  tauRange : T;
  timeMin : T;
  timeMax : T
}.

Local Open Scope num_scope.

(** [generateId()] and [getRandomColor()] draw on [Math.random]; their
    results are arguments here. *)
Definition createDefaultParticle (new_id new_color : string) : ParticleState := {|
  id := new_id;
  name := "Particle " ++ String.substring 0 4 new_id;
  color := new_color;
  mass := 1;
  initialPosition := vec4 0 0 0 0;
  initialVelocity := vec4 1 0 0 0;
  inputPosition := Some (vec4 "tau" "0" "0" "0");
  inputVelocity := None;
  inputAcceleration := None;
  positionExpr := vec4 "tau" "0" "0" "0";
  velocityExpr := vec4 "1" "0" "0" "0";
  accelerationExpr := vec4 "0" "0" "0" "0"
|}.

Definition initial (new_id new_color : string) : SimulatorState := {|
  particles := [createDefaultParticle new_id new_color];
  activeReferenceFrameId := "Lab";
  animationTime := 0;
  activeDimension := dim_x;
  viewMode := view_2d;
  tauRange := lit 50 0;
  timeMin := - lit 10 0;
  timeMax := lit 10 0
|}.

Definition set_particles (ps : list ParticleState) (s : SimulatorState) : SimulatorState := {|
  particles := ps;
  activeReferenceFrameId := activeReferenceFrameId s;
  animationTime := animationTime s;
  activeDimension := activeDimension s;
  viewMode := viewMode s;
  tauRange := tauRange s;
  timeMin := timeMin s;
  timeMax := timeMax s
|}.

(** [particles.map(callback)] for a callback that calls the engine. *)
Fixpoint mapM {A B} (f : A -> Eff B) (l : list A) : Eff (list B) :=
  match l with
  | [] => ret []
  | a :: l' => b <- f a ;; bs <- mapM f l' ;; ret (b :: bs)
  end.

(** The solver call [updateParticleInput] makes for each input kind. *)
Definition solve (inputType : InputType) (input : Vector4) (p : ParticleState) : Eff Solution :=
  match inputType with
  | position => solveFromPosition nerdamer_text input
  | velocity => solveFromVelocity nerdamer_text toString input (initialPosition p)
  | acceleration =>
      solveFromAcceleration nerdamer_text toString input (initialVelocity p) (initialPosition p)
  end.

(** [newP] once the [try] block has stored the input and deleted the other
    two fields; these assignments come before the solver call and do not
    throw, so they stand whether or not the solver does. *)
Definition store_input (inputType : InputType) (input : Vector4) (p : ParticleState) : ParticleState := {|
  id := id p; name := name p; color := color p; mass := mass p;
  initialPosition := initialPosition p;
  initialVelocity := initialVelocity p;
  inputPosition := match inputType with position => Some input | _ => None end;
  inputVelocity := match inputType with velocity => Some input | _ => None end;
  inputAcceleration := match inputType with acceleration => Some input | _ => None end;
  positionExpr := positionExpr p;
  velocityExpr := velocityExpr p;
  accelerationExpr := accelerationExpr p
|}.

Definition with_triple (X U A : Vector4) (p : ParticleState) : ParticleState := {|
  id := id p; name := name p; color := color p; mass := mass p;
  initialPosition := initialPosition p;
  initialVelocity := initialVelocity p;
  inputPosition := inputPosition p;
  inputVelocity := inputVelocity p;
  inputAcceleration := inputAcceleration p;
  positionExpr := X;
  velocityExpr := U;
  accelerationExpr := A
|}.

(** The callback of [updateParticleInput] on one particle. *)
Definition updateParticleInput_1 (target : string) (inputType : InputType) (input : Vector4)
    (p : ParticleState) : Eff ParticleState :=
  if negb (id p =? target) then ret p
  else
    let X := positionExpr p in
    let U := velocityExpr p in
    let A := accelerationExpr p in
    let newP := store_input inputType input p in
    XUA <- try_catch
             (sol <- solve inputType input p ;;
              ret (sol_X sol, sol_U sol, sol_A sol))
             (ret (X, U, A)) ;;
    let '(X, U, A) := XUA in
    ret (with_triple X U A newP).

Definition updateParticleInput (target : string) (inputType : InputType) (input : Vector4)
    (s : SimulatorState) : Eff SimulatorState :=
  ps <- mapM (updateParticleInput_1 target inputType input) (particles s) ;;
  ret (set_particles ps s).

Definition with_initial (X0 U0 : Vec4 T) (p : ParticleState) : ParticleState := {|
  id := id p; name := name p; color := color p; mass := mass p;
  initialPosition := X0;
  initialVelocity := U0;
  inputPosition := inputPosition p;
  inputVelocity := inputVelocity p;
  inputAcceleration := inputAcceleration p;
  positionExpr := positionExpr p;
  velocityExpr := velocityExpr p;
  accelerationExpr := accelerationExpr p
|}.

Definition updateParticleInitialConditions_1 (target : string) (X0 U0 : option (Vec4 T))
    (p : ParticleState) : Eff ParticleState :=
  if negb (id p =? target) then ret p
  else
    let nextX0 := match X0 with Some x => x | None => initialPosition p end in
    let nextU0 := match U0 with Some u => u | None => initialVelocity p end in
    let X := positionExpr p in
    let U := velocityExpr p in
    let A := accelerationExpr p in
    XUA <- try_catch
             (match inputVelocity p, inputAcceleration p with
              | Some iv, _ =>
                  sol <- solveFromVelocity nerdamer_text toString iv nextX0 ;;
                  ret (sol_X sol, sol_U sol, sol_A sol)
              | None, Some ia =>
                  sol <- solveFromAcceleration nerdamer_text toString ia nextU0 nextX0 ;;
                  ret (sol_X sol, sol_U sol, sol_A sol)
              | None, None => ret (X, U, A)
              end)
             (ret (X, U, A)) ;;
    let '(X, U, A) := XUA in
    ret (with_triple X U A (with_initial nextX0 nextU0 p)).

Definition updateParticleInitialConditions (target : string) (X0 U0 : option (Vec4 T))
    (s : SimulatorState) : Eff SimulatorState :=
  ps <- mapM (updateParticleInitialConditions_1 target X0 U0) (particles s) ;;
  ret (set_particles ps s).

Definition rename (target new_name : string) (p : ParticleState) : ParticleState :=
  if id p =? target then {|
    id := id p; name := new_name; color := color p; mass := mass p;
    initialPosition := initialPosition p; initialVelocity := initialVelocity p;
    inputPosition := inputPosition p; inputVelocity := inputVelocity p;
    inputAcceleration := inputAcceleration p;
    positionExpr := positionExpr p; velocityExpr := velocityExpr p;
    accelerationExpr := accelerationExpr p |}
  else p.

Definition recolor (target new_color : string) (p : ParticleState) : ParticleState :=
  if id p =? target then {|
    id := id p; name := name p; color := new_color; mass := mass p;
    initialPosition := initialPosition p; initialVelocity := initialVelocity p;
    inputPosition := inputPosition p; inputVelocity := inputVelocity p;
    inputAcceleration := inputAcceleration p;
    positionExpr := positionExpr p; velocityExpr := velocityExpr p;
    accelerationExpr := accelerationExpr p |}
  else p.

(** The actions of the store; [addParticle] carries the random id and
    colour it draws. *)
Inductive Action :=
  | addParticle (new_id new_color : string)
  | removeParticle (target : string)
  | updateParticleName (target new_name : string)
  | updateParticleColor (target new_color : string)
  | updateParticleInputA (target : string) (inputType : InputType) (input : Vector4)
  | updateParticleInitialConditionsA (target : string) (X0 U0 : option (Vec4 T))
  | setActiveReferenceFrame (frame : string)
  | setAnimationTime (t : T)
  | setActiveDimension (dim : SpatialDimension)
  | setViewMode (mode : ViewMode)
  | setTauRange (range : T)
  | setTimeMin (val : T)
  | setTimeMax (val : T).

Definition dispatch (a : Action) (s : SimulatorState) : Eff SimulatorState :=
  match a with
  | addParticle new_id new_color =>
      ret (set_particles (particles s ++ [createDefaultParticle new_id new_color])%list s)
  | removeParticle target =>
      ret {| particles := filter (fun p => negb (id p =? target)) (particles s);
             activeReferenceFrameId :=
               if activeReferenceFrameId s =? target then "Lab" else activeReferenceFrameId s;
             animationTime := animationTime s; activeDimension := activeDimension s;
             viewMode := viewMode s; tauRange := tauRange s;
             timeMin := timeMin s; timeMax := timeMax s |}
  | updateParticleName target new_name =>
      ret (set_particles (map (rename target new_name) (particles s)) s)
  | updateParticleColor target new_color =>
      ret (set_particles (map (recolor target new_color) (particles s)) s)
  | updateParticleInputA target inputType input => updateParticleInput target inputType input s
  | updateParticleInitialConditionsA target X0 U0 => updateParticleInitialConditions target X0 U0 s
  | setActiveReferenceFrame frame =>
      ret {| particles := particles s; activeReferenceFrameId := frame;
             animationTime := animationTime s; activeDimension := activeDimension s;
             viewMode := viewMode s; tauRange := tauRange s;
             timeMin := timeMin s; timeMax := timeMax s |}
  | setAnimationTime t =>
      ret {| particles := particles s; activeReferenceFrameId := activeReferenceFrameId s;
             animationTime := t; activeDimension := activeDimension s;
             viewMode := viewMode s; tauRange := tauRange s;
             timeMin := timeMin s; timeMax := timeMax s |}
  | setActiveDimension dim =>
      ret {| particles := particles s; activeReferenceFrameId := activeReferenceFrameId s;
             animationTime := animationTime s; activeDimension := dim;
             viewMode := viewMode s; tauRange := tauRange s;
             timeMin := timeMin s; timeMax := timeMax s |}
  | setViewMode mode =>
      ret {| particles := particles s; activeReferenceFrameId := activeReferenceFrameId s;
             animationTime := animationTime s; activeDimension := activeDimension s;
             viewMode := mode; tauRange := tauRange s;
             timeMin := timeMin s; timeMax := timeMax s |}
  | setTauRange range =>
      ret {| particles := particles s; activeReferenceFrameId := activeReferenceFrameId s;
             animationTime := animationTime s; activeDimension := activeDimension s;
             viewMode := viewMode s;
             tauRange := Math_max (lit 10 0) (Math_min (lit 1000 0) range);
             timeMin := timeMin s; timeMax := timeMax s |}
  | setTimeMin val =>
      ret {| particles := particles s; activeReferenceFrameId := activeReferenceFrameId s;
             animationTime := animationTime s; activeDimension := activeDimension s;
             viewMode := viewMode s; tauRange := tauRange s;
             timeMin := Math_min val (timeMax s - lit 1 (-1)); timeMax := timeMax s |}
  | setTimeMax val =>
      ret {| particles := particles s; activeReferenceFrameId := activeReferenceFrameId s;
             animationTime := animationTime s; activeDimension := activeDimension s;
             viewMode := viewMode s; tauRange := tauRange s;
             timeMin := timeMin s; timeMax := Math_max val (timeMin s + lit 1 (-1)) |}
  end.

(** The states the store can be in: the initial one, and any state an
    action leaves behind. *)
Inductive reachable : SimulatorState -> Prop :=
  | reachable_initial new_id new_color : reachable (initial new_id new_color)
  | reachable_dispatch s a s' :
      reachable s -> result (dispatch a s) = Some s' -> reachable s'.

(** How many of the three primary input fields a particle has. *)
Definition defined {A} (o : option A) : nat := match o with Some _ => 1 | None => 0 end.

Definition primary_inputs (p : ParticleState) : nat :=
  (defined (inputPosition p) + defined (inputVelocity p) + defined (inputAcceleration p))%nat.

Definition triple (p : ParticleState) : Vector4 * Vector4 * Vector4 :=
  (positionExpr p, velocityExpr p, accelerationExpr p).

(** How one particle fares under [updateParticleInput]: another
    particle is left alone; the target keeps its derived triple when the
    solver throws and takes the solver's triple when it returns. *)
Definition updated (target : string) (inputType : InputType) (input : Vector4)
    (p p' : ParticleState) : Prop :=
  ((id p =? target) = false -> p' = p)
  /\ ((id p =? target) = true ->
      match result (solve inputType input p) with
      | None => triple p' = triple p
      | Some sol => triple p' = (sol_X sol, sol_U sol, sol_A sol)
      end).

End Store.

End Store.

(** ** More of the physics engine *)

Section Worldlines.

Context {T : Type} `{Number T}.
Local Open Scope num_scope.

(** The Minkowski metric tensor [ETA], signature [-+++]. *)
Definition ETA : Matrix T :=
  vec4 (vec4 (neg 1) 0 0 0) (vec4 0 1 0 0) (vec4 0 0 1 0) (vec4 0 0 0 1).

(** [{ t: number[], x: number[], y: number[], z: number[] }] *)
Record Coords := { ct : list T; cx : list T; cy : list T; cz : list T }.

(** What [undefined - o] is in JavaScript, for an array read past its end. *)
Variable NaN : T.

(** [a[i] - o] *)
Definition minus_at (a : list T) (i : nat) (o : T) : T :=
  match nth_error a i with
  | Some v => v - o
  | None => NaN
  end.

(** The body of the loop of [transformWorldlineCoordinates] at index [i]:
    [V_prime]. *)
Definition transformed_point (coords : Coords) (Lambda : Matrix T) (X_origin : Vec4 T)
    (i : nat) : Vec4 T :=
  let V := vec4 (minus_at (ct coords) i (c0 X_origin)) (minus_at (cx coords) i (c1 X_origin))
                (minus_at (cy coords) i (c2 X_origin)) (minus_at (cz coords) i (c3 X_origin)) in
  applyLorentzTransformation Lambda V.

Definition transformWorldlineCoordinates (coords : Coords) (Lambda : Matrix T)
    (X_origin : Vec4 T) (tau : T) : Coords :=
  let len := List.length (ct coords) in
  let primes := map (transformed_point coords Lambda X_origin) (seq 0 len) in
  {| ct := map (fun V_prime => c0 V_prime + tau) primes;
     cx := map (fun V_prime => c1 V_prime) primes;
     cy := map (fun V_prime => c2 V_prime) primes;
     cz := map (fun V_prime => c3 V_prime) primes |}.

(** The event [(t[i], x[i], y[i], z[i])] of a batch, where all four arrays
    reach index [i]. *)
Definition event_at (coords : Coords) (i : nat) : option (Vec4 T) :=
  match nth_error (ct coords) i, nth_error (cx coords) i,
        nth_error (cy coords) i, nth_error (cz coords) i with
  | Some t, Some x, Some y, Some z => Some (vec4 t x y z)
  | _, _, _, _ => None
  end.

End Worldlines.

(** [Number.isFinite] of every number of a binary64 batch. *)
Definition finite_batch (coords : @Coords float) : bool :=
  forallb PrimFloat.is_finite (ct coords) && forallb PrimFloat.is_finite (cx coords)
  && forallb PrimFloat.is_finite (cy coords) && forallb PrimFloat.is_finite (cz coords).

(** ** More of [src/engine/cas.ts] *)

Section Sweep.

Context {T : Type} `{Number T}.
Variable nerdamer_text : string -> list (string * string) -> option string.
Variable mathEval_number : string -> option T.
Variable toString : T -> string.
Local Open Scope num_scope.

(** The vector [evaluateVectorAtTau(V, tau)] returns. *)
Definition vector_at (V : Vector4) (tau : T) : Vec4 T :=
  match result (evaluateVectorAtTau nerdamer_text mathEval_number toString V tau) with
  | Some U => U
  | None => zero4
  end.

(** The body of the loop of [checkCausalityViolation] for one evaluated
    4-velocity: does it [return true]? *)
Definition violates (U : Vec4 T) : bool :=
  if Math_abs (c0 U) <? lit 1 (-6) then
    (Math_abs (c1 U) >? lit 1 (-6)) || (Math_abs (c2 U) >? lit 1 (-6))
    || (Math_abs (c3 U) >? lit 1 (-6))
  else
    let v2 := (c1 U * c1 U + c2 U * c2 U + c3 U * c3 U) / (c0 U * c0 U) in
    (v2 >? lit 105 (-2)) || Number_isNaN v2.

(** The values the loop variable of [for (let tau = start; tau <= 50;
    tau += 1)] takes, at most [fuel] of them. *)
Fixpoint loop_taus (fuel : nat) (tau : T) : list T :=
  match fuel with
  | O => []
  | S fuel' => if tau <=? lit 50 0 then tau :: loop_taus fuel' (tau + 1) else []
  end.

Fixpoint sweep (velocityExpr : Vector4) (taus : list T) : Eff bool :=
  match taus with
  | [] => ret false
  | tau :: rest =>
      U <- evaluateVectorAtTau nerdamer_text mathEval_number toString velocityExpr tau ;;
      if violates U then ret true else sweep velocityExpr rest
  end.

(** The integers [-50, -49, ..., 50]. *)
Definition integer_taus : list Z := map (fun n => (Z.of_nat n - 50)%Z) (seq 0 101).

(** The loop runs from [-50] in steps of [1]; 102 steps are more than it
    takes: in binary64 it visits [integer_taus] and stops. *)
Definition checkCausalityViolation (velocityExpr : Vector4) : Eff bool :=
  sweep velocityExpr (loop_taus 102 (- lit 50 0)).

End Sweep.

(** ** Readers of the store: the selector and the frame of the graphs *)

(** [hay.includes(needle)] *)
Fixpoint includes (needle hay : string) : bool :=
  String.prefix needle hay
  || match hay with
     | EmptyString => false
     | String _ hay' => includes needle hay'
     end.

Module View.

Section View.

Context {T : Type} `{Number T}.
Variable nerdamer_text : string -> list (string * string) -> option string.
Variable mathEval_number : string -> option T.
Variable toString : T -> string.
Local Open Scope num_scope.

Abbreviation evaluate := (evaluateVectorAtTau nerdamer_text mathEval_number toString).
Abbreviation findTau := (findTauForLabTime nerdamer_text mathEval_number toString).

(** [getLabVelocityForParticle] of the store. *)
Definition getLabVelocityForParticle (target : string) (s : @Store.SimulatorState T)
    : Eff (Vec3 T) :=
  match find (fun x => Store.id x =? target) (Store.particles s) with
  | None => ret (vec3 0 0 0)
  | Some p =>
      U_num <- evaluate (Store.velocityExpr p) (Store.animationTime s) ;;
      ret (extract3Velocity U_num)
  end.

(** The momentarily comoving frame the two graphs compute
    ([SpacetimeGraph] and [Spacetime3DGraph] hold the same code). *)
Record Frame := { Lambda : Matrix T; X_origin : Vec4 T; tau : T }.
Record Selected := { MCRF : Frame; playheadTime : T }.

(** [getLorentzBoostMatrix([0, 0, 0])] at the given origin and proper time. *)
Definition unboosted (origin : Vec4 T) (at_tau : T) : Frame :=
  {| Lambda := getLorentzBoostMatrix (vec3 0 0 0); X_origin := origin; tau := at_tau |}.

Definition selectFrame (s : @Store.SimulatorState T) : Eff Selected :=
  let animationTime := Store.animationTime s in
  if Store.activeReferenceFrameId s =? "Lab" then
    ret {| MCRF := unboosted zero4 0; playheadTime := animationTime |}
  else
    match find (fun p => Store.id p =? Store.activeReferenceFrameId s) (Store.particles s) with
    | None => ret {| MCRF := unboosted zero4 0; playheadTime := animationTime |}
    | Some frameParticle =>
        let isInertial := negb (Vec4_some (includes "tau") (Store.velocityExpr frameParticle)) in
        if isInertial then
          U <- evaluate (Store.velocityExpr frameParticle) 0 ;;
          if Math_abs (c0 U) <? lit 1 (-5) then
            ret {| MCRF := unboosted zero4 0; playheadTime := animationTime |}
          else
            let v3 := vec3 (c1 U / c0 U) (c2 U / c0 U) (c3 U / c0 U) in
            let v2 := d0 v3 * d0 v3 + d1 v3 * d1 v3 + d2 v3 * d2 v3 in
            if v2 >=? lit 99999 (-5) then
              ret {| MCRF := unboosted zero4 0; playheadTime := animationTime |}
            else
              ptau <- findTau (Store.positionExpr frameParticle) animationTime ;;
              ret {| MCRF := {| Lambda := getLorentzBoostMatrix v3; X_origin := zero4; tau := 0 |};
                     playheadTime := ptau |}
        else
          tau <- findTau (Store.positionExpr frameParticle) animationTime ;;
          X_origin <- evaluate (Store.positionExpr frameParticle) tau ;;
          U <- evaluate (Store.velocityExpr frameParticle) tau ;;
          if Math_abs (c0 U) <? lit 1 (-5) then
            ret {| MCRF := unboosted X_origin tau; playheadTime := tau |}
          else
            let v3 := vec3 (c1 U / c0 U) (c2 U / c0 U) (c3 U / c0 U) in
            let v2 := d0 v3 * d0 v3 + d1 v3 * d1 v3 + d2 v3 * d2 v3 in
            if v2 >=? lit 99999 (-5) then
              ret {| MCRF := unboosted X_origin tau; playheadTime := tau |}
            else
              ret {| MCRF := {| Lambda := getLorentzBoostMatrix v3; X_origin := X_origin;
                                tau := tau |};
                     playheadTime := tau |}
    end.

(** The input kind and the input value the control panel shows for a
    particle:
    [p.inputPosition ? 'position' : (p.inputVelocity ? 'velocity' : 'acceleration')]
    and
    [p.inputPosition || p.inputVelocity || p.inputAcceleration || ['0', '0', '0', '0']]. *)
Definition panel_inputType (p : @Store.ParticleState T) : InputType :=
  match Store.inputPosition p, Store.inputVelocity p with
  | Some _, _ => position
  | None, Some _ => velocity
  | None, None => acceleration
  end.

Definition panel_inputValue (p : @Store.ParticleState T) : Vector4 :=
  match Store.inputPosition p, Store.inputVelocity p, Store.inputAcceleration p with
  | Some input, _, _ => input
  | None, Some input, _ => input
  | None, None, Some input => input
  | None, None, None => vec4 "0" "0" "0" "0"
  end.

(** The active frame names the lab or a particle of the store. *)
Definition frame_known (s : @Store.SimulatorState T) : Prop :=
  Store.activeReferenceFrameId s = "Lab"
  \/ exists p, In p (Store.particles s) /\ Store.id p = Store.activeReferenceFrameId s.

End View.

End View.

(** ** The time slider, [TimeSlider] *)

Module Slider.

Section Slider.

Context {T : Type} `{Number T}.
Variable nerdamer_text : string -> list (string * string) -> option string.
Variable toString : T -> string.
Local Open Scope num_scope.

Abbreviation step := (Store.dispatch nerdamer_text toString).


(** [submitMin] and [submitMax], [val] being [parseFloat] of the text
    typed; what they do besides to the store is to the text fields. *)
Definition submitMin (val : T) (s : @Store.SimulatorState T) : Eff (@Store.SimulatorState T) :=
  let animationTime := Store.animationTime s in
  if negb (Number_isNaN val) then
    s1 <- step (Store.setTimeMin val) s ;;
    if animationTime <? val then step (Store.setAnimationTime val) s1 else ret s1
  else ret s.

Definition submitMax (val : T) (s : @Store.SimulatorState T) : Eff (@Store.SimulatorState T) :=
  let animationTime := Store.animationTime s in
  if negb (Number_isNaN val) then
    s1 <- step (Store.setTimeMax val) s ;;
    if animationTime >? val then step (Store.setAnimationTime val) s1 else ret s1
  else ret s.

End Slider.

End Slider.

(** ** Inputs of the repository's integrity checks, and a few more *)

Module Scenario.

Local Open Scope num_scope.

(** Check 4, "Lorentz Matrix Reversibility": [beta = [0.3, 0.4, 0.5]]. *)
Definition beta : Vec3 float := vec3 (lit 3 (-1)) (lit 4 (-1)) (lit 5 (-1)).

(** Check 3, "Invariant Interval Preservation": the two events and the
    velocity [0.99 / sqrt 3] along each axis. *)
Definition X1 : Vec4 float := vec4 (lit 2 0) (lit 5 0) (- lit 1 0) (lit 3 0).
Definition X2 : Vec4 float := vec4 (lit 8 0) (lit 1 0) (lit 4 0) (lit 0 0).
Definition v_check : Vec3 float :=
  let vx := lit 99 (-2) / Math_sqrt (lit 3 0) in vec3 vx vx vx.







(** *** Stand-ins for the algebra engine

    Closed runs need an engine.  These answer on the few expressions the
    runs below send, as nerdamer and mathjs do on them, and throw on
    anything else. *)

(** [nerdamer(e, subs).text()]: the proper time is put in for [tau] and
    the hyperbolic functions stay symbolic; [NaN] is read as a symbol and
    printed back. *)
Definition nerdamer_text (e : string) (subs : list (string * string)) : option string :=
  match subs with
  | [(_, t)] =>
      if e =? "sinh(tau)" then Some ("sinh(" ++ t ++ ")")
      else if e =? "cosh(tau)" then Some ("cosh(" ++ t ++ ")")
      else if e =? "NaN" then Some "NaN"
      else if e =? "0" then Some "0"
      else None
  | _ => None
  end.

(** [Number(mathEval(s))]: [sinh(1000)] and [cosh(1000)] overflow to
    [Infinity]; [NaN] is mathjs's constant. *)
Definition mathEval_number (s : string) : option float :=
  if s =? "sinh(1000)" then Some PrimFloat.infinity
  else if s =? "cosh(1000)" then Some PrimFloat.infinity
  else if s =? "NaN" then Some PrimFloat.nan
  else if s =? "0" then Some (lit 0 0)
  else None.

(** [Number.prototype.toString], on the one number whose text matters. *)
Definition toString (x : float) : string :=
  if PrimFloat.eqb x (lit 1000 0) then "1000" else "?".

(** The worldline of the normalization check, [X = (sinh tau, cosh tau, 0, 0)]. *)
Definition hyperbolic : Vector4 := vec4 "sinh(tau)" "cosh(tau)" "0" "0".

(** A position whose time component evaluates to NaN at every [tau]. *)
Definition nan_time : Vector4 := vec4 "NaN" "0" "0" "0".

(** A position whose time component does not parse. *)
Definition malformed : Vector4 := vec4 "((" "0" "0" "0".

(** The store as it starts, with one particle [p1]. *)
Definition fresh : @Store.SimulatorState float := Store.initial "p1" "#ef4444".

(** [setTimeMax(-4)] and then [setTimeMin(0)] on it. *)
Definition narrowed : Eff (@Store.SimulatorState float) :=
  s1 <- Store.dispatch nerdamer_text toString (Store.setTimeMax (- lit 4 0)) fresh ;;
  Store.dispatch nerdamer_text toString (Store.setTimeMin (lit 0 0)) s1.

(** [updateParticleInput("p1", "position", malformed)] on it. *)
Definition after_malformed : Eff (@Store.SimulatorState float) :=
  Store.updateParticleInput nerdamer_text toString "p1" position malformed fresh.

(** An engine over exact numbers that knows one integral:
    [integrate(1, tau)] is [tau], which is [0] at [tau = 0], and
    [tau - (0) + (3)] simplifies to [3+tau]. *)
Definition nerdamer_text_R (e : string) (subs : list (string * string)) : option string :=
  match subs with
  | [] =>
      if e =? "integrate(1, tau)" then Some "tau"
      else if e =? "tau - (0) + (3)" then Some "3+tau"
      else None
  | _ => if e =? "tau" then Some "0" else None
  end.

Definition toString_R (x : R) : string := "3".







(** *** Inputs for the boosts and the batches in binary64 *)

(** A velocity of [1e-9] along x, and one of [(1 - 1e-13) / sqrt 3] along
    each axis. *)
Definition slow : Vec3 float := vec3 (lit 1 (-9)) 0 0.
Definition near_light : Vec3 float :=
  let vx := (1 - lit 1 (-13)) / Math_sqrt (lit 3 0) in vec3 vx vx vx.

(** The event [[2, 1, 3, 7]]. *)
Definition event : Vec4 float := vec4 (lit 2 0) (lit 1 0) (lit 3 0) (lit 7 0).

(** The 4-velocities of a particle at rest, of one moving at [0.6] along
    x, [[1.25, 0.75, 0, 0]], and of one moving at [2/3] along x and y,
    [[3, 2, 2, 0]]. *)
Definition at_rest : Vec4 float := vec4 1 0 0 0.
Definition cruising : Vec4 float := vec4 (lit 125 (-2)) (lit 75 (-2)) 0 0.
Definition diagonal : Vec4 float := vec4 (lit 3 0) (lit 2 0) (lit 2 0) 0.

(** Every entry of [M] is within [tol] of the entry of [N]; the same for
    two vectors. *)
Definition within {T} `{Number T} (tol : T) (M N : Matrix T) : bool :=
  forallb (fun i => forallb (fun j => Math_abs (entry M i j - entry N i j) <=? tol) range4)
          range4.

Definition within4 {T} `{Number T} (tol : T) (V W : Vec4 T) : bool :=
  forallb (fun j => Math_abs (get4 V j - get4 W j) <=? tol) range4.

(** [L(v) . ETA . L(v)] *)
Definition metric_product {T} `{Number T} (v : Vec3 T) : Matrix T :=
  multiply (getLorentzBoostMatrix v) (multiply ETA (getLorentzBoostMatrix v)).

(** An event boosted by [v] and then by [-v]. *)
Definition there_and_back {T} `{Number T} (v : Vec3 T) (X : Vec4 T) : Vec4 T :=
  applyLorentzTransformation (getLorentzBoostMatrix (negate3 v))
    (applyLorentzTransformation (getLorentzBoostMatrix v) X).

(** The two events of check 3 as a batch, the same a million times
    further out, a batch whose one event has an infinite time, and one
    whose event has [-0] for its time. *)
Definition batch64 : @Coords float :=
  {| ct := [lit 2 0; lit 8 0]; cx := [lit 5 0; lit 1 0];
     cy := [- lit 1 0; lit 4 0]; cz := [lit 3 0; lit 0 0] |}.

Definition far64 : @Coords float :=
  {| ct := [lit 2 6; lit 8 6]; cx := [lit 5 6; lit 1 6];
     cy := [- lit 1 6; lit 4 6]; cz := [lit 3 6; lit 0 0] |}.

Definition batch_infinite : @Coords float :=
  {| ct := [PrimFloat.infinity]; cx := [lit 1 0]; cy := [lit 0 0]; cz := [lit 0 0] |}.

Definition batch_negative_zero : @Coords float :=
  {| ct := [- lit 0 0]; cx := [lit 1 0]; cy := [lit 0 0]; cz := [lit 0 0] |}.

(** How far the interval between the first two events of a batch is from
    the interval between the first two events of another. *)
Definition batch_drift {T} `{Number T} (a b : @Coords T) : option T :=
  match event_at a 0, event_at a 1, event_at b 0, event_at b 1 with
  | Some P, Some Q, Some P', Some Q' =>
      Some (Math_abs (calculateIntervalSquared P Q - calculateIntervalSquared P' Q'))
  | _, _, _, _ => None
  end.

End Scenario.

(** * Properties *)

(** ** Exact arithmetic: how the generic operations read at [R] *)

Module ExactFacts.

Local Open Scope R_scope.

Lemma ltb_true (a b : R) : Exact.ltb a b = true <-> a < b.
Proof. unfold Exact.ltb. destruct (Rlt_dec a b); split; intros; try easy. Qed.

Lemma ltb_false (a b : R) : Exact.ltb a b = false <-> b <= a.
Proof.
  unfold Exact.ltb. destruct (Rlt_dec a b); split; intros; try easy; lra.
Qed.

Lemma leb_true (a b : R) : Exact.leb a b = true <-> a <= b.
Proof. unfold Exact.leb. destruct (Rle_dec a b); split; intros; try easy. Qed.

Lemma leb_false (a b : R) : Exact.leb a b = false <-> b < a.
Proof.
  unfold Exact.leb. destruct (Rle_dec a b); split; intros; try easy; lra.
Qed.

Lemma lit_0 : @lit R _ 0 0 = 0.
Proof. reflexivity. Qed.

Lemma lit_1 : @lit R _ 1 0 = 1.
Proof. reflexivity. Qed.

Lemma lit_1em10 : @lit R _ 1 (-10) = 1 / 10000000000.
Proof. reflexivity. Qed.

Lemma lit_1em4 : @lit R _ 1 (-4) = 1 / 10000.
Proof. reflexivity. Qed.

Lemma speedSquared_eq (v : Vec3 R) :
  speedSquared v = d0 v * d0 v + d1 v * d1 v + d2 v * d2 v.
Proof. reflexivity. Qed.

Lemma speedSquared_negate3 (v : Vec3 R) : speedSquared (negate3 v) = speedSquared v.
Proof. rewrite !speedSquared_eq. simpl. ring. Qed.

(** The Lorentz factor of a sub-luminal velocity: [gamma^2 (1 - v^2) = 1]. *)
Lemma calculateGamma_sq (v : Vec3 R) :
  speedSquared v < 1 ->
  calculateGamma v * calculateGamma v * (1 - speedSquared v) = 1 /\ 0 < calculateGamma v.
Proof.
  intros Hv. unfold calculateGamma.
  change (@le R _ (lit 1 0) (speedSquared v)) with (Exact.leb 1 (speedSquared v)).
  destruct (Exact.leb 1 (speedSquared v)) eqn:E.
  - apply leb_true in E. lra.
  - change (let s := sqrt (1 - speedSquared v) in 1 / s * (1 / s) * (1 - speedSquared v) = 1 /\ 0 < 1 / s).
    intros s.
    assert (Hs : 0 < s) by (apply sqrt_lt_R0; lra).
    assert (Hss : s * s = 1 - speedSquared v) by (apply sqrt_sqrt; lra).
    split.
    + rewrite <- Hss. field. lra.
    + apply Rdiv_lt_0_compat; lra.
Qed.


Lemma getLorentzBoostMatrix_small (v : Vec3 R) :
  speedSquared v < 1 / 10000000000 -> getLorentzBoostMatrix v = identity4.
Proof.
  intros Hs. unfold getLorentzBoostMatrix.
  change (@lt R _ (speedSquared v) (lit 1 (-10)))
    with (Exact.ltb (speedSquared v) (1 / 10000000000)).
  apply ltb_true in Hs. now rewrite Hs.
Qed.

Lemma getLorentzBoostMatrix_entries (v : Vec3 R) :
  1 / 10000000000 <= speedSquared v ->
  getLorentzBoostMatrix v =
    let g := calculateGamma v in
    let v2 := speedSquared v in
    let a := d0 v in let b := d1 v in let c := d2 v in
    vec4 (vec4 g (- g * a) (- g * b) (- g * c))
         (vec4 (- g * a) (1 + (g - 1) * (a * a) / v2) (0 + (g - 1) * (a * b) / v2)
               (0 + (g - 1) * (a * c) / v2))
         (vec4 (- g * b) (0 + (g - 1) * (b * a) / v2) (1 + (g - 1) * (b * b) / v2)
               (0 + (g - 1) * (b * c) / v2))
         (vec4 (- g * c) (0 + (g - 1) * (c * a) / v2) (0 + (g - 1) * (c * b) / v2)
               (1 + (g - 1) * (c * c) / v2)).
Proof.
  intros Hv. unfold getLorentzBoostMatrix.
  change (@lt R _ (speedSquared v) (lit 1 (-10)))
    with (Exact.ltb (speedSquared v) (1 / 10000000000)).
  destruct (Exact.ltb (speedSquared v) (1 / 10000000000)) eqn:E.
  - apply ltb_true in E. lra.
  - reflexivity.
Qed.

Ltac exact_ops :=
  change (@add R _) with Rplus; change (@mul R _) with Rmult;
  change (@sub R _) with Rminus; change (@neg R _) with Ropp;
  change (@div R _) with Rdiv;
  rewrite ?lit_0, ?lit_1.

(** In exact arithmetic a boost and the boost of the opposite velocity are
    inverse matrices. *)
Lemma boost_inverse_exact (v : Vec3 R) :
  speedSquared v < 1 ->
  multiply (getLorentzBoostMatrix v) (getLorentzBoostMatrix (negate3 v)) = identity4.
Proof.
  intros Hv.
  destruct (Rlt_dec (speedSquared v) (1 / 10000000000)) as [Hs | Hs].
  - rewrite !getLorentzBoostMatrix_small by (rewrite ?speedSquared_negate3; exact Hs).
    unfold multiply, identity4, tabulate4, entry.
    cbn [fold_left range4 get4 c0 c1 c2 c3]. exact_ops.
    repeat f_equal; ring.
  - assert (Hs' : 1 / 10000000000 <= speedSquared v) by lra.
    rewrite !getLorentzBoostMatrix_entries by (rewrite ?speedSquared_negate3; exact Hs').
    destruct (calculateGamma_sq Hv) as [Hg Hpos].
    assert (Hgn : calculateGamma (negate3 v) = calculateGamma v).
    { unfold calculateGamma. rewrite speedSquared_negate3. reflexivity. }
    rewrite Hgn, speedSquared_negate3.
    destruct v as [a b c]. simpl d0 in *; simpl d1 in *; simpl d2 in *.
    set (g := calculateGamma (vec3 a b c)) in *.
    set (v2 := speedSquared (vec3 a b c)) in *.
    assert (Hv2 : v2 = a * a + b * b + c * c) by reflexivity.
    clearbody g v2.
    unfold multiply, identity4, tabulate4, entry.
    cbn [fold_left range4 get4 c0 c1 c2 c3 negate3 d0 d1 d2]. exact_ops.
    assert (Hne : v2 <> 0) by lra.
    assert (Hk : g * g * v2 = g * g - 1) by lra.
    repeat f_equal.
    all: try (field_simplify_eq; [ | exact Hne ]).
    all: try nra.
    all: subst v2.
    all: try nra.
    all: match goal with
         | |- ?lhs = 0 =>
             first
               [ replace lhs with (a * b * (a * a + b * b + c * c)
                                   * (g * g * (1 - (a * a + b * b + c * c)) - 1)) by ring
               | replace lhs with (a * c * (a * a + b * b + c * c)
                                   * (g * g * (1 - (a * a + b * b + c * c)) - 1)) by ring
               | replace lhs with (b * c * (a * a + b * b + c * c)
                                   * (g * g * (1 - (a * a + b * b + c * c)) - 1)) by ring ]
         end.
    all: rewrite Hg; ring.
Qed.

(** In exact arithmetic a boost leaves the interval between two events
    unchanged. *)
Lemma interval_invariant_exact (v : Vec3 R) (X1 X2 : Vec4 R) :
  speedSquared v < 1 ->
  calculateIntervalSquared (applyLorentzTransformation (getLorentzBoostMatrix v) X1)
                           (applyLorentzTransformation (getLorentzBoostMatrix v) X2)
  = calculateIntervalSquared X1 X2.
Proof.
  intros Hv.
  destruct (Rlt_dec (speedSquared v) (1 / 10000000000)) as [Hs | Hs].
  - rewrite getLorentzBoostMatrix_small by exact Hs.
    unfold calculateIntervalSquared, magnitudeSquared, Math_pow2,
      applyLorentzTransformation, identity4, tabulate4, entry.
    cbn [fold_left range4 get4 c0 c1 c2 c3]. exact_ops. ring.
  - assert (Hs' : 1 / 10000000000 <= speedSquared v) by lra.
    rewrite !getLorentzBoostMatrix_entries by exact Hs'.
    destruct (calculateGamma_sq Hv) as [Hg Hpos].
    destruct v as [a b c]. simpl d0 in *; simpl d1 in *; simpl d2 in *.
    set (g := calculateGamma (vec3 a b c)) in *.
    set (v2 := speedSquared (vec3 a b c)) in *.
    assert (Hv2 : v2 = a * a + b * b + c * c) by reflexivity.
    clearbody g v2.
    destruct X1 as [t1 x1 y1 z1], X2 as [t2 x2 y2 z2].
    unfold calculateIntervalSquared, magnitudeSquared, Math_pow2,
      applyLorentzTransformation, tabulate4, entry.
    cbn [fold_left range4 get4 c0 c1 c2 c3]. exact_ops.
    assert (Hne : v2 <> 0) by lra.
    subst v2.
    match goal with
    | |- ?lhs = ?rhs =>
        replace lhs with
          (rhs + (g * g * (1 - (a * a + b * b + c * c)) - 1)
                 * ((a * (x2 - x1) + b * (y2 - y1) + c * (z2 - z1))
                    * (a * (x2 - x1) + b * (y2 - y1) + c * (z2 - z1))
                    / (a * a + b * b + c * c)
                    - (t2 - t1) * (t2 - t1)))
          by (field; exact Hne)
    end.
    rewrite Hg. ring.
Qed.

End ExactFacts.

(** ** The Lorentz transform engine *)

Local Open Scope num_scope.







(** ** Comparisons of binary64 numbers *)

Module F64Facts.

Lemma SFcompare_antisym (x y : SpecFloat.spec_float) :
  SpecFloat.SFcompare y x = option_map CompOpp (SpecFloat.SFcompare x y).
Proof.
  destruct x as [ sx | sx | | sx mx ex ], y as [ sy | sy | | sy my ey ];
    try reflexivity;
    try (destruct sx; reflexivity); try (destruct sy; reflexivity);
    try (destruct sx, sy; reflexivity).
  unfold SpecFloat.SFcompare.
  assert (E : Pos.compare_cont Eq my mx = CompOpp (Pos.compare_cont Eq mx my))
    by (symmetry; apply (Pos.compare_cont_antisym mx my Eq)).
  destruct sx, sy; cbn [option_map CompOpp]; try reflexivity;
    rewrite (Z.compare_antisym ex ey);
    destruct (ex ?= ey)%Z; cbn [CompOpp]; try reflexivity;
    rewrite E; rewrite ?CompOpp_involutive; reflexivity.
Qed.

Lemma is_nan_compare (a b : float) :
  PrimFloat.is_nan a = false -> PrimFloat.is_nan b = false ->
  exists c, SpecFloat.SFcompare (Prim2SF a) (Prim2SF b) = Some c.
Proof.
  unfold PrimFloat.is_nan. rewrite !FloatAxioms.eqb_spec. unfold SpecFloat.SFeqb.
  destruct (Prim2SF a), (Prim2SF b); cbn; intros Ha Hb; try discriminate; eauto.
Qed.

(** [a < b] gives [a <= b]. *)
Lemma ltb_leb (a b : float) : PrimFloat.ltb a b = true -> PrimFloat.leb a b = true.
Proof.
  rewrite FloatAxioms.ltb_spec, FloatAxioms.leb_spec. unfold SpecFloat.SFltb, SpecFloat.SFleb.
  destruct (SpecFloat.SFcompare _ _) as [[]|]; congruence.
Qed.

(** Of two numbers neither of which is NaN, one is below the other or
    they are equal. *)
Lemma not_ltb_leb (a b : float) :
  PrimFloat.is_nan a = false -> PrimFloat.is_nan b = false ->
  PrimFloat.ltb a b = false -> PrimFloat.leb b a = true.
Proof.
  intros Ha Hb. destruct (is_nan_compare a b Ha Hb) as [c Hc].
  rewrite FloatAxioms.ltb_spec, FloatAxioms.leb_spec. unfold SpecFloat.SFltb, SpecFloat.SFleb.
  rewrite (SFcompare_antisym (Prim2SF a) (Prim2SF b)), Hc.
  destruct c; cbn; congruence.
Qed.

Lemma leb_not_ltb (a b : float) : PrimFloat.leb a b = true -> PrimFloat.ltb b a = false.
Proof.
  rewrite FloatAxioms.ltb_spec, FloatAxioms.leb_spec. unfold SpecFloat.SFltb, SpecFloat.SFleb.
  rewrite (SFcompare_antisym (Prim2SF a) (Prim2SF b)).
  destruct (SpecFloat.SFcompare _ _) as [[]|]; cbn; congruence.
Qed.

Lemma leb_refl (a : float) : PrimFloat.is_nan a = false -> PrimFloat.leb a a = true.
Proof.
  intros Ha. apply not_ltb_leb; try assumption.
  destruct (PrimFloat.ltb a a) eqn:E; [ | reflexivity ].
  pose proof (leb_not_ltb (ltb_leb E)). congruence.
Qed.

Lemma not_ltb_eqb (a b : float) :
  PrimFloat.is_nan a = false -> PrimFloat.is_nan b = false ->
  PrimFloat.ltb a b = false -> PrimFloat.ltb b a = false -> PrimFloat.eqb a b = true.
Proof.
  intros Ha Hb. destruct (is_nan_compare a b Ha Hb) as [c Hc].
  rewrite !FloatAxioms.ltb_spec, FloatAxioms.eqb_spec. unfold SpecFloat.SFltb, SpecFloat.SFeqb.
  rewrite (SFcompare_antisym (Prim2SF a) (Prim2SF b)), Hc.
  destruct c; cbn; congruence.
Qed.

Lemma leb_not_NaN (a b : float) :
  PrimFloat.leb a b = true -> PrimFloat.is_nan a = false /\ PrimFloat.is_nan b = false.
Proof.
  unfold PrimFloat.is_nan. rewrite FloatAxioms.leb_spec, !FloatAxioms.eqb_spec.
  unfold SpecFloat.SFleb, SpecFloat.SFeqb.
  assert (Hrefl : forall x, x <> SpecFloat.S754_nan ->
                    SpecFloat.SFcompare x x = Some Eq).
  { intros [ | [|] | | [|] m e ] Hx; try reflexivity; try congruence;
      unfold SpecFloat.SFcompare; rewrite Z.compare_refl, Pos.compare_cont_refl; reflexivity. }
  generalize (Prim2SF a) (Prim2SF b). intros x y Hle.
  assert (Hx : x <> SpecFloat.S754_nan) by (intros ->; discriminate).
  assert (Hy : y <> SpecFloat.S754_nan) by (intros ->; destruct x; discriminate).
  now rewrite (Hrefl x Hx), (Hrefl y Hy).
Qed.

(** What [Math.max] and [Math.min] return for numbers that are not NaN. *)
Lemma Math_max_spec (a b : float) :
  PrimFloat.is_nan a = false -> PrimFloat.is_nan b = false ->
  let m := F64.Math_max a b in
  (m = a \/ m = b) /\ PrimFloat.leb a m = true /\ PrimFloat.leb b m = true.
Proof.
  intros Ha Hb. unfold F64.Math_max. rewrite Ha, Hb. cbn [orb].
  destruct (PrimFloat.ltb a b) eqn:E1.
  { split; [ now right | split; [ now apply ltb_leb | now apply leb_refl ] ]. }
  destruct (PrimFloat.ltb b a) eqn:E2.
  { split; [ now left | split; [ now apply leb_refl | now apply ltb_leb ] ]. }
  destruct (PrimFloat.get_sign a).
  - split; [ now right | split; [ now apply not_ltb_leb | now apply leb_refl ] ].
  - split; [ now left | split; [ now apply leb_refl | now apply not_ltb_leb ] ].
Qed.

Lemma Math_min_spec (a b : float) :
  PrimFloat.is_nan a = false -> PrimFloat.is_nan b = false ->
  let m := F64.Math_min a b in
  (m = a \/ m = b) /\ PrimFloat.leb m a = true /\ PrimFloat.leb m b = true.
Proof.
  intros Ha Hb. unfold F64.Math_min. rewrite Ha, Hb. cbn [orb].
  destruct (PrimFloat.ltb a b) eqn:E1.
  { split; [ now left | split; [ now apply leb_refl | now apply ltb_leb ] ]. }
  destruct (PrimFloat.ltb b a) eqn:E2.
  { split; [ now right | split; [ now apply ltb_leb | now apply leb_refl ] ]. }
  destruct (PrimFloat.get_sign a).
  - split; [ now left | split; [ now apply leb_refl | now apply not_ltb_leb ] ].
  - split; [ now right | split; [ now apply not_ltb_leb | now apply leb_refl ] ].
Qed.

Lemma Math_max_NaN (a b : float) :
  PrimFloat.is_nan a || PrimFloat.is_nan b = true -> PrimFloat.is_nan (F64.Math_max a b) = true.
Proof. intros E. unfold F64.Math_max. now rewrite E. Qed.

Lemma Math_min_NaN (a b : float) :
  PrimFloat.is_nan a || PrimFloat.is_nan b = true -> PrimFloat.is_nan (F64.Math_min a b) = true.
Proof. intros E. unfold F64.Math_min. now rewrite E. Qed.

Lemma is_nan_spec (x : float) :
  PrimFloat.is_nan x = true <-> Prim2SF x = SpecFloat.S754_nan.
Proof.
  unfold PrimFloat.is_nan.
  assert (E0 := FloatAxioms.eqb_spec x x). unfold SpecFloat.SFeqb in E0.
  assert (Hrefl : forall x, x <> SpecFloat.S754_nan -> SpecFloat.SFcompare x x = Some Eq).
  { intros [ | [|] | | [|] m e ] Hx; try reflexivity; try congruence;
      unfold SpecFloat.SFcompare; rewrite Z.compare_refl, Pos.compare_cont_refl; reflexivity. }
  destruct (Prim2SF x) eqn:E; rewrite E0;
    [ rewrite (Hrefl (SpecFloat.S754_zero s)) by discriminate
    | rewrite (Hrefl (SpecFloat.S754_infinity s)) by discriminate
    |
    | rewrite (Hrefl (SpecFloat.S754_finite s m e)) by discriminate ];
    cbn; split; try discriminate; try reflexivity.
Qed.

Lemma mul_comm (x y : float) : PrimFloat.mul x y = PrimFloat.mul y x.
Proof.
  apply FloatAxioms.Prim2SF_inj. rewrite !FloatAxioms.mul_spec.
  unfold FloatAxioms.SF64mul, SpecFloat.SFmul.
  destruct (Prim2SF x) as [sx|sx| |sx mx ex], (Prim2SF y) as [sy|sy| |sy my ey];
    try reflexivity; try (now rewrite xorb_comm).
  now rewrite xorb_comm, Pos.mul_comm, Z.add_comm.
Qed.



Lemma sub_NaN (x y : float) :
  PrimFloat.is_nan x || PrimFloat.is_nan y = true -> PrimFloat.is_nan (PrimFloat.sub x y) = true.
Proof.
  intros H. apply is_nan_spec. rewrite FloatAxioms.sub_spec.
  apply orb_true_iff in H as [H | H]; apply is_nan_spec in H; rewrite H;
    [ | destruct (Prim2SF x) ]; reflexivity.
Qed.

Lemma div_NaN (x y : float) :
  PrimFloat.is_nan x || PrimFloat.is_nan y = true -> PrimFloat.is_nan (PrimFloat.div x y) = true.
Proof.
  intros H. apply is_nan_spec. rewrite FloatAxioms.div_spec.
  apply orb_true_iff in H as [H | H]; apply is_nan_spec in H; rewrite H;
    [ | destruct (Prim2SF x) ]; reflexivity.
Qed.



(** A comparison with NaN is false. *)
Lemma ltb_NaN (x y : float) :
  PrimFloat.is_nan x || PrimFloat.is_nan y = true -> PrimFloat.ltb x y = false.
Proof.
  intros H. rewrite FloatAxioms.ltb_spec. unfold SpecFloat.SFltb.
  apply orb_true_iff in H as [H | H]; apply is_nan_spec in H; rewrite H;
    [ | destruct (Prim2SF x) ]; reflexivity.
Qed.

Lemma leb_NaN (x y : float) :
  PrimFloat.is_nan x || PrimFloat.is_nan y = true -> PrimFloat.leb x y = false.
Proof.
  intros H. rewrite FloatAxioms.leb_spec. unfold SpecFloat.SFleb.
  apply orb_true_iff in H as [H | H]; apply is_nan_spec in H; rewrite H;
    [ | destruct (Prim2SF x) ]; reflexivity.
Qed.



Lemma ltb_not_NaN (a b : float) :
  PrimFloat.ltb a b = true -> PrimFloat.is_nan a = false /\ PrimFloat.is_nan b = false.
Proof. intros H. apply leb_not_NaN. now apply ltb_leb. Qed.

(** The order of the numbers that are not NaN is transitive. *)
Lemma SFcompare_key (x y : SpecFloat.spec_float) :
  x <> SpecFloat.S754_nan -> y <> SpecFloat.S754_nan ->
  SpecFloat.SFcompare x y = Some (F64.lex (F64.key x) (F64.key y)).
Proof.
  intros Hx Hy.
  destruct x as [sx|sx| |sx mx ex], y as [sy|sy| |sy my ey]; try congruence;
    try (destruct sx; reflexivity); try (destruct sy; reflexivity);
    try (destruct sx, sy; reflexivity).
  unfold SpecFloat.SFcompare, F64.lex, F64.key.
  destruct sx, sy; cbn [fst snd]; try reflexivity.
  rewrite Z.compare_refl, Z.compare_opp, (Z.compare_antisym ex ey).
  destruct (ex ?= ey)%Z; reflexivity.
Qed.


Lemma lex_lt_le_trans (a b c : Z * (Z * Z)) :
  F64.lex a b = Lt -> F64.lex b c <> Gt -> F64.lex a c = Lt.
Proof.
  destruct a as [a1 [a2 a3]], b as [b1 [b2 b3]], c as [c1 [c2 c3]].
  unfold F64.lex. cbn [fst snd].
  destruct (Z.compare_spec a1 b1), (Z.compare_spec b1 c1), (Z.compare_spec a1 c1);
    try lia; try congruence;
    destruct (Z.compare_spec a2 b2), (Z.compare_spec b2 c2), (Z.compare_spec a2 c2);
    try lia; try congruence;
    destruct (Z.compare_spec a3 b3), (Z.compare_spec b3 c3), (Z.compare_spec a3 c3);
    try lia; congruence.
Qed.

Lemma leb_key (a b : float) :
  PrimFloat.leb a b = true <->
  PrimFloat.is_nan a = false /\ PrimFloat.is_nan b = false
  /\ F64.lex (F64.key (Prim2SF a)) (F64.key (Prim2SF b)) <> Gt.
Proof.
  split.
  - intros H. destruct (leb_not_NaN H) as [Ha Hb]. repeat split; try assumption.
    rewrite FloatAxioms.leb_spec in H. unfold SpecFloat.SFleb in H.
    rewrite SFcompare_key in H.
    + destruct (F64.lex _ _); congruence.
    + intros E. apply is_nan_spec in E. congruence.
    + intros E. apply is_nan_spec in E. congruence.
  - intros (Ha & Hb & H). rewrite FloatAxioms.leb_spec. unfold SpecFloat.SFleb.
    rewrite SFcompare_key.
    + destruct (F64.lex _ _); congruence.
    + intros E. apply is_nan_spec in E. congruence.
    + intros E. apply is_nan_spec in E. congruence.
Qed.

Lemma ltb_key (a b : float) :
  PrimFloat.ltb a b = true <->
  PrimFloat.is_nan a = false /\ PrimFloat.is_nan b = false
  /\ F64.lex (F64.key (Prim2SF a)) (F64.key (Prim2SF b)) = Lt.
Proof.
  split.
  - intros H. destruct (ltb_not_NaN H) as [Ha Hb]. repeat split; try assumption.
    rewrite FloatAxioms.ltb_spec in H. unfold SpecFloat.SFltb in H.
    rewrite SFcompare_key in H.
    + destruct (F64.lex _ _); congruence.
    + intros E. apply is_nan_spec in E. congruence.
    + intros E. apply is_nan_spec in E. congruence.
  - intros (Ha & Hb & H). rewrite FloatAxioms.ltb_spec. unfold SpecFloat.SFltb.
    rewrite SFcompare_key.
    + now rewrite H.
    + intros E. apply is_nan_spec in E. congruence.
    + intros E. apply is_nan_spec in E. congruence.
Qed.


Lemma ltb_leb_trans (a b c : float) :
  PrimFloat.ltb a b = true -> PrimFloat.leb b c = true -> PrimFloat.ltb a c = true.
Proof.
  intros H1 H2. apply ltb_key in H1 as (Ha & Hb & H1). apply leb_key in H2 as (_ & Hc & H2).
  apply ltb_key. repeat split; try assumption. eapply lex_lt_le_trans; eassumption.
Qed.

Lemma sqrt_NaN (x : float) :
  PrimFloat.is_nan x = true -> PrimFloat.is_nan (PrimFloat.sqrt x) = true.
Proof.
  intros H. apply is_nan_spec. apply is_nan_spec in H.
  now rewrite FloatAxioms.sqrt_spec, H.
Qed.

Lemma lex_le_lt_trans (a b c : Z * (Z * Z)) :
  F64.lex a b <> Gt -> F64.lex b c = Lt -> F64.lex a c = Lt.
Proof.
  destruct a as [a1 [a2 a3]], b as [b1 [b2 b3]], c as [c1 [c2 c3]].
  unfold F64.lex. cbn [fst snd].
  destruct (Z.compare_spec a1 b1), (Z.compare_spec b1 c1), (Z.compare_spec a1 c1);
    try lia; try congruence;
    destruct (Z.compare_spec a2 b2), (Z.compare_spec b2 c2), (Z.compare_spec a2 c2);
    try lia; try congruence;
    destruct (Z.compare_spec a3 b3), (Z.compare_spec b3 c3), (Z.compare_spec a3 c3);
    try lia; congruence.
Qed.

Lemma leb_ltb_trans (a b c : float) :
  PrimFloat.leb a b = true -> PrimFloat.ltb b c = true -> PrimFloat.ltb a c = true.
Proof.
  intros H1 H2. apply leb_key in H1 as (Ha & Hb & H1). apply ltb_key in H2 as (_ & Hc & H2).
  apply ltb_key. repeat split; try assumption. eapply lex_le_lt_trans; eassumption.
Qed.

(** A finite number is a zero or has a mantissa and an exponent. *)
Lemma is_finite_cases (x : float) :
  PrimFloat.is_finite x = true ->
  (exists s, Prim2SF x = SpecFloat.S754_zero s)
  \/ (exists s m e, Prim2SF x = SpecFloat.S754_finite s m e).
Proof.
  unfold PrimFloat.is_finite, Prim2SF.
  destruct (PrimFloat.is_nan x); [ discriminate | ].
  destruct (PrimFloat.is_infinity x); [ discriminate | ]. intros _.
  destruct (PrimFloat.is_zero x); [ left; eauto | ].
  destruct (FloatOps.Z.frexp x) as [r exp].
  destruct (SpecFloat.shr_fexp _ _ _ _ _) as [shr e'].
  destruct (SpecFloat.shr_m shr); [ left | right | left ]; eauto.
Qed.

Lemma zero_spec (x : float) :
  Prim2SF x = SpecFloat.S754_zero false -> x = lit 0 0.
Proof. intros E. apply FloatAxioms.Prim2SF_inj. rewrite E. reflexivity. Qed.

(** [x - x] is [+0] for a finite [x]. *)
Lemma sub_diag (x : float) :
  PrimFloat.is_finite x = true -> PrimFloat.sub x x = lit 0 0.
Proof.
  intros Hx. apply zero_spec. rewrite FloatAxioms.sub_spec.
  destruct (is_finite_cases x Hx) as [[s ->] | [s [m [e ->]]]].
  - destruct s; reflexivity.
  - unfold FloatAxioms.SF64sub, SpecFloat.SFsub. rewrite Z.sub_diag. reflexivity.
Qed.

(** A finite number times [+0] is a zero. *)
Lemma mul_zero_r (a : float) :
  PrimFloat.is_finite a = true ->
  exists s, Prim2SF (PrimFloat.mul a (lit 0 0)) = SpecFloat.S754_zero s.
Proof.
  intros Ha. rewrite FloatAxioms.mul_spec.
  change (Prim2SF (lit 0 0)) with (SpecFloat.S754_zero false).
  destruct (is_finite_cases a Ha) as [[s ->] | [s [m [e ->]]]]; eexists; reflexivity.
Qed.

(** [+0] plus a zero is [+0]. *)
Lemma add_zero_zero (y : float) (s : bool) :
  Prim2SF y = SpecFloat.S754_zero s -> PrimFloat.add (lit 0 0) y = lit 0 0.
Proof.
  intros Hy. apply zero_spec. rewrite FloatAxioms.add_spec, Hy.
  change (Prim2SF (lit 0 0)) with (SpecFloat.S754_zero false).
  destruct s; reflexivity.
Qed.

(** [+0] plus a number is that number, as a number: it is the number
    itself unless that is [-0], and then it is [+0]. *)
Lemma add_zero_l (y : float) :
  PrimFloat.is_nan y = false -> PrimFloat.eqb (PrimFloat.add (lit 0 0) y) y = true.
Proof.
  intros Hy. rewrite FloatAxioms.eqb_spec, FloatAxioms.add_spec.
  change (Prim2SF (lit 0 0)) with (SpecFloat.S754_zero false).
  assert (Hn : Prim2SF y <> SpecFloat.S754_nan).
  { intros E. apply is_nan_spec in E. congruence. }
  assert (Hrefl : forall x, x <> SpecFloat.S754_nan -> SpecFloat.SFeqb x x = true).
  { unfold SpecFloat.SFeqb.
    intros [ | [|] | | [|] m e ] Hx; try reflexivity; try congruence;
      unfold SpecFloat.SFcompare; rewrite Z.compare_refl, Pos.compare_cont_refl; reflexivity. }
  destruct (Prim2SF y) as [ [|] | [|] | | s m e ] eqn:E; try reflexivity; try congruence.
  all: apply Hrefl; discriminate.
Qed.

(** [1 * a] is [a] for a finite [a]: the product of the mantissas is the
    mantissa of [a] shifted by 52 bits, and rounding shifts it back. *)
Lemma mul_one_l (a : float) :
  PrimFloat.is_finite a = true -> PrimFloat.mul (lit 1 0) a = a.
Proof.
  intros Ha. apply FloatAxioms.Prim2SF_inj. rewrite FloatAxioms.mul_spec.
  change (Prim2SF (lit 1 0)) with (SpecFloat.S754_finite false 4503599627370496 (-52)).
  pose proof (FloatAxioms.Prim2SF_valid a) as Hvalid.
  destruct (is_finite_cases a Ha) as [[s E] | [s [m [e E]]]]; rewrite E in *.
  - reflexivity.
  - unfold FloatAxioms.SF64mul, SpecFloat.SFmul. cbn [xorb].
    unfold SpecFloat.valid_binary, SpecFloat.bounded in Hvalid.
    apply andb_true_iff in Hvalid as [Hcan Hle].
    unfold SpecFloat.canonical_mantissa in Hcan. apply Z.eqb_eq in Hcan.
    unfold SpecFloat.binary_round_aux.
    assert (Hshift : SpecFloat.shr_fexp FloatOps.prec FloatOps.emax
                       (Zpos (4503599627370496 * m)) (-52 + e) SpecFloat.loc_Exact
                     = ({| SpecFloat.shr_m := Zpos m; SpecFloat.shr_r := false;
                           SpecFloat.shr_s := false |}, e)).
    { unfold SpecFloat.shr_fexp.
      assert (Hd : (SpecFloat.Zdigits2 (Zpos (4503599627370496 * m)) + (-52 + e)
                    = Zpos (SpecFloat.digits2_pos m) + e)%Z).
      { cbn [Pos.mul SpecFloat.Zdigits2 SpecFloat.digits2_pos]. lia. }
      rewrite Hd, Hcan.
      replace (e - (-52 + e))%Z with 52%Z by lia.
      unfold SpecFloat.shr. f_equal. lia. }
    rewrite Hshift. cbn [SpecFloat.shr_m SpecFloat.loc_of_shr_record SpecFloat.round_nearest_even].
    assert (Hstay : SpecFloat.shr_fexp FloatOps.prec FloatOps.emax (Zpos m) e
                      SpecFloat.loc_Exact
                    = ({| SpecFloat.shr_m := Zpos m; SpecFloat.shr_r := false;
                          SpecFloat.shr_s := false |}, e)).
    { unfold SpecFloat.shr_fexp. cbn [SpecFloat.Zdigits2]. rewrite Hcan, Z.sub_diag.
      reflexivity. }
    rewrite Hstay. cbn [SpecFloat.shr_m]. now rewrite Hle.
Qed.

(** [a - 0] is [a]. *)
Lemma sub_zero_r (a : float) : PrimFloat.sub a (lit 0 0) = a.
Proof.
  apply FloatAxioms.Prim2SF_inj. rewrite FloatAxioms.sub_spec.
  change (Prim2SF (lit 0 0)) with (SpecFloat.S754_zero false).
  destruct (Prim2SF a) as [ [|] | [|] | | s m e ]; reflexivity.
Qed.

(** [+0] times a finite number is a zero. *)
Lemma mul_zero_l (a : float) :
  PrimFloat.is_finite a = true ->
  exists s, Prim2SF (PrimFloat.mul (lit 0 0) a) = SpecFloat.S754_zero s.
Proof. intros Ha. rewrite mul_comm. now apply mul_zero_r. Qed.

(** A sum [0 + a] with [a] finite is [+0] or has a mantissa, and adding
    a zero to it changes nothing. *)
Lemma add_zero_keeps (a y : float) (s : bool) :
  PrimFloat.is_finite a = true -> Prim2SF y = SpecFloat.S754_zero s ->
  PrimFloat.add (PrimFloat.add (lit 0 0) a) y = PrimFloat.add (lit 0 0) a.
Proof.
  intros Ha Hy. apply FloatAxioms.Prim2SF_inj.
  rewrite (FloatAxioms.add_spec (PrimFloat.add (lit 0 0) a) y), Hy.
  rewrite (FloatAxioms.add_spec (lit 0 0) a).
  change (Prim2SF (lit 0 0)) with (SpecFloat.S754_zero false).
  destruct (is_finite_cases a Ha) as [[sa ->] | [sa [m [e ->]]]].
  - destruct sa, s; reflexivity.
  - destruct s; reflexivity.
Qed.

End F64Facts.

(** ** The causality validator *)

Section Validator.

Context {T : Type} `{Number T}.

Lemma validateCausality_cases (U : Vec4 T) :
  validateCausality U =
    if c0 U <? 0 then
      {| isValid := false; reason := Some BackwardInTime;
         U_squared := magnitudeSquared U; v_squared := 0 |}
    else if Math_abs (magnitudeSquared U - neg 1) >? lit 1 (-4) then
      {| isValid := false; reason := Some NotNormalized;
         U_squared := magnitudeSquared U; v_squared := 0 |}
    else if speedSquared (extract3Velocity U) >=? 1 then
      {| isValid := false; reason := Some NotSubluminal;
         U_squared := magnitudeSquared U; v_squared := speedSquared (extract3Velocity U) |}
    else
      {| isValid := true; reason := None;
         U_squared := magnitudeSquared U; v_squared := speedSquared (extract3Velocity U) |}.
Proof. reflexivity. Qed.





End Validator.

Lemma Rabs_le_both (a b : R) : (Rabs a <= b -> - b <= a <= b)%R.
Proof. unfold Rabs. destruct (Rcase_abs a); lra. Qed.

(** Where the first two checks pass, the 3-speed squared the validator
    measures is [(U1^2 + U2^2 + U3^2) / U0^2] (exact arithmetic). *)
Lemma measured_speed_exact (U : Vec4 R) :
  (c0 U <? 0) = false ->
  (Math_abs (magnitudeSquared U - neg 1) >? lit 1 (-4)) = false ->
  speedSquared (extract3Velocity U)
  = ((c1 U * c1 U + c2 U * c2 U + c3 U * c3 U) / (c0 U * c0 U))%R.
Proof.
  unfold extract3Velocity.
  destruct U as [t x y z]. cbn [c0 c1 c2 c3].
  change (@lt R _ t (lit 0 0)) with (Exact.ltb t 0).
  change (@lt R _ (lit 1 (-4)) ?a) with (Exact.ltb (1 / 10000) a).
  change (@lt R _ ?a (lit 1 (-10))) with (Exact.ltb a (1 / 10000000000)).
  intros Hb Hn.
  apply ExactFacts.ltb_false in Hb. apply ExactFacts.ltb_false in Hn.
  unfold magnitudeSquared, Math_pow2 in Hn. cbn [c0 c1 c2 c3] in Hn.
  change (@Math_abs R _) with Rabs in *.
  change (@add R _) with Rplus in *. change (@mul R _) with Rmult in *.
  change (@sub R _) with Rminus in *. change (@neg R _) with Ropp in *.
  rewrite ExactFacts.lit_1 in Hn.
  assert (Ht : (1 / 10000000000 < t)%R).
  { apply Rabs_le_both in Hn. nra. }
  destruct (Exact.ltb (Rabs t) (1 / 10000000000)) eqn:E.
  - apply ExactFacts.ltb_true in E. rewrite Rabs_pos_eq in E by lra. lra.
  - rewrite ExactFacts.speedSquared_eq. cbn [d0 d1 d2].
    change (@div R _) with Rdiv. field. lra.
Qed.








(** ** Computations that call the engine *)

Lemma result_bind {A B} (m : Eff A) (f : A -> Eff B) :
  result (bind m f) = match result m with Some a => result (f a) | None => None end.
Proof. destruct m as [[a|] l]; simpl; [ destruct (f a) | ]; reflexivity. Qed.

Lemma calls_bind {A B} (m : Eff A) (f : A -> Eff B) :
  calls (bind m f)
  = match result m with Some a => (calls m ++ calls (f a))%list | None => calls m end.
Proof. destruct m as [[a|] l]; simpl; [ destruct (f a) | ]; reflexivity. Qed.

Lemma result_try_catch {A} (m h : Eff A) :
  result (try_catch m h) = match result m with Some a => Some a | None => result h end.
Proof. destruct m as [[a|] l]; simpl; [ | destruct h ]; reflexivity. Qed.

Lemma result_ret {A} (a : A) : result (ret a) = Some a.
Proof. reflexivity. Qed.

(** ** The numeric evaluator *)

Section Evaluator.

Context {T : Type} `{Number T}.
Variable nerdamer_text : string -> list (string * string) -> option string.
Variable mathEval_number : string -> option T.
Variable toString : T -> string.

Lemma evaluateVectorAtTau_result (V : Vector4) (tau : T) :
  result (evaluateVectorAtTau nerdamer_text mathEval_number toString V tau)
  = Some match component nerdamer_text mathEval_number toString (c0 V) tau,
               component nerdamer_text mathEval_number toString (c1 V) tau,
               component nerdamer_text mathEval_number toString (c2 V) tau,
               component nerdamer_text mathEval_number toString (c3 V) tau with
         | Some r0, Some r1, Some r2, Some r3 =>
             if Vec4_some Number_isNaN (vec4 r0 r1 r2 r3) then zero4 else vec4 r0 r1 r2 r3
         | _, _, _, _ => zero4
         end.
Proof.
  unfold evaluateVectorAtTau, component.
  rewrite result_try_catch, !result_bind.
  destruct (result (evaluateComponent _ _ (c0 V) _)) as [r0|]; [ | reflexivity ].
  rewrite !result_bind.
  destruct (result (evaluateComponent _ _ (c1 V) _)) as [r1|]; [ | reflexivity ].
  rewrite !result_bind.
  destruct (result (evaluateComponent _ _ (c2 V) _)) as [r2|]; [ | reflexivity ].
  rewrite !result_bind.
  destruct (result (evaluateComponent _ _ (c3 V) _)) as [r3|]; [ | reflexivity ].
  destruct (Vec4_some Number_isNaN (vec4 r0 r1 r2 r3)); reflexivity.
Qed.

End Evaluator.

Section EvaluatorClaims.

Context {T : Type} `{Number T}.
Variable nerdamer_text : string -> list (string * string) -> option string.
Variable mathEval_number : string -> option T.
Variable toString : T -> string.

Let evaluate := evaluateVectorAtTau nerdamer_text mathEval_number toString.
Let comp := component nerdamer_text mathEval_number toString.

(** A component fails when its evaluation throws or yields NaN. *)
Let fails (e : string) (tau : T) : Prop :=
  comp e tau = None \/ exists x, comp e tau = Some x /\ Number_isNaN x = true.

(** C1.  [evaluateVectorAtTau V tau] never throws.  If the evaluation of
    any of the four components throws or yields NaN, it returns the zero
    vector [[0,0,0,0]]; otherwise it returns the four evaluated
    components. *)
Theorem evaluateVectorAtTau_spec (V : Vector4) (tau : T) :
  (exists v, result (evaluate V tau) = Some v)
  /\ ((exists i, fails (get4 V i) tau) -> result (evaluate V tau) = Some zero4)
  /\ (forall r0 r1 r2 r3,
        comp (c0 V) tau = Some r0 -> comp (c1 V) tau = Some r1 ->
        comp (c2 V) tau = Some r2 -> comp (c3 V) tau = Some r3 ->
        Number_isNaN r0 = false -> Number_isNaN r1 = false ->
        Number_isNaN r2 = false -> Number_isNaN r3 = false ->
        result (evaluate V tau) = Some (vec4 r0 r1 r2 r3)).
Proof.
  unfold evaluate, fails, comp.
  rewrite evaluateVectorAtTau_result.
  split; [ eexists; reflexivity | split ].
  - intros [i Hi].
    destruct (component nerdamer_text mathEval_number toString (c0 V) tau) as [r0|] eqn:E0;
    destruct (component nerdamer_text mathEval_number toString (c1 V) tau) as [r1|] eqn:E1;
    destruct (component nerdamer_text mathEval_number toString (c2 V) tau) as [r2|] eqn:E2;
    destruct (component nerdamer_text mathEval_number toString (c3 V) tau) as [r3|] eqn:E3;
    try reflexivity.
    assert (Hn : Vec4_some Number_isNaN (vec4 r0 r1 r2 r3) = true).
    { unfold Vec4_some. cbn [c0 c1 c2 c3].
      destruct i; cbn [get4] in Hi; destruct Hi as [Hi | [x [Hx Hnan]]];
        try congruence;
        [ rewrite E0 in Hx | rewrite E1 in Hx | rewrite E2 in Hx | rewrite E3 in Hx ];
        injection Hx as <-; rewrite Hnan; rewrite ?orb_true_r; reflexivity. }
    now rewrite Hn.
  - intros r0 r1 r2 r3 -> -> -> -> N0 N1 N2 N3.
    unfold Vec4_some. cbn [c0 c1 c2 c3]. now rewrite N0, N1, N2, N3.
Qed.

End EvaluatorClaims.

(** A time component that evaluates to NaN takes the whole vector to
    zero, the three components that evaluate to [0] included. *)
Lemma evaluateVectorAtTau_spec_witness :
  result (evaluateVectorAtTau Scenario.nerdamer_text Scenario.mathEval_number Scenario.toString
            Scenario.nan_time (lit 1000 0))
  = Some zero4.
Proof.
  apply (proj1 (proj2 (evaluateVectorAtTau_spec Scenario.nerdamer_text Scenario.mathEval_number
                         Scenario.toString Scenario.nan_time (lit 1000 0)))).
  exists I0. right. exists PrimFloat.nan. split; vm_compute; reflexivity.
Defined.

(** C8, as the code has it.  The vector [evaluateVectorAtTau] returns
    holds NaN in no component: each component is the number its
    expression evaluated to, NaN excluded, or all four are [0].  (Nothing
    excludes [Infinity].) *)
Theorem evaluateVectorAtTau_never_NaN
    (nerdamer_text : string -> list (string * string) -> option string)
    (mathEval_number : string -> option float) (toString : float -> string)
    (V : Vector4) (tau : float) :
  exists v,
    result (evaluateVectorAtTau nerdamer_text mathEval_number toString V tau) = Some v
    /\ Vec4_some Number_isNaN v = false
    /\ (v = zero4
        \/ (component nerdamer_text mathEval_number toString (c0 V) tau = Some (c0 v)
            /\ component nerdamer_text mathEval_number toString (c1 V) tau = Some (c1 v)
            /\ component nerdamer_text mathEval_number toString (c2 V) tau = Some (c2 v)
            /\ component nerdamer_text mathEval_number toString (c3 V) tau = Some (c3 v))).
Proof.
  rewrite evaluateVectorAtTau_result.
  destruct (component nerdamer_text mathEval_number toString (c0 V) tau) as [r0|];
  destruct (component nerdamer_text mathEval_number toString (c1 V) tau) as [r1|];
  destruct (component nerdamer_text mathEval_number toString (c2 V) tau) as [r2|];
  destruct (component nerdamer_text mathEval_number toString (c3 V) tau) as [r3|];
  try (eexists; split; [ reflexivity | split; [ reflexivity | left; reflexivity ] ]).
  destruct (Vec4_some Number_isNaN (vec4 r0 r1 r2 r3)) eqn:E.
  - eexists; split; [ reflexivity | split; [ reflexivity | left; reflexivity ] ].
  - eexists; split; [ reflexivity | split; [ exact E | right; repeat split ] ].
Qed.

(** C8 fails for "finite": on the worldline [(sinh tau, cosh tau, 0, 0)]
    at [tau = 1000] the evaluator returns [[Infinity, Infinity, 0, 0]]. *)
Lemma evaluateVectorAtTau_infinite_counterexample :
  result (evaluateVectorAtTau Scenario.nerdamer_text Scenario.mathEval_number Scenario.toString
            Scenario.hyperbolic (lit 1000 0))
  = Some (vec4 PrimFloat.infinity PrimFloat.infinity (lit 0 0) (lit 0 0))
  /\ PrimFloat.is_finite PrimFloat.infinity = false.
Proof. vm_compute. split; reflexivity. Qed.

(** ** The proper-time locator *)

Section Locator.

Context {T : Type} `{Number T}.
Variable nerdamer_text : string -> list (string * string) -> option string.
Variable mathEval_number : string -> option T.
Variable toString : T -> string.
Variable positionExpr : Vector4.
Variable target_t : T.

Abbreviation evaluate := (evaluateVectorAtTau nerdamer_text mathEval_number toString).
Let time := time_at nerdamer_text mathEval_number toString positionExpr.
Abbreviation loop := (bisect nerdamer_text mathEval_number toString positionExpr target_t).

(** What [findTauForLabTime] may return: [0]; a proper time whose lab time
    is within [1e-4] of the target; or a proper time whose lab time is not
    further than [100] from it. *)
Let acceptable (r : T) : Prop :=
  r = 0
  \/ (Math_abs (time r - target_t) <? lit 1 (-4)) = true
  \/ (Math_abs (time r - target_t) >? lit 100 0) = false.

Lemma evaluate_returns (tau : T) :
  exists V, result (evaluate positionExpr tau) = Some V /\ time tau = c0 V.
Proof.
  unfold time, time_at.
  rewrite evaluateVectorAtTau_result. eexists. split; reflexivity.
Qed.

Lemma calls_evaluate (V : Vector4) (tau : T) :
  (List.length (calls (evaluate V tau)) <= 8)%nat.
Proof.
  unfold evaluateVectorAtTau, evaluateComponent, nerdamer, mathEval, try_catch, bind, ret.
  repeat match goal with
         | |- context [match ?o with Some _ => _ | None => _ end] => destruct o
         | |- context [if ?b then _ else _] => destruct b
         end; simpl; lia.
Qed.

(** The loop never throws, and what it returns is acceptable. *)
Lemma bisect_returns (n : nat) :
  forall low high, exists r, result (loop n low high) = Some r /\ acceptable r.
Proof.
  unfold acceptable.
  induction n as [ | n IH ]; intros low high; cbn [bisect]; rewrite result_bind.
  - destruct (evaluate_returns ((low + high) / lit 2 0)) as [V [-> Ht]].
    rewrite <- Ht.
    destruct (Math_abs (time ((low + high) / lit 2 0) - target_t) >? lit 100 0) eqn:E.
    + eexists. split; [ reflexivity | left; reflexivity ].
    + eexists. split; [ reflexivity | right; right; exact E ].
  - destruct (evaluate_returns ((low + high) / lit 2 0)) as [V [-> Ht]].
    rewrite <- Ht.
    destruct (Number_isNaN (time ((low + high) / lit 2 0))).
    { eexists. split; [ reflexivity | left; reflexivity ]. }
    destruct (Math_abs (time ((low + high) / lit 2 0) - target_t) <? lit 1 (-4)) eqn:E.
    { eexists. split; [ reflexivity | right; left; exact E ]. }
    destruct (time ((low + high) / lit 2 0) <? target_t); apply IH.
Qed.

(** The loop evaluates the position at most once per iteration, and once
    more after the last. *)
Lemma bisect_calls (n : nat) :
  forall low high, (List.length (calls (loop n low high)) <= 8 * (n + 1))%nat.
Proof.
  induction n as [ | n IH ]; intros low high; cbn [bisect]; rewrite calls_bind.
  - pose proof (calls_evaluate positionExpr ((low + high) / lit 2 0)) as Hc.
    destruct (result (evaluate positionExpr ((low + high) / lit 2 0))) as [V|]; [ | lia ].
    rewrite length_app.
    destruct (Math_abs (c0 V - target_t) >? lit 100 0); simpl; lia.
  - pose proof (calls_evaluate positionExpr ((low + high) / lit 2 0)) as Hc.
    destruct (result (evaluate positionExpr ((low + high) / lit 2 0))) as [V|]; [ | lia ].
    rewrite length_app.
    destruct (Number_isNaN (c0 V)); [ simpl; lia | ].
    destruct (Math_abs (c0 V - target_t) <? lit 1 (-4)); [ simpl; lia | ].
    destruct (c0 V <? target_t);
      match goal with
      | |- context [bisect _ _ _ _ _ n ?l ?h] => specialize (IH l h)
      end; lia.
Qed.

(** [findTauForLabTime] never throws; it returns [0], or a proper time
    within [1e-4] of the target, or one not further than [100] from it;
    and it evaluates the position at most 101 times. *)
Lemma findTauForLabTime_returns :
  exists r,
    result (findTauForLabTime nerdamer_text mathEval_number toString positionExpr target_t) = Some r
    /\ acceptable r
    /\ (List.length
          (calls (findTauForLabTime nerdamer_text mathEval_number toString positionExpr target_t))
        <= 8 * 101)%nat.
Proof.
  unfold findTauForLabTime.
  destruct (bisect_returns 100 (- lit 1000 0) (lit 1000 0)) as [r [Hr Ha]].
  exists r. split; [ exact Hr | split; [ exact Ha | ] ].
  apply (bisect_calls 100).
Qed.

Abbreviation bracket_ := (bracket nerdamer_text mathEval_number toString positionExpr target_t).
Abbreviation midpoint_ := (midpoint nerdamer_text mathEval_number toString positionExpr target_t).
Abbreviation residual_ := (residual nerdamer_text mathEval_number toString positionExpr target_t).
Abbreviation returns_at_ :=
  (returns_at nerdamer_text mathEval_number toString positionExpr target_t).
Abbreviation returned_at_ :=
  (returned_at nerdamer_text mathEval_number toString positionExpr target_t).
Abbreviation exhausted_ := (exhausted nerdamer_text mathEval_number toString positionExpr target_t).
Abbreviation bisection_ := (bisection nerdamer_text mathEval_number toString positionExpr target_t).

(** One iteration of the loop. *)
Lemma bisect_step (n : nat) (low high : T) :
  result (loop (S n) low high)
  = let mid := (low + high) / lit 2 0 in
    if Number_isNaN (time mid) then Some 0
    else if Math_abs (time mid - target_t) <? lit 1 (-4) then Some mid
    else if time mid <? target_t then result (loop n mid high)
    else result (loop n low mid).
Proof.
  cbn [bisect]. cbv zeta. rewrite result_bind.
  destruct (evaluate_returns ((low + high) / lit 2 0)) as [V [-> Ht]].
  rewrite <- Ht.
  destruct (Number_isNaN (time ((low + high) / lit 2 0))); [ reflexivity | ].
  destruct (Math_abs (time ((low + high) / lit 2 0) - target_t) <? lit 1 (-4));
    [ reflexivity | ].
  destruct (time ((low + high) / lit 2 0) <? target_t); reflexivity.
Qed.

Lemma bisect_end (low high : T) :
  result (loop 0 low high)
  = let mid := (low + high) / lit 2 0 in
    Some (if Math_abs (time mid - target_t) >? lit 100 0 then 0 else mid).
Proof.
  cbn [bisect]. cbv zeta. rewrite result_bind.
  destruct (evaluate_returns ((low + high) / lit 2 0)) as [V [-> Ht]].
  rewrite <- Ht.
  destruct (Math_abs (time ((low + high) / lit 2 0) - target_t) >? lit 100 0); reflexivity.
Qed.

(** The loop with [n] iterations left, entered with the bracket of
    iteration [k], returns what the first returning iteration from [k] on
    returns, or the answer on exhaustion after [k + n]. *)
Lemma bisect_from (n : nat) :
  forall k,
    result (loop n (fst (bracket_ k)) (snd (bracket_ k)))
    = Some (match find returns_at_ (seq k n) with
            | Some j => returned_at_ j
            | None => exhausted_ (k + n)
            end).
Proof.
  assert (Hmid : forall k, midpoint_ k = (fst (bracket_ k) + snd (bracket_ k)) / lit 2 0).
  { intros k. unfold midpoint. destruct (bracket_ k); reflexivity. }
  induction n as [ | n IH ]; intros k.
  - rewrite bisect_end. cbv zeta. rewrite <- Hmid, Nat.add_0_r. reflexivity.
  - specialize (IH (S k)). replace (k + S n)%nat with (S k + n)%nat by lia.
    rewrite bisect_step. cbv zeta. rewrite <- Hmid.
    cbn [seq find].
    assert (Hret : returns_at_ k
                   = Number_isNaN (time (midpoint_ k))
                     || (Math_abs (time (midpoint_ k) - target_t) <? lit 1 (-4)))
      by reflexivity.
    assert (Hval : returned_at_ k
                   = if Number_isNaN (time (midpoint_ k)) then 0 else midpoint_ k)
      by reflexivity.
    rewrite Hret. clear Hret.
    destruct (Number_isNaN (time (midpoint_ k))) eqn:E1.
    { cbn [orb]. now rewrite Hval. }
    cbn [orb].
    destruct (Math_abs (time (midpoint_ k) - target_t) <? lit 1 (-4)).
    { now rewrite Hval. }
    rewrite <- IH. cbn [bracket]. fold time. rewrite (Hmid k).
    destruct (bracket_ k) as [low high]. cbn [fst snd].
    destruct (time ((low + high) / lit 2 0) <? target_t); reflexivity.
Qed.

(** C2.  [findTauForLabTime] never throws, and it is the bisection the
    specification describes: from the bracket [[-1000, 1000]], with a
    budget of 100 iterations, it returns at the first iteration whose
    midpoint has a NaN time (then [0]) or a residual [|t(mid) - target|]
    below [1e-4] (then the midpoint); an iteration that does not return
    keeps the half of the bracket above the midpoint if the time there is
    below the target, the half below it otherwise; and if none of the 100
    returns, the answer is [0] when the residual of the final midpoint
    exceeds [100], that midpoint otherwise.  The position is evaluated at
    most 101 times. *)
Theorem findTauForLabTime_bisection :
  result (findTauForLabTime nerdamer_text mathEval_number toString positionExpr target_t)
  = Some (bisection_ 100)
  /\ (forall k, (k < 100)%nat ->
        forallb (fun j => negb (returns_at_ j)) (seq 0 k) = true ->
        returns_at_ k = true ->
        result (findTauForLabTime nerdamer_text mathEval_number toString positionExpr target_t)
        = Some (if Number_isNaN (time (midpoint_ k)) then 0 else midpoint_ k))
  /\ (forallb (fun j => negb (returns_at_ j)) (seq 0 100) = true ->
      result (findTauForLabTime nerdamer_text mathEval_number toString positionExpr target_t)
      = Some (if residual_ 100 >? lit 100 0 then 0 else midpoint_ 100))
  /\ (List.length
        (calls (findTauForLabTime nerdamer_text mathEval_number toString positionExpr target_t))
      <= 8 * 101)%nat
  /\ bracket_ 0 = (- lit 1000 0, lit 1000 0)
  /\ (forall k,
        midpoint_ k = (fst (bracket_ k) + snd (bracket_ k)) / lit 2 0
        /\ residual_ k = Math_abs (time (midpoint_ k) - target_t)
        /\ returns_at_ k
           = Number_isNaN (time (midpoint_ k)) || (residual_ k <? lit 1 (-4))
        /\ bracket_ (S k)
           = (if time (midpoint_ k) <? target_t then (midpoint_ k, snd (bracket_ k))
              else (fst (bracket_ k), midpoint_ k))).
Proof.
  assert (Hmain : result (findTauForLabTime nerdamer_text mathEval_number toString positionExpr
                            target_t) = Some (bisection_ 100)).
  { unfold findTauForLabTime. exact (bisect_from 100 0). }
  assert (Hfind : forall n k, (k < n)%nat ->
            forallb (fun j => negb (returns_at_ j)) (seq 0 k) = true ->
            returns_at_ k = true -> find returns_at_ (seq 0 n) = Some k).
  { intros n k Hk Hno Hyes.
    replace n with (k + (n - k))%nat by lia. rewrite seq_app. cbn [plus].
    assert (Hnone : forall l, forallb (fun j => negb (returns_at_ j)) l = true ->
                      forall l', find returns_at_ (l ++ l') = find returns_at_ l').
    { induction l as [ | a l IHl ]; cbn [forallb find app]; [ reflexivity | ].
      intros Ha l'. apply andb_true_iff in Ha as [Ha Hl].
      destruct (returns_at_ a); [ discriminate | ]. now apply IHl. }
    rewrite (Hnone _ Hno).
    destruct (n - k)%nat as [ | m ] eqn:E; [ lia | ]. cbn [seq find]. now rewrite Hyes. }
  assert (Hnever : forall n,
            forallb (fun j => negb (returns_at_ j)) (seq 0 n) = true ->
            find returns_at_ (seq 0 n) = None).
  { intros n. generalize (seq 0 n). induction l as [ | a l IHl ]; cbn [forallb find];
      [ reflexivity | ].
    intros Ha. apply andb_true_iff in Ha as [Ha Hl].
    destruct (returns_at_ a); [ discriminate | ]. now apply IHl. }
  split; [ exact Hmain | split; [ | split; [ | split; [ | split ] ] ] ].
  - intros k Hk Hno Hyes. rewrite Hmain. unfold bisection. now rewrite (Hfind 100%nat k Hk Hno Hyes).
  - intros Hno. rewrite Hmain. unfold bisection. now rewrite (Hnever 100%nat Hno).
  - unfold findTauForLabTime.
    apply (bisect_calls 100).
  - reflexivity.
  - intros k.
    assert (Hmid : midpoint_ k = (fst (bracket_ k) + snd (bracket_ k)) / lit 2 0).
    { unfold midpoint. destruct (bracket_ k); reflexivity. }
    split; [ exact Hmid | split; [ reflexivity | split; [ reflexivity | ] ] ].
    cbn [bracket]. fold time. rewrite Hmid.
    destruct (bracket_ k) as [low high]. reflexivity.
Qed.

End Locator.

(** In binary64 the time component [findTauForLabTime] reads is never NaN:
    the evaluator has already replaced a NaN by the zero vector. *)
Lemma time_at_not_NaN
    (nerdamer_text : string -> list (string * string) -> option string)
    (mathEval_number : string -> option float) (toString : float -> string)
    (positionExpr : Vector4) (tau : float) :
  Number_isNaN (time_at nerdamer_text mathEval_number toString positionExpr tau) = false.
Proof.
  unfold time_at. rewrite evaluateVectorAtTau_result.
  destruct (component nerdamer_text mathEval_number toString (c0 positionExpr) tau) as [r0|];
  destruct (component nerdamer_text mathEval_number toString (c1 positionExpr) tau) as [r1|];
  destruct (component nerdamer_text mathEval_number toString (c2 positionExpr) tau) as [r2|];
  destruct (component nerdamer_text mathEval_number toString (c3 positionExpr) tau) as [r3|];
  try reflexivity.
  destruct (Vec4_some Number_isNaN (vec4 r0 r1 r2 r3)) eqn:E; [ reflexivity | ].
  unfold Vec4_some in E. cbn [c0 c1 c2 c3] in *.
  destruct (Number_isNaN r0); [ discriminate | reflexivity ].
Qed.

(** Two runs.  On the worldline [(sinh tau, cosh tau, 0, 0)] with the
    target [0] the first midpoint, [0], is returned at once.  On a
    position whose time reads [0] at every midpoint, with the target [5],
    no iteration returns and the bracket closes on [1000], which is
    returned since the residual, [5], does not exceed [100]. *)
Lemma findTauForLabTime_bisection_witness :
  result (findTauForLabTime Scenario.nerdamer_text Scenario.mathEval_number Scenario.toString
            Scenario.hyperbolic (lit 0 0)) = Some (lit 0 0)
  /\ result (findTauForLabTime Scenario.nerdamer_text Scenario.mathEval_number Scenario.toString
               Scenario.nan_time (lit 5 0)) = Some (lit 1000 0).
Proof.
  split.
  - rewrite (proj1 (proj2 (findTauForLabTime_bisection Scenario.nerdamer_text
               Scenario.mathEval_number Scenario.toString Scenario.hyperbolic (lit 0 0)))
               0%nat).
    + vm_compute. reflexivity.
    + lia.
    + reflexivity.
    + vm_compute. reflexivity.
  - rewrite (proj1 (proj2 (proj2 (findTauForLabTime_bisection Scenario.nerdamer_text
               Scenario.mathEval_number Scenario.toString Scenario.nan_time (lit 5 0))))).
    + vm_compute. reflexivity.
    + vm_compute. reflexivity.
Defined.

(** ** The symbolic algebra adapter *)



Section Adapter.

Context {T : Type}.
Variable nerdamer_text : string -> list (string * string) -> option string.
Variable toString : T -> string.

(** Degenerate input: the answer is immediate and the engine is not called. *)
Lemma integrateSymbolic_degenerate (expr : string) (C : T) (variable : string) :
  degenerate expr = true ->
  integrateSymbolic nerdamer_text toString expr C variable = (Some (toString C), []).
Proof. unfold integrateSymbolic. now intros ->. Qed.

Lemma deriveSymbolic_degenerate (expr variable : string) :
  degenerate expr = true ->
  deriveSymbolic nerdamer_text expr variable = (Some "0", []).
Proof. unfold deriveSymbolic. now intros ->. Qed.


End Adapter.




(** ** Constant substitution *)

Lemma prefix_split (a s : string) :
  String.prefix a s = true -> exists rest, s = a ++ rest.
Proof.
  revert s. induction a as [ | c a IH ]; intros s Hp.
  - exists s. reflexivity.
  - destruct s as [ | c' s ]; simpl in Hp; [ discriminate | ].
    destruct (Ascii.ascii_dec c c') as [<- | ]; [ | discriminate ].
    destruct (IH s Hp) as [rest ->]. exists rest. reflexivity.
Qed.

Lemma drop_length_app (a rest : string) : drop (String.length a) (a ++ rest) = rest.
Proof. induction a as [ | c a IH ]; simpl; [ destruct rest | ]; auto. Qed.

Lemma all_word_app (a b : string) : all_word (a ++ b) = all_word a && all_word b.
Proof. induction a as [ | c a IH ]; simpl; [ | rewrite IH, andb_assoc ]; reflexivity. Qed.

Lemma app_empty_r (a : string) : a ++ "" = a.
Proof. induction a as [ | c a IH ]; simpl; [ | rewrite IH ]; reflexivity. Qed.

Lemma last_char_word (name : string) :
  all_word name = true ->
  forall prev, (match prev with Some c => is_word c | None => false end) = true \/ name <> "" ->
  exists l, last_char prev name = Some l /\ is_word l = true.
Proof.
  induction name as [ | c name IH ]; simpl; intros Hw prev Hp.
  - destruct prev as [ p | ]; destruct Hp as [Hp | Hp]; try congruence; eauto.
  - apply andb_true_iff in Hw as [Hc Hw]. apply IH; [ exact Hw | left; exact Hc ].
Qed.

(** Inside a run of word characters nothing matches: the character before
    is a word character, so there is no boundary. *)
Lemma replace_from_inside (name value : string) (s : string) :
  all_word s = true ->
  forall p, is_word p = true -> replace_from name value 0 (Some p) s = s.
Proof.
  induction s as [ | c s IH ]; simpl; intros Hw p Hp; [ reflexivity | ].
  apply andb_true_iff in Hw as [Hc Hw].
  unfold token_at. cbn [first_char]. unfold word_boundary at 1. rewrite Hp, Hc.
  cbn [xorb]. rewrite andb_false_r. cbn [andb].
  f_equal. apply IH; assumption.
Qed.

(** A token that is not the constant's name is left as it is, even when
    the name is a prefix of it. *)
Lemma replace_token_identifier (name value s : string) :
  all_word name = true -> all_word s = true -> s <> name ->
  replace_token name value s = s.
Proof.
  intros Hn Hs Hne. unfold replace_token.
  destruct name as [ | n0 name ]; [ reflexivity | ].
  destruct s as [ | c s ]; [ reflexivity | ].
  cbn [replace_from].
  assert (Hc : is_word c = true) by (simpl in Hs; now apply andb_true_iff in Hs).
  assert (Hs' : all_word s = true) by (simpl in Hs; now apply andb_true_iff in Hs).
  assert (Hno : token_at (String n0 name) None (String c s) = false).
  { unfold token_at.
    destruct (String.prefix (String n0 name) (String c s)) eqn:Hp; [ | reflexivity ].
    destruct (@prefix_split _ _ Hp) as [rest Hrest].
    rewrite Hrest, drop_length_app.
    destruct (@last_char_word _ Hn None) as [l [-> Hl]]; [ right; discriminate | ].
    destruct rest as [ | r rest ].
    - rewrite app_empty_r in Hrest. congruence.
    - assert (Hr : is_word r = true).
      { rewrite Hrest, all_word_app in Hs. apply andb_true_iff in Hs as [_ Hs].
        simpl in Hs. now apply andb_true_iff in Hs. }
      cbn [first_char]. unfold word_boundary at 2. rewrite Hl, Hr.
      cbn [xorb]. apply andb_false_r. }
  rewrite Hno. f_equal. apply replace_from_inside; assumption.
Qed.

Lemma sorted_longest_first :
  map fst sorted = ["hbar"; "phi"; "kb"; "c"; "g"].
Proof. reflexivity. Qed.

Lemma substituteConstants_identifier (s : string) :
  all_word s = true ->
  (forall name value, In (name, value) CONSTANTS -> s <> name) ->
  substituteConstants s = s.
Proof.
  intros Hs Hne. unfold substituteConstants.
  change sorted with [("hbar", "1"); ("phi", "1.6180339887"); ("kb", "1"); ("c", "1");
                      ("g", "9.80665")].
  cbn [fold_left fst snd].
  rewrite (@replace_token_identifier "hbar" "1" s), (@replace_token_identifier "phi" _ s),
    (@replace_token_identifier "kb" _ s), (@replace_token_identifier "c" _ s),
    (@replace_token_identifier "g" _ s);
    solve [ reflexivity | assumption | eapply Hne; simpl; eauto 6 ].
Qed.







(** ** The simulator store *)

Module StoreFacts.

Import Store.

Lemma mapM_result {A B} (f : A -> Eff B) (l : list A) (l' : list B) :
  result (mapM f l) = Some l' -> Forall2 (fun a b => result (f a) = Some b) l l'.
Proof.
  revert l'. induction l as [ | a l IH ]; intros l'; cbn [mapM].
  - intros [= <-]. constructor.
  - rewrite result_bind. destruct (result (f a)) as [b | ] eqn:Eb; [ | discriminate ].
    rewrite result_bind. destruct (result (mapM f l)) as [bs | ]; [ | discriminate ].
    intros [= <-]. constructor; [ exact Eb | apply IH; reflexivity ].
Qed.

Lemma mapM_returns {A B} (f : A -> Eff B) (l : list A) :
  (forall a, exists b, result (f a) = Some b) -> exists l', result (mapM f l) = Some l'.
Proof.
  intros Hf. induction l as [ | a l [bs IH] ]; cbn [mapM].
  - eexists. reflexivity.
  - destruct (Hf a) as [b Hb]. rewrite result_bind, Hb, result_bind, IH.
    eexists. reflexivity.
Qed.

Section StoreFacts.

Context {T : Type} `{Number T}.
Variable nerdamer_text : string -> list (string * string) -> option string.
Variable toString : T -> string.

Abbreviation particle := (@ParticleState T).
Abbreviation state := (@SimulatorState T).
Abbreviation solve_ := (solve nerdamer_text toString).
Abbreviation update1 := (updateParticleInput_1 nerdamer_text toString).
Abbreviation update := (updateParticleInput nerdamer_text toString).
Abbreviation step := (dispatch nerdamer_text toString).

(** What the callback of [updateParticleInput] makes of one particle. *)
Lemma updateParticleInput_1_result (target : string) (inputType : InputType) (input : Vector4)
    (p : particle) :
  result (update1 target inputType input p)
  = Some (if negb (id p =? target) then p
          else match result (solve_ inputType input p) with
               | Some sol =>
                   with_triple (sol_X sol) (sol_U sol) (sol_A sol) (store_input inputType input p)
               | None =>
                   with_triple (positionExpr p) (velocityExpr p) (accelerationExpr p)
                     (store_input inputType input p)
               end).
Proof.
  unfold updateParticleInput_1.
  destruct (negb (id p =? target)); [ reflexivity | ].
  rewrite result_bind, result_try_catch, result_bind.
  destruct (result (solve_ inputType input p)) as [sol | ]; reflexivity.
Qed.

(** C9.  [updateParticleInput] never throws, and for every particle of
    the store: a particle other than the target is unchanged; the target
    particle keeps its [positionExpr], [velocityExpr] and
    [accelerationExpr] exactly as they were when the kinematic solve
    throws, and takes all three from the solution when it returns. *)
Theorem updateParticleInput_all_or_nothing (target : string) (inputType : InputType)
    (input : Vector4) (s : state) :
  exists s',
    result (updateParticleInput nerdamer_text toString target inputType input s) = Some s'
    /\ Forall2 (updated nerdamer_text toString target inputType input)
               (particles s) (particles s').
Proof.
  unfold updateParticleInput. rewrite result_bind.
  destruct (mapM_returns (update1 target inputType input) (particles s)) as [ps Hps].
  { intros p. rewrite updateParticleInput_1_result. eexists. reflexivity. }
  rewrite Hps. eexists. split; [ reflexivity | ].
  cbn [particles set_particles].
  apply mapM_result in Hps.
  induction Hps as [ | p p' l l' Hp _ IH ]; constructor; [ | exact IH ].
  rewrite updateParticleInput_1_result in Hp. injection Hp as <-.
  unfold updated. destruct (id p =? target); cbn [negb]; split; intros; try discriminate.
  - destruct (result (solve_ inputType input p)); reflexivity.
  - reflexivity.
Qed.

(** *** At most one primary input *)

Abbreviation single := (fun p : particle => (primary_inputs p <= 1)%nat).

Lemma createDefaultParticle_single (new_id new_color : string) :
  single (createDefaultParticle new_id new_color).
Proof. cbv. lia. Qed.

Lemma store_input_single (inputType : InputType) (input : Vector4) (p : particle) :
  primary_inputs (store_input inputType input p) = 1%nat.
Proof. destruct inputType; reflexivity. Qed.

Lemma updateParticleInput_1_single (target : string) (inputType : InputType) (input : Vector4)
    (p p' : particle) :
  result (update1 target inputType input p) = Some p' -> single p -> single p'.
Proof.
  rewrite updateParticleInput_1_result. intros [= <-] Hp.
  destruct (negb (id p =? target)); [ exact Hp | ].
  destruct (result (solve_ inputType input p));
    unfold primary_inputs; cbn [with_triple inputPosition inputVelocity inputAcceleration];
    fold (primary_inputs (store_input inputType input p));
    rewrite store_input_single; lia.
Qed.

Lemma updateParticleInitialConditions_1_inputs (target : string) (X0 U0 : option (Vec4 T))
    (p p' : particle) :
  result (updateParticleInitialConditions_1 nerdamer_text toString target X0 U0 p) = Some p' ->
  primary_inputs p' = primary_inputs p.
Proof.
  unfold updateParticleInitialConditions_1.
  destruct (negb (id p =? target)); [ now intros [= <-] | ].
  rewrite result_bind, result_try_catch.
  match goal with
  | |- context [result ?m] => destruct (result m) as [[[X U] A] | ]
  end; cbn [result ret fst]; intros [= <-]; reflexivity.
Qed.

Lemma mapM_preserves {A B} (P : A -> Prop) (Q : B -> Prop) (f : A -> Eff B)
    (l : list A) (l' : list B) :
  (forall a b, result (f a) = Some b -> P a -> Q b) ->
  result (mapM f l) = Some l' -> Forall P l -> Forall Q l'.
Proof.
  intros Hf Hl HP. apply mapM_result in Hl.
  induction Hl as [ | a b l l' Hab _ IH ]; constructor.
  - apply (Hf a b Hab). now inversion HP.
  - apply IH. now inversion HP.
Qed.

Lemma Forall_filter {A} (P : A -> Prop) (f : A -> bool) (l : list A) :
  Forall P l -> Forall P (filter f l).
Proof.
  induction 1 as [ | a l Ha _ IH ]; simpl; [ constructor | ].
  destruct (f a); [ constructor; assumption | assumption ].
Qed.

Lemma Forall_map_same {A} (P : A -> Prop) (f : A -> A) (l : list A) :
  (forall a, P a -> P (f a)) -> Forall P l -> Forall P (map f l).
Proof.
  intros Hf. induction 1 as [ | a l Ha _ IH ]; simpl; constructor; auto.
Qed.

(** Every action keeps the invariant. *)
Lemma dispatch_single (a : Action) (s s' : state) :
  result (step a s) = Some s' ->
  Forall single (particles s) -> Forall single (particles s').
Proof.
  destruct a; cbn [dispatch];
    try (intros [= <-]; cbn [particles set_particles]; intros Hs; exact Hs).
  - intros [= <-] Hs. cbn [particles set_particles].
    apply Forall_app. split; [ exact Hs | ].
    constructor; [ apply createDefaultParticle_single | constructor ].
  - intros [= <-] Hs. cbn [particles]. now apply Forall_filter.
  - intros [= <-] Hs. cbn [particles set_particles].
    apply Forall_map_same; [ | exact Hs ].
    intros p Hp. unfold rename. destruct (id p =? target); exact Hp.
  - intros [= <-] Hs. cbn [particles set_particles].
    apply Forall_map_same; [ | exact Hs ].
    intros p Hp. unfold recolor. destruct (id p =? target); exact Hp.
  - unfold updateParticleInput. rewrite result_bind.
    destruct (result (mapM _ (particles s))) as [ps | ] eqn:Hps; [ | discriminate ].
    intros [= <-] Hs. cbn [particles set_particles].
    eapply mapM_preserves; [ | exact Hps | exact Hs ].
    intros p p'. apply updateParticleInput_1_single.
  - unfold updateParticleInitialConditions. rewrite result_bind.
    destruct (result (mapM _ (particles s))) as [ps | ] eqn:Hps; [ | discriminate ].
    intros [= <-] Hs. cbn [particles set_particles].
    eapply mapM_preserves; [ | exact Hps | exact Hs ].
    intros p p' Hp Hsingle.
    cbv beta in *. rewrite (updateParticleInitialConditions_1_inputs _ _ _ _ Hp). exact Hsingle.
Qed.

Lemma reachable_single (s : state) :
  reachable nerdamer_text toString s -> Forall single (particles s).
Proof.
  induction 1 as [ new_id new_color | s a s' _ IH Hstep ].
  - constructor; [ apply createDefaultParticle_single | constructor ].
  - exact (dispatch_single a s Hstep IH).
Qed.

(** The three primary input fields of a particle. *)
Abbreviation inputs :=
  (fun p : particle => (inputPosition p, inputVelocity p, inputAcceleration p)).

(** What [updateParticleInput] leaves in the three fields. *)
Lemma updateParticleInput_inputs (target : string) (inputType : InputType) (input : Vector4)
    (s : state) :
  exists s',
    result (update target inputType input s) = Some s'
    /\ Forall2 (fun p p' =>
                  ((id p =? target) = false -> p' = p)
                  /\ ((id p =? target) = true ->
                      inputs p'
                      = (match inputType with position => Some input | _ => None end,
                         match inputType with velocity => Some input | _ => None end,
                         match inputType with acceleration => Some input | _ => None end)))
               (particles s) (particles s').
Proof.
  unfold updateParticleInput. rewrite result_bind.
  destruct (mapM_returns (update1 target inputType input) (particles s)) as [ps Hps].
  { intros p. rewrite updateParticleInput_1_result. eexists. reflexivity. }
  rewrite Hps. eexists. split; [ reflexivity | ].
  cbn [particles set_particles].
  apply mapM_result in Hps.
  induction Hps as [ | p p' l l' Hp _ IH ]; constructor; [ | exact IH ].
  rewrite updateParticleInput_1_result in Hp. injection Hp as <-.
  destruct (id p =? target); cbn [negb]; split; intros; try discriminate.
  - destruct (result (solve_ inputType input p)); reflexivity.
  - reflexivity.
Qed.

Lemma mapM_from {A B} (Q : A -> B -> Prop) (f : A -> Eff B) (l : list A) (l' : list B) :
  (forall a b, result (f a) = Some b -> Q a b) ->
  result (mapM f l) = Some l' ->
  Forall (fun b => exists a, In a l /\ Q a b) l'.
Proof.
  intros Hf Hl. apply mapM_result in Hl.
  induction Hl as [ | a b l l' Hab _ IH ]; constructor.
  - exists a. split; [ now left | now apply Hf ].
  - eapply Forall_impl; [ | exact IH ].
    intros b' [a' [Ha' HQ]]. exists a'. split; [ now right | exact HQ ].
Qed.

(** Any other action leaves every particle with the fields of a particle
    that was there before, or adds a default particle. *)
Lemma dispatch_inputs (a : Action) (s s' : state) :
  result (step a s) = Some s' ->
  (forall target inputType input, a <> updateParticleInputA target inputType input) ->
  Forall (fun p' =>
            (exists p, In p (particles s) /\ id p' = id p /\ inputs p' = inputs p)
            \/ exists new_id new_color, p' = createDefaultParticle new_id new_color)
         (particles s').
Proof.
  assert (Hsame : forall l : list particle,
            Forall (fun p' =>
                      (exists p, In p l /\ id p' = id p /\ inputs p' = inputs p)
                      \/ exists new_id new_color, p' = createDefaultParticle new_id new_color) l).
  { intros l. apply Forall_forall. intros p Hp. left. exists p. auto. }
  destruct a; cbn [dispatch];
    try (intros [= <-] _; cbn [particles set_particles]; apply Hsame).
  - intros [= <-] _. cbn [particles set_particles]. apply Forall_app. split.
    + apply Hsame.
    + constructor; [ | constructor ]. right. eauto.
  - intros [= <-] _. cbn [particles]. apply Forall_forall. intros p Hp.
    apply filter_In in Hp as [Hp _]. left. exists p. auto.
  - intros [= <-] _. cbn [particles set_particles]. apply Forall_forall. intros p' Hp'.
    apply in_map_iff in Hp' as [p [<- Hp]]. left. exists p. split; [ exact Hp | ].
    unfold rename. destruct (id p =? target); split; reflexivity.
  - intros [= <-] _. cbn [particles set_particles]. apply Forall_forall. intros p' Hp'.
    apply in_map_iff in Hp' as [p [<- Hp]]. left. exists p. split; [ exact Hp | ].
    unfold recolor. destruct (id p =? target); split; reflexivity.
  - intros _ Hne. exfalso. exact (Hne _ _ _ eq_refl).
  - unfold updateParticleInitialConditions. rewrite result_bind.
    destruct (result (mapM _ (particles s))) as [ps | ] eqn:Hps; [ | discriminate ].
    intros [= <-] _. cbn [particles set_particles].
    assert (Hone : forall p p' : particle,
              result (updateParticleInitialConditions_1 nerdamer_text toString target X0 U0 p)
              = Some p' ->
              id p' = id p /\ inputs p' = inputs p).
    { intros p p'. unfold updateParticleInitialConditions_1.
      destruct (negb (id p =? target)); [ intros [= <-]; split; reflexivity | ].
      rewrite result_bind, result_try_catch.
      match goal with
      | |- context [result ?m] => destruct (result m) as [[[X U] A] | ]
      end; cbn [result ret fst]; intros [= <-]; split; reflexivity. }
    eapply Forall_impl;
      [ | exact (mapM_from (fun p p' : particle => id p' = id p /\ inputs p' = inputs p) _ _
                   Hone Hps) ].
    intros p' [p [Hin HQ]]. left. exists p. split; [ exact Hin | exact HQ ].
Qed.

(** C10.  In every reachable state of the store each particle has at most
    one of [inputPosition], [inputVelocity], [inputAcceleration].  The
    action [updateParticleInput] never throws; it leaves every particle
    other than the target as it was, and on the target particle the
    field of the given kind, holding the input, and neither of the other
    two.  Any other action leaves each particle with the three fields of
    a particle of the same id that was in the store before, or, for
    [addParticle], adds a default particle, which has [inputPosition]
    alone. *)
Theorem single_primary_input :
  (forall s : state,
     reachable nerdamer_text toString s ->
     Forall (fun p => (primary_inputs p <= 1)%nat) (particles s))
  /\ (forall target inputType input (s : state),
        exists s',
          result (step (updateParticleInputA target inputType input) s) = Some s'
          /\ Forall2 (fun p p' =>
                        ((id p =? target) = false -> p' = p)
                        /\ ((id p =? target) = true ->
                            inputPosition p'
                            = match inputType with position => Some input | _ => None end
                            /\ inputVelocity p'
                               = match inputType with velocity => Some input | _ => None end
                            /\ inputAcceleration p'
                               = match inputType with
                                 | acceleration => Some input
                                 | _ => None
                                 end))
                     (particles s) (particles s'))
  /\ (forall (a : Action) (s s' : state),
        result (step a s) = Some s' ->
        (forall target inputType input, a <> updateParticleInputA target inputType input) ->
        Forall (fun p' =>
                  (exists p, In p (particles s) /\ id p' = id p
                             /\ inputPosition p' = inputPosition p
                             /\ inputVelocity p' = inputVelocity p
                             /\ inputAcceleration p' = inputAcceleration p)
                  \/ (exists new_id new_color, p' = createDefaultParticle new_id new_color)
                     /\ inputPosition p' = Some (vec4 "tau" "0" "0" "0")
                     /\ inputVelocity p' = None /\ inputAcceleration p' = None)
               (particles s')).
Proof.
  split; [ | split ].
  - apply reachable_single.
  - intros target inputType input s. cbn [dispatch].
    destruct (updateParticleInput_inputs target inputType input s) as [s' [Hs HF]].
    exists s'. split; [ exact Hs | ].
    eapply Forall2_impl; [ | exact HF ].
    intros p p' [Hother Htarget]. split; [ exact Hother | ].
    intros Hid. specialize (Htarget Hid). injection Htarget as -> -> ->. repeat split.
  - intros a s s' Hstep Hne.
    eapply Forall_impl; [ | exact (@dispatch_inputs a s s' Hstep Hne) ].
    intros p' [[p (Hin & Hid & Hinp)] | [new_id [new_color ->]]].
    + left. exists p. injection Hinp as -> -> ->. repeat split; assumption.
    + right. split; [ eauto | repeat split ].
Qed.

End StoreFacts.

End StoreFacts.

(** A malformed position makes the solver throw; the particle keeps its
    derived triple (and has [inputPosition] set to the malformed input). *)
Lemma updateParticleInput_all_or_nothing_witness :
  exists s',
    result Scenario.after_malformed = Some s'
    /\ result (Store.solve Scenario.nerdamer_text Scenario.toString position Scenario.malformed
                 (Store.createDefaultParticle "p1" "#ef4444")) = None
    /\ map Store.triple (Store.particles s')
       = [(vec4 "tau" "0" "0" "0", vec4 "1" "0" "0" "0", vec4 "0" "0" "0" "0")]
    /\ map Store.inputPosition (Store.particles s') = [Some Scenario.malformed].
Proof.
  destruct (StoreFacts.updateParticleInput_all_or_nothing Scenario.nerdamer_text
              Scenario.toString "p1" position Scenario.malformed Scenario.fresh)
    as [s' [Hs HF]].
  exists s'. split; [ exact Hs | ].
  vm_compute in Hs. injection Hs as <-.
  vm_compute. repeat split.
Defined.

(** Switching the default particle, which is given by its position, to a
    velocity: the store holds the velocity input and no position input,
    and the state is reachable, with one primary input. *)
Lemma single_primary_input_witness :
  exists s',
    result (Store.dispatch Scenario.nerdamer_text Scenario.toString
              (Store.updateParticleInputA "p1" velocity (vec4 "1" "0" "0" "0")) Scenario.fresh)
    = Some s'
    /\ map Store.inputPosition (Store.particles Scenario.fresh)
       = [Some (vec4 "tau" "0" "0" "0")]
    /\ map Store.inputPosition (Store.particles s') = [None]
    /\ map Store.inputVelocity (Store.particles s') = [Some (vec4 "1" "0" "0" "0")]
    /\ map Store.inputAcceleration (Store.particles s') = [None]
    /\ Forall (fun p => (Store.primary_inputs p <= 1)%nat) (Store.particles s').
Proof.
  destruct (proj1 (proj2 (StoreFacts.single_primary_input Scenario.nerdamer_text
                            Scenario.toString))
              "p1" velocity (vec4 "1" "0" "0" "0") Scenario.fresh) as [s' [Hs HF]].
  assert (Hone : Forall (fun p => (Store.primary_inputs p <= 1)%nat) (Store.particles s')).
  { apply (proj1 (StoreFacts.single_primary_input Scenario.nerdamer_text Scenario.toString)).
    eapply Store.reachable_dispatch;
      [ apply (Store.reachable_initial _ _ "p1" "#ef4444") | exact Hs ]. }
  exists s'. split; [ exact Hs | ]. split; [ reflexivity | ].
  revert HF Hone. generalize (Store.particles s'). intros ps' HF Hone.
  inversion HF as [ | p p' l l' [_ Hp] Hl Ep Ep' ]. inversion Hl as [ El El' | ].
  destruct (Hp eq_refl) as (H1 & H2 & H3).
  cbn [map]. rewrite H1, H2, H3. repeat split. rewrite El', Ep'. exact Hone.
Defined.

(** * Further properties of the code *)

(** ** Boosts in exact arithmetic *)

Module BoostFacts.

Import ExactFacts.
Local Open Scope R_scope.

Lemma speedSquared_nonneg (v : Vec3 R) : 0 <= speedSquared v.
Proof. rewrite speedSquared_eq. nra. Qed.

(** In exact arithmetic the Lorentz factor [calculateGamma] returns
    for a velocity with [|v|^2 < 1] is at least [1], is [1] exactly when
    the velocity is zero, and satisfies [gamma^2 (1 - |v|^2) = 1]. *)
Lemma calculateGamma_exact (v : Vec3 R) :
  speedSquared v < 1 ->
  1 <= calculateGamma v
  /\ (calculateGamma v = 1 <-> speedSquared v = 0)
  /\ calculateGamma v * calculateGamma v * (1 - speedSquared v) = 1.
Proof.
  intros Hv. destruct (calculateGamma_sq Hv) as [Hg Hpos].
  pose proof (speedSquared_nonneg v) as H0.
  split; [ | split ].
  - nra.
  - split; intros E.
    + rewrite E in Hg. lra.
    + rewrite E in Hg. nra.
  - exact Hg.
Qed.

Lemma applyLorentzTransformation_rows (L : Matrix R) (V : Vec4 R) :
  applyLorentzTransformation L V =
    vec4 (entry L I0 I0 * c0 V + entry L I0 I1 * c1 V + entry L I0 I2 * c2 V + entry L I0 I3 * c3 V)
         (entry L I1 I0 * c0 V + entry L I1 I1 * c1 V + entry L I1 I2 * c2 V + entry L I1 I3 * c3 V)
         (entry L I2 I0 * c0 V + entry L I2 I1 * c1 V + entry L I2 I2 * c2 V + entry L I2 I3 * c3 V)
         (entry L I3 I0 * c0 V + entry L I3 I1 * c1 V + entry L I3 I2 * c2 V + entry L I3 I3 * c3 V).
Proof.
  unfold applyLorentzTransformation, tabulate4.
  cbn [fold_left range4 get4]. exact_ops.
  f_equal; ring.
Qed.

Lemma multiply_entries (A B : Matrix R) (i j : Ix4) :
  entry (multiply A B) i j =
    entry A i I0 * entry B I0 j + entry A i I1 * entry B I1 j
    + entry A i I2 * entry B I2 j + entry A i I3 * entry B I3 j.
Proof.
  unfold multiply, tabulate4.
  destruct i, j; unfold entry at 1; cbn [fold_left range4 get4 c0 c1 c2 c3]; exact_ops; ring.
Qed.

Lemma applyLorentzTransformation_multiply (A B : Matrix R) (V : Vec4 R) :
  applyLorentzTransformation A (applyLorentzTransformation B V)
  = applyLorentzTransformation (multiply A B) V.
Proof.
  rewrite !(applyLorentzTransformation_rows A), (applyLorentzTransformation_rows (multiply A B)).
  rewrite !multiply_entries.
  rewrite (applyLorentzTransformation_rows B). cbn [c0 c1 c2 c3].
  f_equal; ring.
Qed.

Lemma applyLorentzTransformation_identity (V : Vec4 R) :
  applyLorentzTransformation identity4 V = V.
Proof.
  rewrite applyLorentzTransformation_rows. destruct V as [t x y z].
  unfold identity4, entry. cbn [get4 c0 c1 c2 c3]. exact_ops. f_equal; ring.
Qed.

Lemma negate3_involutive (v : Vec3 R) : negate3 (negate3 v) = v.
Proof.
  destruct v as [a b c]. unfold negate3. cbn [d0 d1 d2]. exact_ops.
  f_equal; ring.
Qed.

(** In exact arithmetic [applyLorentzTransformation] composes as the
    matrix product does, and for a velocity with [|v|^2 < 1] boosting an
    event by [v] and then by [-v] (or the other way round) returns the
    event. *)
Lemma there_and_back_exact (v : Vec3 R) :
  speedSquared v < 1 ->
  (forall (A B : Matrix R) (X : Vec4 R),
     applyLorentzTransformation A (applyLorentzTransformation B X)
     = applyLorentzTransformation (multiply A B) X)
  /\ (forall X : Vec4 R,
        applyLorentzTransformation (getLorentzBoostMatrix (negate3 v))
          (applyLorentzTransformation (getLorentzBoostMatrix v) X) = X)
  /\ (forall X : Vec4 R,
        applyLorentzTransformation (getLorentzBoostMatrix v)
          (applyLorentzTransformation (getLorentzBoostMatrix (negate3 v)) X) = X).
Proof.
  intros Hv. split; [ | split ].
  - apply applyLorentzTransformation_multiply.
  - intros X. rewrite applyLorentzTransformation_multiply.
    rewrite <- (negate3_involutive v) at 2.
    rewrite boost_inverse_exact by (rewrite speedSquared_negate3; exact Hv).
    apply applyLorentzTransformation_identity.
  - intros X. rewrite applyLorentzTransformation_multiply.
    rewrite boost_inverse_exact by exact Hv.
    apply applyLorentzTransformation_identity.
Qed.

Lemma applyLorentzTransformation_zero (L : Matrix R) :
  applyLorentzTransformation L zero4 = zero4.
Proof.
  rewrite applyLorentzTransformation_rows. unfold zero4. cbn [c0 c1 c2 c3].
  exact_ops. f_equal; ring.
Qed.

Lemma magnitudeSquared_interval (V : Vec4 R) :
  calculateIntervalSquared zero4 V = magnitudeSquared V.
Proof.
  destruct V as [t x y z].
  unfold calculateIntervalSquared, magnitudeSquared, Math_pow2, zero4.
  cbn [c0 c1 c2 c3]. exact_ops. ring.
Qed.

Lemma boost_preserves_magnitude (v : Vec3 R) (V : Vec4 R) :
  speedSquared v < 1 ->
  magnitudeSquared (applyLorentzTransformation (getLorentzBoostMatrix v) V) = magnitudeSquared V.
Proof.
  intros Hv. rewrite <- !magnitudeSquared_interval.
  rewrite <- (applyLorentzTransformation_zero (getLorentzBoostMatrix v)) at 1.
  apply interval_invariant_exact, Hv.
Qed.

Lemma magnitudeSquared_eq (V : Vec4 R) :
  magnitudeSquared V = - (c0 V * c0 V) + c1 V * c1 V + c2 V * c2 V + c3 V * c3 V.
Proof. reflexivity. Qed.

(** A sub-luminal boost keeps the time component of a future-directed
    timelike or null vector positive. *)
Lemma boost_orthochronous (v : Vec3 R) (V : Vec4 R) :
  speedSquared v < 1 -> 0 < c0 V -> magnitudeSquared V <= 0 ->
  0 < c0 (applyLorentzTransformation (getLorentzBoostMatrix v) V).
Proof.
  intros Hv Ht Hm.
  destruct (Rlt_dec (speedSquared v) (1 / 10000000000)) as [Hs | Hs].
  - rewrite getLorentzBoostMatrix_small by exact Hs.
    now rewrite applyLorentzTransformation_identity.
  - assert (Hs' : 1 / 10000000000 <= speedSquared v) by lra.
    rewrite getLorentzBoostMatrix_entries by exact Hs'.
    destruct (calculateGamma_sq Hv) as [_ Hpos].
    rewrite magnitudeSquared_eq in Hm. rewrite speedSquared_eq in Hv.
    destruct v as [a b c], V as [t x y z].
    cbn [c0 c1 c2 c3 d0 d1 d2] in *.
    set (g := calculateGamma (vec3 a b c)) in *. clearbody g.
    rewrite applyLorentzTransformation_rows. unfold entry. cbn [get4 c0 c1 c2 c3].
    replace (g * t + - g * a * x + - g * b * y + - g * c * z)
      with (g * (t - (a * x + b * y + c * z))) by ring.
    apply Rmult_lt_0_compat; [ exact Hpos | ].
    assert (CS : (a * a + b * b + c * c) * (x * x + y * y + z * z)
                 - (a * x + b * y + c * z) * (a * x + b * y + c * z)
                 = (a * y - b * x) * (a * y - b * x) + (a * z - c * x) * (a * z - c * x)
                   + (b * z - c * y) * (b * z - c * y)) by ring.
    destruct (Rlt_dec (a * x + b * y + c * z) t) as [Hp | Hp]; [ lra | exfalso ].
    assert (Hp' : t <= a * x + b * y + c * z) by lra.
    assert (Hpp : t * t <= (a * x + b * y + c * z) * (a * x + b * y + c * z)) by nra.
    assert (S1 : 0 <= (a * y - b * x) * (a * y - b * x)) by exact (Rle_0_sqr _).
    assert (S2 : 0 <= (a * z - c * x) * (a * z - c * x)) by exact (Rle_0_sqr _).
    assert (S3 : 0 <= (b * z - c * y) * (b * z - c * y)) by exact (Rle_0_sqr _).
    assert (Hq0 : 0 <= x * x + y * y + z * z) by nra.
    assert (Hq : (1 - (a * a + b * b + c * c)) * (x * x + y * y + z * z) <= 0) by lra.
    assert (Hq1 : x * x + y * y + z * z <= 0) by nra.
    nra.
Qed.

Lemma validateCausality_valid (U : Vec4 R) :
  isValid (validateCausality U) = true
  <-> 0 <= c0 U /\ Rabs (magnitudeSquared U + 1) <= 1 / 10000
      /\ speedSquared (extract3Velocity U) < 1.
Proof.
  rewrite validateCausality_cases.
  change (@lt R _ (c0 U) (lit 0 0)) with (Exact.ltb (c0 U) 0).
  change (@lt R _ (lit 1 (-4)) ?a) with (Exact.ltb (1 / 10000) a).
  change (@le R _ (lit 1 0) ?a) with (Exact.leb 1 a).
  change (@Math_abs R _) with Rabs. change (@sub R _) with Rminus.
  change (@neg R _) with Ropp. rewrite lit_1.
  replace (magnitudeSquared U - - 1) with (magnitudeSquared U + 1) by ring.
  destruct (Exact.ltb (c0 U) 0) eqn:E1;
    [ apply ltb_true in E1 | apply ltb_false in E1 ];
    (destruct (Exact.ltb (1 / 10000) (Rabs (magnitudeSquared U + 1))) eqn:E2;
     [ apply ltb_true in E2 | apply ltb_false in E2 ]);
    (destruct (Exact.leb 1 (speedSquared (extract3Velocity U))) eqn:E3;
     [ apply leb_true in E3 | apply leb_false in E3 ]);
    cbn [isValid]; split; try discriminate; try (intros (? & ? & ?); lra); intros _; auto.
Qed.

Lemma boost_symmetric (v : Vec3 R) (i j : Ix4) :
  entry (getLorentzBoostMatrix v) i j = entry (getLorentzBoostMatrix v) j i.
Proof.
  destruct (Rlt_dec (speedSquared v) (1 / 10000000000)) as [Hs | Hs].
  - rewrite getLorentzBoostMatrix_small by exact Hs. destruct i, j; reflexivity.
  - rewrite getLorentzBoostMatrix_entries by lra.
    destruct i, j; unfold entry; cbn [get4 c0 c1 c2 c3]; try reflexivity; f_equal; f_equal; ring.
Qed.

Lemma boost_metric (v : Vec3 R) :
  speedSquared v < 1 ->
  multiply (getLorentzBoostMatrix v) (multiply ETA (getLorentzBoostMatrix v)) = ETA.
Proof.
  intros Hv.
  destruct (Rlt_dec (speedSquared v) (1 / 10000000000)) as [Hs | Hs].
  - rewrite !getLorentzBoostMatrix_small by exact Hs.
    unfold multiply, identity4, ETA, tabulate4, entry.
    cbn [fold_left range4 get4 c0 c1 c2 c3]. exact_ops.
    repeat f_equal; ring.
  - assert (Hs' : 1 / 10000000000 <= speedSquared v) by lra.
    rewrite !getLorentzBoostMatrix_entries by exact Hs'.
    destruct (calculateGamma_sq Hv) as [Hg Hpos].
    destruct v as [a b c]. simpl d0 in *; simpl d1 in *; simpl d2 in *.
    set (g := calculateGamma (vec3 a b c)) in *.
    set (v2 := speedSquared (vec3 a b c)) in *.
    assert (Hv2 : v2 = a * a + b * b + c * c) by reflexivity.
    clearbody g v2.
    unfold multiply, ETA, tabulate4, entry.
    cbn [fold_left range4 get4 c0 c1 c2 c3 d0 d1 d2]. exact_ops.
    assert (Hne : v2 <> 0) by lra.
    assert (Hk : g * g * v2 = g * g - 1) by lra.
    repeat f_equal.
    all: try (field_simplify_eq; [ | exact Hne ]).
    all: try nra.
    all: subst v2.
    all: try nra.
    all: match goal with
         | |- ?lhs = 0 =>
             first
               [ replace lhs with (a * b * (a * a + b * b + c * c)
                                   * (g * g * (1 - (a * a + b * b + c * c)) - 1)) by ring
               | replace lhs with (a * c * (a * a + b * b + c * c)
                                   * (g * g * (1 - (a * a + b * b + c * c)) - 1)) by ring
               | replace lhs with (b * c * (a * a + b * b + c * c)
                                   * (g * g * (1 - (a * a + b * b + c * c)) - 1)) by ring ]
         end.
    all: rewrite Hg; ring.
Qed.

End BoostFacts.

Section ExactBoosts.

Local Open Scope R_scope.

(** In exact arithmetic the matrix [getLorentzBoostMatrix v] of a
    velocity with [|v|^2 < 1] is symmetric and preserves the Minkowski
    metric [ETA]: [L . ETA . L = ETA]. *)
Lemma lorentz_exact (v : Vec3 R) :
  speedSquared v < 1 ->
  (forall i j, entry (getLorentzBoostMatrix v) i j = entry (getLorentzBoostMatrix v) j i)
  /\ multiply (getLorentzBoostMatrix v) (multiply ETA (getLorentzBoostMatrix v)) = ETA.
Proof.
  intros Hv. split.
  - intros i j. apply BoostFacts.boost_symmetric.
  - apply BoostFacts.boost_metric, Hv.
Qed.

(** Validity does not depend on the frame (exact arithmetic): if
    [validateCausality] accepts a 4-velocity [U], it accepts the boosted
    [applyLorentzTransformation (getLorentzBoostMatrix v) U] for every
    velocity with [|v|^2 < 1]; the boost keeps [U.U] and keeps the time
    component positive. *)
Lemma validity_exact (v : Vec3 R) (U : Vec4 R) :
  speedSquared v < 1 ->
  isValid (validateCausality U) = true ->
  let U' := applyLorentzTransformation (getLorentzBoostMatrix v) U in
  isValid (validateCausality U') = true
  /\ magnitudeSquared U' = magnitudeSquared U
  /\ 0 < c0 U'.
Proof.
  intros Hv HU U'.
  apply BoostFacts.validateCausality_valid in HU. destruct HU as (Ht & Hn & _).
  apply Rabs_le_both in Hn.
  assert (Hm : magnitudeSquared U' = magnitudeSquared U)
    by (apply BoostFacts.boost_preserves_magnitude, Hv).
  assert (Htime : 0 < c0 U).
  { rewrite BoostFacts.magnitudeSquared_eq in Hn. nra. }
  assert (Ht' : 0 < c0 U').
  { apply BoostFacts.boost_orthochronous; [ exact Hv | exact Htime | lra ]. }
  split; [ | split; assumption ].
  apply BoostFacts.validateCausality_valid.
  assert (Hn' : Rabs (magnitudeSquared U' + 1) <= 1 / 10000).
  { rewrite Hm. unfold Rabs. destruct (Rcase_abs (magnitudeSquared U + 1)); lra. }
  split; [ lra | split; [ exact Hn' | ] ].
  rewrite measured_speed_exact.
  - rewrite !BoostFacts.magnitudeSquared_eq in Hm.
    rewrite BoostFacts.magnitudeSquared_eq in Hn.
    apply Rmult_lt_reg_r with (r := c0 U' * c0 U'); [ nra | ].
    unfold Rdiv. rewrite Rmult_assoc, Rinv_l by nra. nra.
  - change (@lt R _ (c0 U') (lit 0 0)) with (Exact.ltb (c0 U') 0).
    apply ExactFacts.ltb_false. lra.
  - change (@lt R _ (lit 1 (-4)) ?a) with (Exact.ltb (1 / 10000) a).
    apply ExactFacts.ltb_false.
    change (@Math_abs R _) with Rabs. change (@sub R _) with Rminus.
    change (@neg R _) with Ropp. rewrite ExactFacts.lit_1.
    replace (magnitudeSquared U' - - 1) with (magnitudeSquared U' + 1) by ring.
    exact Hn'.
Qed.

(** The boost built from a particle's own 3-velocity takes its
    4-velocity to rest (exact arithmetic): for [U] with [U0 > 0] and
    [U.U = -1] whose 3-velocity [extract3Velocity U] has
    [|v|^2 >= 1e-10], the Lorentz factor of that 3-velocity is [U0] and
    the boost maps [U] to [[1, 0, 0, 0]].  (Below [1e-10] the boost is
    the identity and [U] stays as it is.) *)
Lemma rest_frame_exact (U : Vec4 R) :
  0 < c0 U ->
  magnitudeSquared U = -1 ->
  1 / 10000000000 <= speedSquared (extract3Velocity U) ->
  calculateGamma (extract3Velocity U) = c0 U
  /\ applyLorentzTransformation (getLorentzBoostMatrix (extract3Velocity U)) U = vec4 1 0 0 0.
Proof.
  intros Ht Hm Hs.
  rewrite BoostFacts.magnitudeSquared_eq in Hm.
  assert (Ht1 : 1 <= c0 U) by nra.
  assert (Hv : extract3Velocity U = vec3 (c1 U / c0 U) (c2 U / c0 U) (c3 U / c0 U)).
  { unfold extract3Velocity.
    change (@lt R _ ?a (lit 1 (-10))) with (Exact.ltb a (1 / 10000000000)).
    change (@Math_abs R _) with Rabs.
    destruct (Exact.ltb (Rabs (c0 U)) (1 / 10000000000)) eqn:E; [ | reflexivity ].
    apply ExactFacts.ltb_true in E. rewrite Rabs_pos_eq in E by lra. lra. }
  rewrite Hv in *. clear Hv.
  destruct U as [t x y z]. cbn [c0 c1 c2 c3] in *.
  set (v := vec3 (x / t) (y / t) (z / t)) in *.
  assert (Hs2 : speedSquared v = (x * x + y * y + z * z) / (t * t)).
  { rewrite ExactFacts.speedSquared_eq. unfold v. cbn [d0 d1 d2]. field. lra. }
  assert (Hs3 : speedSquared v = 1 - 1 / (t * t)).
  { rewrite Hs2. replace (x * x + y * y + z * z) with (t * t - 1) by lra. field. lra. }
  assert (Hlt : speedSquared v < 1).
  { rewrite Hs3. assert (0 < 1 / (t * t)) by (apply Rdiv_lt_0_compat; nra). lra. }
  destruct (ExactFacts.calculateGamma_sq Hlt) as [Hg Hpos].
  assert (Hgt : calculateGamma v = t).
  { rewrite Hs3 in Hg.
    assert (Hgg : calculateGamma v * calculateGamma v = t * t).
    { replace (1 - (1 - 1 / (t * t))) with (1 / (t * t)) in Hg by ring.
      apply (f_equal (fun r => r * (t * t))) in Hg.
      replace (calculateGamma v * calculateGamma v * (1 / (t * t)) * (t * t))
        with (calculateGamma v * calculateGamma v) in Hg by (field; lra).
      lra. }
    nra. }
  split; [ exact Hgt | ].
  rewrite ExactFacts.getLorentzBoostMatrix_entries by exact Hs.
  cbv zeta. rewrite Hgt, Hs2.
  rewrite BoostFacts.applyLorentzTransformation_rows.
  unfold entry, v. cbn [get4 c0 c1 c2 c3 d0 d1 d2].
  assert (Hq : x * x + y * y + z * z <> 0).
  { intros E. rewrite Hs2, E in Hs. unfold Rdiv in Hs. rewrite Rmult_0_l in Hs. lra. }
  assert (Hne : t <> 0) by lra.
  replace (x * x + y * y + z * z) with (t * t - 1) in * by lra.
  f_equal.
  1: { field_simplify_eq; [ nra | lra ]. }
  all: field_simplify_eq; [ | split; lra ].
  all: match goal with
       | |- ?lhs = ?rhs =>
           apply Rminus_diag_uniq;
           first
             [ replace (lhs - rhs)
                 with (x * (t - 1) * (- (t * t) + x * x + y * y + z * z - -1)) by ring
             | replace (lhs - rhs)
                 with (y * (t - 1) * (- (t * t) + x * x + y * y + z * z - -1)) by ring
             | replace (lhs - rhs)
                 with (z * (t - 1) * (- (t * t) + x * x + y * y + z * z - -1)) by ring ]
       end.
  all: rewrite Hm; ring.
Qed.

End ExactBoosts.

(** ** Worldline batches *)

Module WorldlineFacts.

Section Generic.

Context {T : Type} `{Number T}.
Variable NaN : T.

Lemma transformed_lengths (coords : Coords) (Lambda : Matrix T) (X_origin : Vec4 T) (tau : T) :
  let out := transformWorldlineCoordinates NaN coords Lambda X_origin tau in
  List.length (ct out) = List.length (ct coords)
  /\ List.length (cx out) = List.length (ct coords)
  /\ List.length (cy out) = List.length (ct coords)
  /\ List.length (cz out) = List.length (ct coords).
Proof.
  unfold transformWorldlineCoordinates. cbn [ct cx cy cz].
  now rewrite !length_map, !length_seq.
Qed.

Lemma transformed_event (coords : Coords) (Lambda : Matrix T) (X_origin : Vec4 T) (tau : T)
    (i : nat) :
  (i < List.length (ct coords))%nat ->
  event_at (transformWorldlineCoordinates NaN coords Lambda X_origin tau) i
  = let V' := transformed_point NaN coords Lambda X_origin i in
    Some (vec4 (c0 V' + tau) (c1 V') (c2 V') (c3 V')).
Proof.
  intros Hi. unfold event_at, transformWorldlineCoordinates. cbn [ct cx cy cz].
  rewrite !nth_error_map, !nth_error_seq.
  apply Nat.ltb_lt in Hi. rewrite Hi. reflexivity.
Qed.

Lemma event_at_point (coords : Coords) (Lambda : Matrix T) (X_origin : Vec4 T) (i : nat)
    (P : Vec4 T) :
  event_at coords i = Some P ->
  (i < List.length (ct coords))%nat
  /\ transformed_point NaN coords Lambda X_origin i
     = applyLorentzTransformation Lambda
         (vec4 (c0 P - c0 X_origin) (c1 P - c1 X_origin) (c2 P - c2 X_origin)
               (c3 P - c3 X_origin)).
Proof.
  unfold event_at, transformed_point, minus_at.
  destruct (nth_error (ct coords) i) as [t | ] eqn:Et; [ | discriminate ].
  destruct (nth_error (cx coords) i) as [x | ]; [ | discriminate ].
  destruct (nth_error (cy coords) i) as [y | ]; [ | discriminate ].
  destruct (nth_error (cz coords) i) as [z | ]; [ | discriminate ].
  intros E. injection E as <-. split; [ | reflexivity ].
  apply nth_error_Some. congruence.
Qed.

Lemma map_seq_nth_error {B} (g : nat -> B) (f : T -> B) (l : list T) (k : nat) :
  (forall i a, nth_error l i = Some a -> g (k + i)%nat = f a) ->
  map g (seq k (List.length l)) = map f l.
Proof.
  revert k. induction l as [ | a l IH ]; intros k Hg; [ reflexivity | ].
  cbn [List.length seq map]. f_equal.
  - rewrite <- (Hg 0%nat a eq_refl). f_equal. lia.
  - apply IH. intros i b Hb. rewrite <- (Hg (S i) b Hb). f_equal. lia.
Qed.

End Generic.

(** Between any two events of a batch, the transformation keeps the
    interval (exact arithmetic). *)
Lemma transformed_interval (NaN : R) (coords : Coords) (v : Vec3 R) (X_origin : Vec4 R) (tau : R)
    (i j : nat) (P Q : Vec4 R) :
  (speedSquared v < 1)%R ->
  event_at coords i = Some P -> event_at coords j = Some Q ->
  exists P' Q',
    event_at (transformWorldlineCoordinates NaN coords (getLorentzBoostMatrix v) X_origin tau) i
    = Some P'
    /\ event_at (transformWorldlineCoordinates NaN coords (getLorentzBoostMatrix v) X_origin tau) j
       = Some Q'
    /\ calculateIntervalSquared P' Q' = calculateIntervalSquared P Q.
Proof.
  intros Hv HP HQ.
  destruct (event_at_point NaN coords (getLorentzBoostMatrix v) X_origin i HP) as [Hi EP].
  destruct (event_at_point NaN coords (getLorentzBoostMatrix v) X_origin j HQ) as [Hj EQ].
  rewrite (transformed_event NaN coords (getLorentzBoostMatrix v) X_origin tau Hi).
  rewrite (transformed_event NaN coords (getLorentzBoostMatrix v) X_origin tau Hj).
  cbv zeta. rewrite EP, EQ. clear EP EQ.
  eexists _, _. split; [ reflexivity | split; [ reflexivity | ] ].
  ExactFacts.exact_ops.
  set (A := (vec4 (c0 P - c0 X_origin) (c1 P - c1 X_origin) (c2 P - c2 X_origin)
                  (c3 P - c3 X_origin))%R).
  set (B := (vec4 (c0 Q - c0 X_origin) (c1 Q - c1 X_origin) (c2 Q - c2 X_origin)
                  (c3 Q - c3 X_origin))%R).
  transitivity (calculateIntervalSquared (applyLorentzTransformation (getLorentzBoostMatrix v) A)
                                         (applyLorentzTransformation (getLorentzBoostMatrix v) B)).
  - unfold calculateIntervalSquared, magnitudeSquared, Math_pow2. cbn [c0 c1 c2 c3].
    ExactFacts.exact_ops. ring.
  - rewrite ExactFacts.interval_invariant_exact by exact Hv.
    unfold A, B, calculateIntervalSquared, magnitudeSquared, Math_pow2. cbn [c0 c1 c2 c3].
    ExactFacts.exact_ops. ring.
Qed.

End WorldlineFacts.

Section ExactWorldlines.

Local Open Scope R_scope.

(** The event of a batch that is the origin [X_origin] of the frame
    lands at [[tau, 0, 0, 0]], whatever the matrix (exact arithmetic): in
    its own comoving frame the frame particle sits at the spatial origin
    at its proper time. *)
Lemma origin_exact
    (NaN : R) (coords : Coords) (Lambda : Matrix R) (X_origin : Vec4 R) (tau : R) (i : nat) :
  event_at coords i = Some X_origin ->
  event_at (transformWorldlineCoordinates NaN coords Lambda X_origin tau) i
  = Some (vec4 tau 0 0 0).
Proof.
  intros HP.
  destruct (WorldlineFacts.event_at_point NaN coords Lambda X_origin i HP) as [Hi EP].
  rewrite (WorldlineFacts.transformed_event NaN coords Lambda X_origin tau Hi).
  cbv zeta. rewrite EP. ExactFacts.exact_ops.
  replace (vec4 (c0 X_origin - c0 X_origin) (c1 X_origin - c1 X_origin)
                (c2 X_origin - c2 X_origin) (c3 X_origin - c3 X_origin))
    with (@zero4 R _).
  - rewrite BoostFacts.applyLorentzTransformation_zero. unfold zero4. cbn [c0 c1 c2 c3].
    ExactFacts.exact_ops. f_equal. f_equal. ring.
  - unfold zero4. ExactFacts.exact_ops. f_equal; ring.
Qed.

(** In the lab frame the transformation changes nothing (exact
    arithmetic): with the matrix [getLorentzBoostMatrix [0,0,0]], the
    origin [[0,0,0,0]] and [tau = 0], a batch whose four arrays have the
    same length is returned as it is. *)
Lemma lab_exact (NaN : R) (coords : Coords) :
  List.length (cx coords) = List.length (ct coords) ->
  List.length (cy coords) = List.length (ct coords) ->
  List.length (cz coords) = List.length (ct coords) ->
  transformWorldlineCoordinates NaN coords (getLorentzBoostMatrix (vec3 0 0 0)%num) zero4 0%num
  = coords.
Proof.
  intros Hx Hy Hz.
  assert (HL : getLorentzBoostMatrix (vec3 0 0 0)%num = @identity4 R _).
  { apply ExactFacts.getLorentzBoostMatrix_small. rewrite ExactFacts.speedSquared_eq.
    cbn [d0 d1 d2]. rewrite ExactFacts.lit_0. lra. }
  rewrite HL.
  assert (Hpt : forall i P, event_at coords i = Some P ->
                  transformed_point NaN coords identity4 zero4 i = P).
  { intros i P HP.
    destruct (WorldlineFacts.event_at_point NaN coords identity4 zero4 i HP) as [_ ->].
    rewrite BoostFacts.applyLorentzTransformation_identity.
    destruct P as [t x y z]. unfold zero4. cbn [c0 c1 c2 c3]. ExactFacts.exact_ops.
    f_equal; ring. }
  assert (Hev : forall i, (i < List.length (ct coords))%nat -> exists P, event_at coords i = Some P).
  { intros i Hi. unfold event_at.
    destruct (nth_error (ct coords) i) eqn:E0;
      [ | apply nth_error_None in E0; lia ].
    destruct (nth_error (cx coords) i) eqn:E1;
      [ | apply nth_error_None in E1; lia ].
    destruct (nth_error (cy coords) i) eqn:E2;
      [ | apply nth_error_None in E2; lia ].
    destruct (nth_error (cz coords) i) eqn:E3;
      [ | apply nth_error_None in E3; lia ].
    eauto. }
  assert (Hget : forall i P, event_at coords i = Some P ->
            nth_error (ct coords) i = Some (c0 P) /\ nth_error (cx coords) i = Some (c1 P)
            /\ nth_error (cy coords) i = Some (c2 P) /\ nth_error (cz coords) i = Some (c3 P)).
  { intros i P. unfold event_at.
    destruct (nth_error (ct coords) i), (nth_error (cx coords) i),
      (nth_error (cy coords) i), (nth_error (cz coords) i); try discriminate.
    intros E. injection E as <-. auto. }
  destruct coords as [lt lx ly lz]. cbn [ct cx cy cz] in *.
  unfold transformWorldlineCoordinates. cbn [ct cx cy cz]. rewrite !map_map.
  f_equal.
  - transitivity (map (fun a : R => a) lt); [ | apply map_id ].
    apply WorldlineFacts.map_seq_nth_error. intros i a Ha. cbn [plus].
    destruct (Hev i) as [P HP]; [ apply nth_error_Some; congruence | ].
    rewrite (Hpt i P HP). destruct (Hget i P HP) as (E & _).
    ExactFacts.exact_ops. rewrite Rplus_0_r. congruence.
  - transitivity (map (fun a : R => a) lx); [ | apply map_id ]. rewrite <- Hx.
    apply WorldlineFacts.map_seq_nth_error. intros i a Ha. cbn [plus].
    destruct (Hev i) as [P HP]; [ rewrite <- Hx; apply nth_error_Some; congruence | ].
    rewrite (Hpt i P HP). destruct (Hget i P HP) as (_ & E & _). congruence.
  - transitivity (map (fun a : R => a) ly); [ | apply map_id ]. rewrite <- Hy.
    apply WorldlineFacts.map_seq_nth_error. intros i a Ha. cbn [plus].
    destruct (Hev i) as [P HP]; [ rewrite <- Hy; apply nth_error_Some; congruence | ].
    rewrite (Hpt i P HP). destruct (Hget i P HP) as (_ & _ & E & _). congruence.
  - transitivity (map (fun a : R => a) lz); [ | apply map_id ]. rewrite <- Hz.
    apply WorldlineFacts.map_seq_nth_error. intros i a Ha. cbn [plus].
    destruct (Hev i) as [P HP]; [ rewrite <- Hz; apply nth_error_Some; congruence | ].
    rewrite (Hpt i P HP). destruct (Hget i P HP) as (_ & _ & _ & E). congruence.
Qed.

End ExactWorldlines.

(** ** Boosts and batches, in exact arithmetic and in binary64 *)

(** In binary64 the boost matrix is symmetric too: the two products of
    velocity components are the same number. *)
Lemma boost_symmetric_binary64 (v : Vec3 float) (i j : Ix4) :
  entry (getLorentzBoostMatrix v) i j = entry (getLorentzBoostMatrix v) j i.
Proof.
  unfold getLorentzBoostMatrix.
  destruct (speedSquared v <? lit 1 (-10)); [ destruct i, j; reflexivity | ].
  destruct i, j; unfold entry, tabulate4; cbn [get4 c0 c1 c2 c3 spatial get3]; try reflexivity.
  all: change (@mul float _) with PrimFloat.mul;
    first [ rewrite (F64Facts.mul_comm (d0 v) (d1 v)); reflexivity
          | rewrite (F64Facts.mul_comm (d0 v) (d2 v)); reflexivity
          | rewrite (F64Facts.mul_comm (d1 v) (d2 v)); reflexivity ].
Qed.

Lemma calculateGamma_NaN (v : Vec3 float) :
  PrimFloat.is_nan (speedSquared v) = true -> PrimFloat.is_nan (calculateGamma v) = true.
Proof.
  intros Hn. unfold calculateGamma. cbv zeta.
  change (@le float _) with PrimFloat.leb.
  rewrite F64Facts.leb_NaN by (rewrite Hn; apply orb_true_r).
  change (@div float _) with PrimFloat.div. change (@sub float _) with PrimFloat.sub.
  change (@Math_sqrt float _) with PrimFloat.sqrt.
  apply F64Facts.div_NaN. apply orb_true_iff. right.
  apply F64Facts.sqrt_NaN. apply F64Facts.sub_NaN. rewrite Hn. apply orb_true_r.
Qed.

(** X2.  The Lorentz factor.  In exact arithmetic, for a velocity with
    [|v|^2 < 1] [calculateGamma] is at least [1], is [1] exactly when the
    velocity is zero, and satisfies [gamma^2 (1 - |v|^2) = 1].  In
    binary64 it is [Infinity] whenever [|v|^2 >= 1] and NaN whenever
    [|v|^2] is NaN, and the exact facts hold up to rounding only: for
    [[0.3, 0.4, 0.5]] the factor is above [1] and
    [gamma^2 (1 - |v|^2)] is within [1e-15] of [1] without being [1];
    for [[1e-9, 0, 0]], which is not zero, the factor is [1]. *)
Theorem calculateGamma_bounds :
  (forall v : Vec3 R,
     (speedSquared v < 1)%R ->
     (1 <= calculateGamma v)%R
     /\ (calculateGamma v = 1%R <-> speedSquared v = 0%R)
     /\ (calculateGamma v * calculateGamma v * (1 - speedSquared v) = 1)%R)
  /\ (forall v : Vec3 float,
        (speedSquared v >=? 1) = true -> calculateGamma v = PrimFloat.infinity)
  /\ (forall v : Vec3 float,
        PrimFloat.is_nan (speedSquared v) = true -> PrimFloat.is_nan (calculateGamma v) = true)
  /\ ((speedSquared Scenario.beta <? 1) = true
      /\ (calculateGamma Scenario.beta >? 1) = true
      /\ (Math_abs (calculateGamma Scenario.beta * calculateGamma Scenario.beta
                    * (1 - speedSquared Scenario.beta) - 1) <=? lit 1 (-15)) = true
      /\ PrimFloat.eqb (calculateGamma Scenario.beta * calculateGamma Scenario.beta
                        * (1 - speedSquared Scenario.beta)) 1 = false)
  /\ ((speedSquared Scenario.slow >? 0) = true
      /\ calculateGamma Scenario.slow = 1).
Proof.
  split; [ | split; [ | split; [ | split ] ] ].
  - intros v Hv. apply BoostFacts.calculateGamma_exact, Hv.
  - intros v Hv. unfold calculateGamma. cbv zeta. now rewrite Hv.
  - apply calculateGamma_NaN.
  - vm_compute. repeat split.
  - vm_compute. repeat split.
Qed.

(** The Lorentz factor at [v = [0.6, 0, 0]] is at least [1]. *)
Lemma calculateGamma_bounds_witness : (1 <= calculateGamma (vec3 (3 / 5) 0 0))%R.
Proof.
  refine (proj1 (proj1 calculateGamma_bounds (vec3 (3 / 5) 0 0)%R _)).
  rewrite ExactFacts.speedSquared_eq. simpl. lra.
Defined.

(** X3.  The boost matrix.  In exact arithmetic the matrix
    [getLorentzBoostMatrix v] of a velocity with [|v|^2 < 1] is symmetric
    and preserves the Minkowski metric [ETA]: [L . ETA . L = ETA].  In
    binary64 the matrix is symmetric for every velocity, and it preserves
    the metric up to rounding only: for [[0.3, 0.4, 0.5]] every entry of
    [L . ETA . L] is within [1e-15] of the entry of [ETA], and the
    time-time entry is not [-1]. *)
Theorem boost_is_lorentz :
  (forall v : Vec3 R,
     (speedSquared v < 1)%R ->
     (forall i j, entry (getLorentzBoostMatrix v) i j = entry (getLorentzBoostMatrix v) j i)
     /\ multiply (getLorentzBoostMatrix v) (multiply ETA (getLorentzBoostMatrix v)) = ETA)
  /\ (forall (v : Vec3 float) (i j : Ix4),
        entry (getLorentzBoostMatrix v) i j = entry (getLorentzBoostMatrix v) j i)
  /\ (Scenario.within (lit 1 (-15)) (Scenario.metric_product Scenario.beta) ETA = true
      /\ PrimFloat.eqb (entry (Scenario.metric_product Scenario.beta) I0 I0) (neg 1) = false).
Proof.
  split; [ | split ].
  - intros v Hv. apply lorentz_exact, Hv.
  - apply boost_symmetric_binary64.
  - vm_compute. split; reflexivity.
Qed.

(** [L(0.6, 0, 0)] preserves the metric. *)
Lemma boost_is_lorentz_witness :
  multiply (getLorentzBoostMatrix (vec3 (3 / 5) 0 0)%R)
           (multiply ETA (getLorentzBoostMatrix (vec3 (3 / 5) 0 0)%R)) = ETA.
Proof.
  refine (proj2 (proj1 boost_is_lorentz (vec3 (3 / 5) 0 0)%R _)).
  rewrite ExactFacts.speedSquared_eq. simpl. lra.
Defined.

(** X4.  There and back.  In exact arithmetic
    [applyLorentzTransformation] composes as the matrix product does, and
    for a velocity with [|v|^2 < 1] boosting an event by [v] and then by
    [-v] (or the other way round) returns the event.  In binary64 the
    event comes back up to rounding only: [[2, 1, 3, 7]] boosted by
    [[0.3, 0.4, 0.5]] and back is within [1e-15] of itself in every
    component, and its x is not [1]. *)
Theorem boost_there_and_back :
  (forall v : Vec3 R,
     (speedSquared v < 1)%R ->
     (forall (A B : Matrix R) (X : Vec4 R),
        applyLorentzTransformation A (applyLorentzTransformation B X)
        = applyLorentzTransformation (multiply A B) X)
     /\ (forall X : Vec4 R,
           applyLorentzTransformation (getLorentzBoostMatrix (negate3 v))
             (applyLorentzTransformation (getLorentzBoostMatrix v) X) = X)
     /\ (forall X : Vec4 R,
           applyLorentzTransformation (getLorentzBoostMatrix v)
             (applyLorentzTransformation (getLorentzBoostMatrix (negate3 v)) X) = X))
  /\ (Scenario.within4 (lit 1 (-15))
        (Scenario.there_and_back Scenario.beta Scenario.event) Scenario.event = true
      /\ PrimFloat.eqb (c1 (Scenario.there_and_back Scenario.beta Scenario.event))
           (c1 Scenario.event) = false).
Proof.
  split.
  - intros v Hv. apply BoostFacts.there_and_back_exact, Hv.
  - vm_compute. split; reflexivity.
Qed.

(** The event [[2, 1, 0, 0]] boosted by [0.6] along x and back. *)
Lemma boost_there_and_back_witness :
  applyLorentzTransformation (getLorentzBoostMatrix (negate3 (vec3 (3 / 5) 0 0)%R))
    (applyLorentzTransformation (getLorentzBoostMatrix (vec3 (3 / 5) 0 0)%R) (vec4 2 1 0 0)%R)
  = (vec4 2 1 0 0)%R.
Proof.
  refine (proj1 (proj2 (proj1 boost_there_and_back (vec3 (3 / 5) 0 0)%R _)) (vec4 2 1 0 0)%R).
  rewrite ExactFacts.speedSquared_eq. simpl. lra.
Defined.

(** X5.  Validity and the frame.  In exact arithmetic validity does not
    depend on the frame: if [validateCausality] accepts a 4-velocity [U],
    it accepts the boosted
    [applyLorentzTransformation (getLorentzBoostMatrix v) U] for every
    velocity with [|v|^2 < 1]; the boost keeps [U.U] and keeps the time
    component positive.  In binary64 this holds for moderate boosts and
    fails close to the speed of light: the 4-velocity of a particle at
    rest, [[1, 0, 0, 0]], stays valid under the boosts of
    [[0.3, 0.4, 0.5]] and of [0.99 / sqrt 3] along each axis, but under
    the boost of [(1 - 1e-13) / sqrt 3] along each axis, a velocity with
    [|v|^2 < 1], it is rejected as not normalized, with [U.U] below
    [-1.0004]. *)
Theorem boost_keeps_validity :
  (forall (v : Vec3 R) (U : Vec4 R),
     (speedSquared v < 1)%R ->
     isValid (validateCausality U) = true ->
     let U' := applyLorentzTransformation (getLorentzBoostMatrix v) U in
     isValid (validateCausality U') = true
     /\ magnitudeSquared U' = magnitudeSquared U
     /\ (0 < c0 U')%R)
  /\ (isValid (validateCausality Scenario.at_rest) = true
      /\ isValid (validateCausality
                    (applyLorentzTransformation (getLorentzBoostMatrix Scenario.beta)
                       Scenario.at_rest)) = true
      /\ isValid (validateCausality
                    (applyLorentzTransformation (getLorentzBoostMatrix Scenario.v_check)
                       Scenario.at_rest)) = true)
  /\ ((speedSquared Scenario.near_light <? 1) = true
      /\ reason (validateCausality
                   (applyLorentzTransformation (getLorentzBoostMatrix Scenario.near_light)
                      Scenario.at_rest)) = Some NotNormalized
      /\ (U_squared (validateCausality
                       (applyLorentzTransformation (getLorentzBoostMatrix Scenario.near_light)
                          Scenario.at_rest)) <? - lit 10004 (-4)) = true).
Proof.
  split; [ | split ].
  - intros v U Hv HU. apply validity_exact; assumption.
  - vm_compute. repeat split.
  - vm_compute. repeat split.
Qed.

(** X6.  The rest frame.  In exact arithmetic the boost built from a
    particle's own 3-velocity takes its 4-velocity to rest: for [U] with
    [U0 > 0] and [U.U = -1] whose 3-velocity [extract3Velocity U] has
    [|v|^2 >= 1e-10], the Lorentz factor of that 3-velocity is [U0] and
    the boost maps [U] to [[1, 0, 0, 0]].  (Below [1e-10] the boost is
    the identity and [U] stays as it is.)  In binary64 this is exact for
    [U = [1.25, 0.75, 0, 0]] and holds up to rounding only for
    [U = [3, 2, 2, 0]], whose [U.U] is [-1]: the Lorentz factor of its
    3-velocity is not [3], and the boost maps it to a vector within
    [1e-15] of [[1, 0, 0, 0]] whose time is not [1]. *)
Theorem boost_to_rest_frame :
  (forall U : Vec4 R,
     (0 < c0 U)%R ->
     magnitudeSquared U = (-1)%R ->
     (1 / 10000000000 <= speedSquared (extract3Velocity U))%R ->
     calculateGamma (extract3Velocity U) = c0 U
     /\ applyLorentzTransformation (getLorentzBoostMatrix (extract3Velocity U)) U
        = (vec4 1 0 0 0)%R)
  /\ (magnitudeSquared Scenario.cruising = neg 1
      /\ calculateGamma (extract3Velocity Scenario.cruising) = c0 Scenario.cruising
      /\ applyLorentzTransformation (getLorentzBoostMatrix (extract3Velocity Scenario.cruising))
           Scenario.cruising = Scenario.at_rest)
  /\ (magnitudeSquared Scenario.diagonal = neg 1
      /\ PrimFloat.eqb (calculateGamma (extract3Velocity Scenario.diagonal))
           (c0 Scenario.diagonal) = false
      /\ Scenario.within4 (lit 1 (-15))
           (applyLorentzTransformation (getLorentzBoostMatrix (extract3Velocity Scenario.diagonal))
              Scenario.diagonal) Scenario.at_rest = true
      /\ PrimFloat.eqb
           (c0 (applyLorentzTransformation
                  (getLorentzBoostMatrix (extract3Velocity Scenario.diagonal))
                  Scenario.diagonal)) 1 = false).
Proof.
  split; [ | split ].
  - intros U Ht Hm Hs. apply rest_frame_exact; assumption.
  - vm_compute. repeat split.
  - vm_compute. repeat split.
Qed.

Lemma origin_binary64 (NaN : float) (coords : Coords) (Lambda : Matrix float)
    (X_origin : Vec4 float) (tau : float) (i : nat) :
  finite4 X_origin = true ->
  finite4 (c0 Lambda) && finite4 (c1 Lambda) && finite4 (c2 Lambda) && finite4 (c3 Lambda)
  = true ->
  event_at coords i = Some X_origin ->
  event_at (transformWorldlineCoordinates NaN coords Lambda X_origin tau) i
  = Some (vec4 (0 + tau) 0 0 0)
  /\ (PrimFloat.is_nan tau = false -> PrimFloat.eqb (0 + tau) tau = true).
Proof.
  assert (Hrow : forall (L : Matrix float) (k : Ix4),
            finite4 (get4 L k) = true ->
            fold_left (fun sum j => sum + entry L k j * get4 (@zero4 float _) j) range4 0
            = lit 0 0).
  { intros L k. unfold finite4, entry. intros Hf.
    apply andb_true_iff in Hf as [Hf H3]. apply andb_true_iff in Hf as [Hf H2].
    apply andb_true_iff in Hf as [H0 H1].
    cbn [fold_left range4 get4]. unfold zero4. cbn [c0 c1 c2 c3].
    change (@add float _) with PrimFloat.add. change (@mul float _) with PrimFloat.mul.
    destruct (F64Facts.mul_zero_r _ H0) as [s0 E0]. rewrite (F64Facts.add_zero_zero _ E0).
    destruct (F64Facts.mul_zero_r _ H1) as [s1 E1]. rewrite (F64Facts.add_zero_zero _ E1).
    destruct (F64Facts.mul_zero_r _ H2) as [s2 E2]. rewrite (F64Facts.add_zero_zero _ E2).
    destruct (F64Facts.mul_zero_r _ H3) as [s3 E3]. rewrite (F64Facts.add_zero_zero _ E3).
    reflexivity. }
  intros HX HL HP. split; [ | apply F64Facts.add_zero_l ].
  destruct (WorldlineFacts.event_at_point NaN coords Lambda X_origin i HP) as [Hi EP].
  rewrite (WorldlineFacts.transformed_event NaN coords Lambda X_origin tau Hi).
  cbv zeta. rewrite EP.
  unfold finite4 in HX.
  apply andb_true_iff in HX as [HX H3]. apply andb_true_iff in HX as [HX H2].
  apply andb_true_iff in HX as [H0 H1].
  change (@sub float _) with PrimFloat.sub.
  rewrite !F64Facts.sub_diag by assumption.
  apply andb_true_iff in HL as [HL L3]. apply andb_true_iff in HL as [HL L2].
  apply andb_true_iff in HL as [L0 L1].
  unfold applyLorentzTransformation, tabulate4. cbn [c0 c1 c2 c3].
  fold (@zero4 float _).
  rewrite (Hrow Lambda I0 L0), (Hrow Lambda I1 L1), (Hrow Lambda I2 L2), (Hrow Lambda I3 L3).
  reflexivity.
Qed.

(** X7.  [transformWorldlineCoordinates] returns four arrays as long as
    [coords.t], whatever the numbers.  In exact arithmetic, with a boost
    of velocity [|v|^2 < 1] it is an isometry: whatever the origin
    [X_origin] and the offset [tau], the interval between any two
    transformed events of the batch is the interval between the two
    events.  In binary64 the interval is kept up to rounding only: for
    the two events of the interval check, boosted by [0.99 / sqrt 3]
    along each axis about the first of them with [tau = 0.5], it moves by
    less than [1e-6]; for the same events a million times further out,
    about the origin, it moves by [0.25]. *)
Theorem transformWorldlineCoordinates_isometry :
  (forall (T : Type) (N : Number T) (NaN : T) (coords : Coords) (Lambda : Matrix T)
          (X_origin : Vec4 T) (tau : T),
     let out := transformWorldlineCoordinates NaN coords Lambda X_origin tau in
     List.length (ct out) = List.length (ct coords)
     /\ List.length (cx out) = List.length (ct coords)
     /\ List.length (cy out) = List.length (ct coords)
     /\ List.length (cz out) = List.length (ct coords))
  /\ (forall (NaN : R) (coords : Coords) (v : Vec3 R) (X_origin : Vec4 R) (tau : R),
        (speedSquared v < 1)%R ->
        let out := transformWorldlineCoordinates NaN coords (getLorentzBoostMatrix v)
                     X_origin tau in
        forall (i j : nat) (P Q : Vec4 R),
          event_at coords i = Some P -> event_at coords j = Some Q ->
          exists P' Q',
            event_at out i = Some P' /\ event_at out j = Some Q'
            /\ calculateIntervalSquared P' Q' = calculateIntervalSquared P Q)
  /\ (option_map (fun d => d <? lit 1 (-6))
        (Scenario.batch_drift Scenario.batch64
           (transformWorldlineCoordinates PrimFloat.nan Scenario.batch64
              (getLorentzBoostMatrix Scenario.v_check) Scenario.X1 (lit 5 (-1))))
      = Some true)
  /\ (Scenario.batch_drift Scenario.far64
        (transformWorldlineCoordinates PrimFloat.nan Scenario.far64
           (getLorentzBoostMatrix Scenario.v_check) zero4 0)
      = Some (lit 25 (-2))).
Proof.
  split; [ | split; [ | split ] ].
  - intros T N NaN coords Lambda X_origin tau. apply WorldlineFacts.transformed_lengths.
  - intros NaN coords v X_origin tau Hv out i j P Q HP HQ.
    now apply WorldlineFacts.transformed_interval.
  - vm_compute. reflexivity.
  - vm_compute. reflexivity.
Qed.

(** X8.  The event of a batch that is the origin [X_origin] of the frame
    lands at [[tau, 0, 0, 0]]: in its own comoving frame the frame
    particle sits at the spatial origin at its proper time.  This holds
    in exact arithmetic whatever the matrix, and in binary64 whenever the
    origin and the matrix are finite: the three space coordinates are
    [0] and the time is [0 + tau], which is [tau] as a number.  With an
    infinite coordinate in the origin the event comes back as NaN. *)
Theorem transformWorldlineCoordinates_origin :
  (forall (NaN : R) (coords : Coords) (Lambda : Matrix R) (X_origin : Vec4 R) (tau : R)
          (i : nat),
     event_at coords i = Some X_origin ->
     event_at (transformWorldlineCoordinates NaN coords Lambda X_origin tau) i
     = Some (vec4 tau 0 0 0)%R)
  /\ (forall (NaN : float) (coords : Coords) (Lambda : Matrix float) (X_origin : Vec4 float)
             (tau : float) (i : nat),
        finite4 X_origin = true ->
        finite4 (c0 Lambda) && finite4 (c1 Lambda) && finite4 (c2 Lambda)
        && finite4 (c3 Lambda) = true ->
        event_at coords i = Some X_origin ->
        event_at (transformWorldlineCoordinates NaN coords Lambda X_origin tau) i
        = Some (vec4 (0 + tau) 0 0 0)
        /\ (PrimFloat.is_nan tau = false -> PrimFloat.eqb (0 + tau) tau = true))
  /\ (event_at Scenario.batch_infinite 0
      = Some (vec4 PrimFloat.infinity (lit 1 0) (lit 0 0) (lit 0 0))
      /\ event_at (transformWorldlineCoordinates PrimFloat.nan Scenario.batch_infinite
                     (getLorentzBoostMatrix Scenario.beta)
                     (vec4 PrimFloat.infinity (lit 1 0) (lit 0 0) (lit 0 0)) 0) 0
         = Some (vec4 PrimFloat.nan PrimFloat.nan PrimFloat.nan PrimFloat.nan)).
Proof.
  split; [ | split ].
  - intros NaN coords Lambda X_origin tau i. apply origin_exact.
  - intros NaN coords Lambda X_origin tau i. apply origin_binary64.
  - vm_compute. split; reflexivity.
Qed.

(** The identity matrix, applied in binary64 to a finite vector, gives
    each component [a] back as [0 + a]. *)
Lemma identity_row (V : Vec4 float) :
  finite4 V = true ->
  applyLorentzTransformation identity4 V = vec4 (PrimFloat.add (lit 0 0) (c0 V)) (PrimFloat.add (lit 0 0) (c1 V)) (PrimFloat.add (lit 0 0) (c2 V)) (PrimFloat.add (lit 0 0) (c3 V)).
Proof.
  unfold finite4. intros Hf.
  apply andb_true_iff in Hf as [Hf H3]. apply andb_true_iff in Hf as [Hf H2].
  apply andb_true_iff in Hf as [H0 H1].
  unfold applyLorentzTransformation, tabulate4, identity4, entry.
  cbn [fold_left range4 get4 c0 c1 c2 c3].
  change (@add float _) with PrimFloat.add. change (@mul float _) with PrimFloat.mul.
  rewrite !F64Facts.mul_one_l by assumption.
  destruct (F64Facts.mul_zero_l _ H0) as [s0 E0].
  destruct (F64Facts.mul_zero_l _ H1) as [s1 E1].
  destruct (F64Facts.mul_zero_l _ H2) as [s2 E2].
  destruct (F64Facts.mul_zero_l _ H3) as [s3 E3].
  f_equal.
  - rewrite (@F64Facts.add_zero_keeps _ _ _ H0 E1), (@F64Facts.add_zero_keeps _ _ _ H0 E2),
      (@F64Facts.add_zero_keeps _ _ _ H0 E3). reflexivity.
  - rewrite (@F64Facts.add_zero_zero _ _ E0).
    rewrite (@F64Facts.add_zero_keeps _ _ _ H1 E2), (@F64Facts.add_zero_keeps _ _ _ H1 E3). reflexivity.
  - rewrite (@F64Facts.add_zero_zero _ _ E0), (@F64Facts.add_zero_zero _ _ E1).
    rewrite (@F64Facts.add_zero_keeps _ _ _ H2 E3). reflexivity.
  - rewrite (@F64Facts.add_zero_zero _ _ E0), (@F64Facts.add_zero_zero _ _ E1),
      (@F64Facts.add_zero_zero _ _ E2). reflexivity.
Qed.


Lemma lab_binary64 (NaN : float) (coords : Coords) :
  List.length (cx coords) = List.length (ct coords) ->
  List.length (cy coords) = List.length (ct coords) ->
  List.length (cz coords) = List.length (ct coords) ->
  finite_batch coords = true ->
  transformWorldlineCoordinates NaN coords (getLorentzBoostMatrix (vec3 0 0 0)) zero4 0
  = {| ct := map (fun a => 0 + a) (ct coords); cx := map (fun a => 0 + a) (cx coords);
       cy := map (fun a => 0 + a) (cy coords); cz := map (fun a => 0 + a) (cz coords) |}.
Proof.
  intros Hx Hy Hz Hfin.
  assert (HL : getLorentzBoostMatrix (vec3 0 0 0) = @identity4 float _)
    by (vm_compute; reflexivity).
  rewrite HL.
  unfold finite_batch in Hfin.
  apply andb_true_iff in Hfin as [Hfin F3]. apply andb_true_iff in Hfin as [Hfin F2].
  apply andb_true_iff in Hfin as [F0 F1].
  assert (Hnth : forall (l : list float) i a,
            forallb PrimFloat.is_finite l = true -> nth_error l i = Some a ->
            PrimFloat.is_finite a = true).
  { intros l i a Hl Ha. apply (proj1 (forallb_forall _ l) Hl). eapply nth_error_In; eauto. }
  assert (Hget : forall i P, event_at coords i = Some P ->
            nth_error (ct coords) i = Some (c0 P) /\ nth_error (cx coords) i = Some (c1 P)
            /\ nth_error (cy coords) i = Some (c2 P) /\ nth_error (cz coords) i = Some (c3 P)).
  { intros i P. unfold event_at.
    destruct (nth_error (ct coords) i), (nth_error (cx coords) i),
      (nth_error (cy coords) i), (nth_error (cz coords) i); try discriminate.
    intros E. injection E as <-. auto. }
  assert (Hpt : forall i P, event_at coords i = Some P ->
                  transformed_point NaN coords identity4 zero4 i
                  = vec4 (PrimFloat.add (lit 0 0) (c0 P)) (PrimFloat.add (lit 0 0) (c1 P)) (PrimFloat.add (lit 0 0) (c2 P)) (PrimFloat.add (lit 0 0) (c3 P))).
  { intros i P HP.
    destruct (WorldlineFacts.event_at_point NaN coords identity4 zero4 i HP) as [_ ->].
    destruct (Hget i P HP) as (E0 & E1 & E2 & E3).
    unfold zero4. cbn [c0 c1 c2 c3]. change (@sub float _) with PrimFloat.sub.
    rewrite !F64Facts.sub_zero_r.
    rewrite identity_row; [ reflexivity | ].
    unfold finite4. cbn [c0 c1 c2 c3].
    rewrite (Hnth _ _ _ F0 E0), (Hnth _ _ _ F1 E1), (Hnth _ _ _ F2 E2), (Hnth _ _ _ F3 E3).
    reflexivity. }
  assert (Hev : forall i, (i < List.length (ct coords))%nat -> exists P, event_at coords i = Some P).
  { intros i Hi. unfold event_at.
    destruct (nth_error (ct coords) i) eqn:E0;
      [ | apply nth_error_None in E0; lia ].
    destruct (nth_error (cx coords) i) eqn:E1;
      [ | apply nth_error_None in E1; lia ].
    destruct (nth_error (cy coords) i) eqn:E2;
      [ | apply nth_error_None in E2; lia ].
    destruct (nth_error (cz coords) i) eqn:E3;
      [ | apply nth_error_None in E3; lia ].
    eauto. }
  destruct coords as [lt lx ly lz]. cbn [ct cx cy cz] in *.
  unfold transformWorldlineCoordinates. cbn [ct cx cy cz]. rewrite !map_map.
  f_equal.
  - apply WorldlineFacts.map_seq_nth_error. intros i a Ha. cbn [plus].
    destruct (Hev i) as [P HP]; [ apply nth_error_Some; congruence | ].
    rewrite (Hpt i P HP). destruct (Hget i P HP) as (E & _). cbn [c0].
    assert (a = c0 P) by congruence. subst a.
    change (@add float _) with PrimFloat.add.
    apply (@F64Facts.add_zero_keeps _ (lit 0 0) false); [ | reflexivity ].
    apply (Hnth _ _ _ F0 E).
  - rewrite <- Hx.
    apply WorldlineFacts.map_seq_nth_error. intros i a Ha. cbn [plus].
    destruct (Hev i) as [P HP]; [ rewrite <- Hx; apply nth_error_Some; congruence | ].
    rewrite (Hpt i P HP). destruct (Hget i P HP) as (_ & E & _). cbn [c1].
    assert (a = c1 P) by congruence. subst a. reflexivity.
  - rewrite <- Hy.
    apply WorldlineFacts.map_seq_nth_error. intros i a Ha. cbn [plus].
    destruct (Hev i) as [P HP]; [ rewrite <- Hy; apply nth_error_Some; congruence | ].
    rewrite (Hpt i P HP). destruct (Hget i P HP) as (_ & _ & E & _). cbn [c2].
    assert (a = c2 P) by congruence. subst a. reflexivity.
  - rewrite <- Hz.
    apply WorldlineFacts.map_seq_nth_error. intros i a Ha. cbn [plus].
    destruct (Hev i) as [P HP]; [ rewrite <- Hz; apply nth_error_Some; congruence | ].
    rewrite (Hpt i P HP). destruct (Hget i P HP) as (_ & _ & _ & E). cbn [c3].
    assert (a = c3 P) by congruence. subst a. reflexivity.
Qed.

(** X9.  The lab frame.  With the matrix [getLorentzBoostMatrix [0,0,0]],
    the origin [[0,0,0,0]] and [tau = 0], a batch whose four arrays have
    the same length comes back as it is in exact arithmetic, and in
    binary64, when all its numbers are finite, with each number [a] as
    [0 + a]: the same number, [+0] where [a] is [-0].  An event with an
    infinite time comes back with NaN for its three space coordinates. *)
Theorem transformWorldlineCoordinates_lab :
  (forall (NaN : R) (coords : Coords),
     List.length (cx coords) = List.length (ct coords) ->
     List.length (cy coords) = List.length (ct coords) ->
     List.length (cz coords) = List.length (ct coords) ->
     transformWorldlineCoordinates NaN coords (getLorentzBoostMatrix (vec3 0 0 0)) zero4 0
     = coords)
  /\ (forall (NaN : float) (coords : Coords),
        List.length (cx coords) = List.length (ct coords) ->
        List.length (cy coords) = List.length (ct coords) ->
        List.length (cz coords) = List.length (ct coords) ->
        finite_batch coords = true ->
        transformWorldlineCoordinates NaN coords (getLorentzBoostMatrix (vec3 0 0 0)) zero4 0
        = {| ct := map (fun a => 0 + a) (ct coords); cx := map (fun a => 0 + a) (cx coords);
             cy := map (fun a => 0 + a) (cy coords); cz := map (fun a => 0 + a) (cz coords) |})
  /\ (forall a : float, PrimFloat.is_nan a = false -> PrimFloat.eqb (0 + a) a = true)
  /\ (transformWorldlineCoordinates PrimFloat.nan Scenario.batch_infinite
        (getLorentzBoostMatrix (vec3 0 0 0)) zero4 0
      = {| ct := [PrimFloat.infinity]; cx := [PrimFloat.nan]; cy := [PrimFloat.nan];
           cz := [PrimFloat.nan] |}
      /\ transformWorldlineCoordinates PrimFloat.nan Scenario.batch_negative_zero
           (getLorentzBoostMatrix (vec3 0 0 0)) zero4 0
         = {| ct := [lit 0 0]; cx := [lit 1 0]; cy := [lit 0 0]; cz := [lit 0 0] |}
      /\ PrimFloat.get_sign (- lit 0 0) = true /\ PrimFloat.get_sign (lit 0 0) = false).
Proof.
  split; [ | split; [ | split ] ].
  - intros NaN coords. apply lab_exact.
  - intros NaN coords. apply lab_binary64.
  - apply F64Facts.add_zero_l.
  - vm_compute. repeat split.
Qed.

(** The two events of the interval check come back from the lab frame as
    they are. *)
Lemma transformWorldlineCoordinates_lab_witness :
  transformWorldlineCoordinates PrimFloat.nan Scenario.batch64
    (getLorentzBoostMatrix (vec3 0 0 0)) zero4 0 = Scenario.batch64.
Proof.
  rewrite (proj1 (proj2 transformWorldlineCoordinates_lab) PrimFloat.nan Scenario.batch64
             eq_refl eq_refl eq_refl).
  - vm_compute. reflexivity.
  - vm_compute. reflexivity.
Defined.

(** The first event of the batch of the interval check, taken as the
    origin of the frame boosted by [0.99 / sqrt 3] along each axis, at
    the proper time [0.5]. *)
Lemma transformWorldlineCoordinates_origin_witness :
  event_at (transformWorldlineCoordinates PrimFloat.nan Scenario.batch64
              (getLorentzBoostMatrix Scenario.v_check) Scenario.X1 (lit 5 (-1))) 0
  = Some (vec4 (lit 5 (-1)) 0 0 0).
Proof.
  destruct (proj1 (proj2 transformWorldlineCoordinates_origin) PrimFloat.nan Scenario.batch64
              (getLorentzBoostMatrix Scenario.v_check) Scenario.X1 (lit 5 (-1)) 0%nat)
    as [Hev _].
  - vm_compute. reflexivity.
  - vm_compute. reflexivity.
  - reflexivity.
  - rewrite Hev. vm_compute. reflexivity.
Defined.

(** ** Constant substitution, token by token *)

Module TokenFacts.

Lemma prefix_app_word (name s1 s2 : string) (d : ascii) :
  all_word name = true -> is_word d = false ->
  String.prefix name (s1 ++ String d s2) = true -> name <> "" ->
  String.prefix name s1 = true.
Proof.
  revert s1. induction name as [ | n name IH ]; intros s1 Hw Hd Hp Hne; [ congruence | ].
  cbn [all_word] in Hw. apply andb_true_iff in Hw as [Hn Hw].
  destruct s1 as [ | c s1 ].
  - cbn in Hp. destruct (Ascii.ascii_dec n d) as [-> | ]; [ congruence | discriminate ].
  - cbn in Hp |- *. destruct (Ascii.ascii_dec n c) as [-> | ]; [ | discriminate ].
    destruct name as [ | n' name ]; [ destruct s1; reflexivity | ].
    apply IH; try assumption. discriminate.
Qed.

Lemma prefix_app_l (name s1 rest : string) :
  String.prefix name s1 = true -> String.prefix name (s1 ++ rest) = true.
Proof.
  intros Hp. destruct (@prefix_split _ _ Hp) as [r ->].
  clear Hp. induction name as [ | n name IH ]; [ destruct r, rest; reflexivity | ].
  cbn. destruct (Ascii.ascii_dec n n); [ exact IH | congruence ].
Qed.

Lemma app_assoc' (a b c : string) : (a ++ b) ++ c = a ++ (b ++ c).
Proof. induction a as [ | x a IH ]; cbn; [ | rewrite IH ]; reflexivity. Qed.

Lemma length_app' (a b : string) : String.length (a ++ b) = (String.length a + String.length b)%nat.
Proof. induction a as [ | x a IH ]; cbn; [ | rewrite IH ]; reflexivity. Qed.

(** A match of a name made of word characters cannot reach over a
    separator: whether it matches at the head is decided before it. *)
Lemma token_at_app (name : string) (prev : option ascii) (s1 s2 : string) (d : ascii) :
  all_word name = true -> name <> "" -> is_word d = false ->
  token_at name prev (s1 ++ String d s2) = token_at name prev s1.
Proof.
  intros Hw Hne Hd. unfold token_at.
  destruct (String.prefix name s1) eqn:Hp.
  - rewrite (prefix_app_l _ _ (String d s2) Hp).
    destruct (@prefix_split _ _ Hp) as [r ->].
    rewrite app_assoc', !drop_length_app.
    destruct name as [ | n name ]; [ congruence | ].
    cbn [append first_char].
    destruct r as [ | c r ]; [ | reflexivity ].
    cbn [append first_char].
    unfold word_boundary at 2 4. now rewrite Hd.
  - destruct (String.prefix name (s1 ++ String d s2)) eqn:Hp'; [ | reflexivity ].
    rewrite (prefix_app_word _ _ _ Hw Hd Hp' Hne) in Hp. discriminate.
Qed.

(** After a separator the search starts afresh, as at the start of a
    string. *)
Lemma replace_from_after_separator (name value : string) (d : ascii) (k : nat) (s : string) :
  name <> "" -> is_word d = false ->
  replace_from name value k (Some d) s = replace_from name value k None s.
Proof.
  intros Hne Hd. destruct s as [ | c s ]; [ reflexivity | ].
  cbn [replace_from]. destruct k as [ | k ]; [ | reflexivity ].
  assert (E : token_at name (Some d) (String c s) = token_at name None (String c s)).
  { unfold token_at. destruct name as [ | n name ]; [ congruence | ].
    cbn [last_char]. unfold word_boundary at 1 3. now rewrite Hd. }
  now rewrite E.
Qed.

Lemma prefix_length (name s : string) :
  String.prefix name s = true -> (String.length name <= String.length s)%nat.
Proof.
  intros Hp. destruct (@prefix_split _ _ Hp) as [r ->]. rewrite length_app'. lia.
Qed.

Lemma replace_from_app (name value : string) (d : ascii) (s2 : string) :
  all_word name = true -> name <> "" -> is_word d = false ->
  forall (s1 : string) (k : nat) (prev : option ascii),
    (k <= String.length s1)%nat ->
    replace_from name value k prev (s1 ++ String d s2)
    = replace_from name value k prev s1 ++ String d (replace_from name value 0 None s2).
Proof.
  intros Hw Hne Hd. induction s1 as [ | c s1 IH ]; intros k prev Hk.
  - cbn in Hk. assert (k = 0)%nat as -> by lia.
    cbn [append replace_from].
    replace (token_at name prev (String d s2)) with false.
    + now rewrite replace_from_after_separator.
    + symmetry. change (String d s2) with ("" ++ String d s2).
      rewrite token_at_app by assumption.
      unfold token_at. destruct name; [ congruence | reflexivity ].
  - cbn [append replace_from]. destruct k as [ | k ].
    + change (String c (s1 ++ String d s2)) with (String c s1 ++ String d s2).
      rewrite token_at_app by assumption.
      destruct (token_at name prev (String c s1)) eqn:Ht.
      * rewrite IH.
        -- cbn [append]. f_equal. rewrite app_assoc'. reflexivity.
        -- unfold token_at in Ht. apply andb_true_iff in Ht as [Ht _].
           apply andb_true_iff in Ht as [Ht _].
           apply prefix_length in Ht. cbn [String.length] in Ht. lia.
      * cbn [append]. f_equal. apply IH. lia.
    + apply IH. cbn in Hk. lia.
Qed.

Lemma replace_token_app (name value : string) (s1 s2 : string) (d : ascii) :
  all_word name = true -> is_word d = false ->
  replace_token name value (s1 ++ String d s2)
  = replace_token name value s1 ++ String d (replace_token name value s2).
Proof.
  intros Hw Hd. unfold replace_token.
  destruct name as [ | n name' ] eqn:E; [ reflexivity | ].
  apply replace_from_app; try assumption; [ discriminate | lia ].
Qed.

End TokenFacts.

(** X10.  [substituteConstants] works token by token: it distributes over
    every character that is not a word character ([s1 d s2] becomes
    [subst s1], [d], [subst s2]); it turns each constant's name into its
    value in parentheses; and it leaves every other identifier as it
    is. *)
Theorem substituteConstants_tokenwise :
  (forall (s1 s2 : string) (d : ascii),
     is_word d = false ->
     substituteConstants (s1 ++ String d s2)
     = substituteConstants s1 ++ String d (substituteConstants s2))
  /\ (forall name value, In (name, value) CONSTANTS ->
        substituteConstants name = "(" ++ value ++ ")")
  /\ (forall s, all_word s = true ->
        (forall name value, In (name, value) CONSTANTS -> s <> name) ->
        substituteConstants s = s).
Proof.
  split; [ | split ].
  - intros s1 s2 d Hd. unfold substituteConstants.
    change sorted with [("hbar", "1"); ("phi", "1.6180339887"); ("kb", "1"); ("c", "1");
                        ("g", "9.80665")].
    cbn [fold_left fst snd].
    now rewrite !TokenFacts.replace_token_app.
  - intros name value Hin. cbn in Hin.
    repeat (destruct Hin as [[= <- <-] | Hin]; [ reflexivity | ]). contradiction.
  - apply substituteConstants_identifier.
Qed.


(** ** The kinematic solvers *)

Module SolverFacts.

Section SolverFacts.

Context {T : Type} `{Number T}.
Variable nerdamer_text : string -> list (string * string) -> option string.
Variable toString : T -> string.

Abbreviation derive := (deriveSymbolic nerdamer_text).
Abbreviation integrate := (integrateSymbolic nerdamer_text toString).

Lemma derive4_result (V W : Vector4) :
  result (derive4 nerdamer_text V) = Some W ->
  forall i, result (derive (get4 V i) "tau") = Some (get4 W i).
Proof.
  unfold derive4. rewrite result_bind.
  destruct (result (derive (c0 V) "tau")) as [a | ] eqn:Ea; [ | discriminate ].
  rewrite result_bind.
  destruct (result (derive (c1 V) "tau")) as [b | ] eqn:Eb; [ | discriminate ].
  rewrite result_bind.
  destruct (result (derive (c2 V) "tau")) as [c | ] eqn:Ec; [ | discriminate ].
  rewrite result_bind.
  destruct (result (derive (c3 V) "tau")) as [d | ] eqn:Ed; [ | discriminate ].
  intros [= <-] i. destruct i; assumption.
Qed.

Lemma integrate4_result (V : Vector4) (K : Vec4 T) (W : Vector4) :
  result (integrate4 nerdamer_text toString V K) = Some W ->
  forall i, result (integrate (get4 V i) (get4 K i) "tau") = Some (get4 W i).
Proof.
  unfold integrate4. rewrite result_bind.
  destruct (result (integrate (c0 V) (c0 K) "tau")) as [a | ] eqn:Ea; [ | discriminate ].
  rewrite result_bind.
  destruct (result (integrate (c1 V) (c1 K) "tau")) as [b | ] eqn:Eb; [ | discriminate ].
  rewrite result_bind.
  destruct (result (integrate (c2 V) (c2 K) "tau")) as [c | ] eqn:Ec; [ | discriminate ].
  rewrite result_bind.
  destruct (result (integrate (c3 V) (c3 K) "tau")) as [d | ] eqn:Ed; [ | discriminate ].
  intros [= <-] i. destruct i; assumption.
Qed.

Lemma derive_degenerate (e d : string) :
  degenerate e = true -> result (derive e "tau") = Some d -> d = "0".
Proof.
  intros Hd. rewrite deriveSymbolic_degenerate by exact Hd. now intros [= <-].
Qed.

Lemma integrate_degenerate (e : string) (C : T) (d : string) :
  degenerate e = true -> result (integrate e C "tau") = Some d -> d = toString C.
Proof.
  intros Hd. rewrite integrateSymbolic_degenerate by exact Hd. now intros [= <-].
Qed.

Lemma calls_derive_le (e : string) : (List.length (calls (derive e "tau")) <= 1)%nat.
Proof. unfold deriveSymbolic. destruct (degenerate e); cbn; lia. Qed.

Lemma calls_integrate_le (e : string) (C : T) :
  (List.length (calls (integrate e C "tau")) <= 3)%nat.
Proof.
  unfold integrateSymbolic, bind, nerdamer. destruct (degenerate e); [ cbn; lia | ].
  destruct (nerdamer_text _ []) as [F | ]; [ | cbn; lia ].
  destruct (nerdamer_text F _) as [z | ]; cbn; lia.
Qed.

Lemma calls_derive4_le (V : Vector4) :
  (List.length (calls (derive4 nerdamer_text V)) <= 4)%nat.
Proof.
  unfold derive4.
  pose proof (calls_derive_le (c0 V)). pose proof (calls_derive_le (c1 V)).
  pose proof (calls_derive_le (c2 V)). pose proof (calls_derive_le (c3 V)).
  repeat (rewrite calls_bind;
          match goal with
          | |- context [result ?m] => destruct (result m)
          end; rewrite ?length_app; [ | lia ]).
  cbn [calls ret snd List.length]. lia.
Qed.

Lemma calls_integrate4_le (V : Vector4) (K : Vec4 T) :
  (List.length (calls (integrate4 nerdamer_text toString V K)) <= 12)%nat.
Proof.
  unfold integrate4.
  pose proof (calls_integrate_le (c0 V) (c0 K)). pose proof (calls_integrate_le (c1 V) (c1 K)).
  pose proof (calls_integrate_le (c2 V) (c2 K)). pose proof (calls_integrate_le (c3 V) (c3 K)).
  repeat (rewrite calls_bind;
          match goal with
          | |- context [result ?m] => destruct (result m)
          end; rewrite ?length_app; [ | lia ]).
  cbn [calls ret snd List.length]. lia.
Qed.

(** A degenerate component makes no call, another at most one, or three. *)
Lemma calls_derive_exact (e : string) :
  List.length (calls (derive e "tau")) = if degenerate e then 0%nat else 1%nat.
Proof. unfold deriveSymbolic. destruct (degenerate e); reflexivity. Qed.

Lemma calls_integrate_degenerate (e : string) (C : T) :
  (List.length (calls (integrate e C "tau")) <= if degenerate e then 0 else 3)%nat.
Proof.
  pose proof (calls_integrate_le e C) as Hc. unfold integrateSymbolic in *.
  destruct (degenerate e); [ cbn; lia | exact Hc ].
Qed.

Lemma nondegenerate_count (V : Vector4) :
  nondegenerate V
  = ((if degenerate (c0 V) then 0 else 1) + (if degenerate (c1 V) then 0 else 1)
     + (if degenerate (c2 V) then 0 else 1) + (if degenerate (c3 V) then 0 else 1))%nat.
Proof.
  unfold nondegenerate. cbn [filter range4 get4].
  destruct (degenerate (c0 V)), (degenerate (c1 V)), (degenerate (c2 V)), (degenerate (c3 V));
    reflexivity.
Qed.

Lemma nondegenerate_le (V W : Vector4) :
  (forall i, degenerate (get4 V i) = true -> degenerate (get4 W i) = true) ->
  (nondegenerate W <= nondegenerate V)%nat.
Proof.
  intros Hd. rewrite !nondegenerate_count.
  pose proof (Hd I0) as H0. pose proof (Hd I1) as H1.
  pose proof (Hd I2) as H2. pose proof (Hd I3) as H3. cbn [get4] in *.
  destruct (degenerate (c0 V)), (degenerate (c1 V)), (degenerate (c2 V)), (degenerate (c3 V));
    rewrite ?H0, ?H1, ?H2, ?H3 by reflexivity;
    destruct (degenerate (c0 W)), (degenerate (c1 W)), (degenerate (c2 W)),
      (degenerate (c3 W)); cbn; lia.
Qed.

Lemma calls_derive4_nondegenerate (V : Vector4) :
  (List.length (calls (derive4 nerdamer_text V)) <= nondegenerate V)%nat.
Proof.
  rewrite nondegenerate_count. unfold derive4.
  pose proof (calls_derive_exact (c0 V)). pose proof (calls_derive_exact (c1 V)).
  pose proof (calls_derive_exact (c2 V)). pose proof (calls_derive_exact (c3 V)).
  repeat (rewrite calls_bind;
          match goal with
          | |- context [result ?m] => destruct (result m)
          end; rewrite ?length_app; [ | lia ]).
  cbn [calls ret snd List.length]. lia.
Qed.

Lemma calls_integrate4_nondegenerate (V : Vector4) (K : Vec4 T) :
  (List.length (calls (integrate4 nerdamer_text toString V K)) <= 3 * nondegenerate V)%nat.
Proof.
  rewrite nondegenerate_count. unfold integrate4.
  pose proof (calls_integrate_degenerate (c0 V) (c0 K)).
  pose proof (calls_integrate_degenerate (c1 V) (c1 K)).
  pose proof (calls_integrate_degenerate (c2 V) (c2 K)).
  pose proof (calls_integrate_degenerate (c3 V) (c3 K)).
  destruct (degenerate (c0 V)), (degenerate (c1 V)), (degenerate (c2 V)), (degenerate (c3 V));
    repeat (rewrite calls_bind;
            match goal with
            | |- context [result ?m] => destruct (result m)
            end; rewrite ?length_app; [ | lia ]);
    cbn [calls ret snd List.length]; lia.
Qed.

(** X11.  The three solvers return their input as the primary vector, and
    a degenerate component of the input (empty, white space or ["0"])
    never reaches the engine.  [solveFromPosition] gives it velocity and
    acceleration ["0"] and calls the engine at most twice for each
    component that is not degenerate; [solveFromVelocity] gives it the
    position constant [X0[i]] and acceleration ["0"], at most four calls
    for each other component; [solveFromAcceleration] gives it the
    velocity constant [U0[i]], at most three calls for each other
    component in the first integration, and the position constant
    [X0[i]] when that velocity text is itself degenerate (the second
    integration sends to the engine the velocity components that are not
    degenerate, at most three calls each).  So with four degenerate
    components the first two solvers do not call the engine at all. *)
Theorem solvers_pass_degenerate_components :
  (forall (X : Vector4) sol,
     result (solveFromPosition nerdamer_text X) = Some sol ->
     sol_X sol = X
     /\ forall i, degenerate (get4 X i) = true ->
                  get4 (sol_U sol) i = "0" /\ get4 (sol_A sol) i = "0")
  /\ (forall (U : Vector4) (X0 : Vec4 T) sol,
        result (solveFromVelocity nerdamer_text toString U X0) = Some sol ->
        sol_U sol = U
        /\ forall i, degenerate (get4 U i) = true ->
                     get4 (sol_X sol) i = toString (get4 X0 i) /\ get4 (sol_A sol) i = "0")
  /\ (forall (A : Vector4) (U0 X0 : Vec4 T) sol,
        result (solveFromAcceleration nerdamer_text toString A U0 X0) = Some sol ->
        sol_A sol = A
        /\ forall i, degenerate (get4 A i) = true ->
                     get4 (sol_U sol) i = toString (get4 U0 i)
                     /\ (degenerate (toString (get4 U0 i)) = true ->
                         get4 (sol_X sol) i = toString (get4 X0 i)))
  /\ (forall X,
        (List.length (calls (solveFromPosition nerdamer_text X)) <= 2 * nondegenerate X)%nat)
  /\ (forall U X0,
        (List.length (calls (solveFromVelocity nerdamer_text toString U X0))
         <= 4 * nondegenerate U)%nat)
  /\ (forall A U0 X0,
        (List.length (calls (solveFromAcceleration nerdamer_text toString A U0 X0))
         <= 3 * nondegenerate A
            + match result (integrate4 nerdamer_text toString A U0) with
              | Some U => 3 * nondegenerate U
              | None => 0
              end)%nat)
  /\ (forall X U X0,
        nondegenerate X = 0%nat -> nondegenerate U = 0%nat ->
        calls (solveFromPosition nerdamer_text X) = []
        /\ calls (solveFromVelocity nerdamer_text toString U X0) = []).
Proof.
  repeat apply conj.
  - intros X sol. unfold solveFromPosition. rewrite result_bind.
    destruct (result (derive4 nerdamer_text X)) as [U | ] eqn:EU; [ | discriminate ].
    rewrite result_bind.
    destruct (result (derive4 nerdamer_text U)) as [A | ] eqn:EA; [ | discriminate ].
    intros [= <-]. cbn [sol_X sol_U sol_A]. split; [ reflexivity | ].
    intros i Hd.
    pose proof (@derive_degenerate _ _ Hd (derive4_result _ EU i)) as HU.
    split; [ exact HU | ].
    apply (@derive_degenerate (get4 U i)); [ now rewrite HU | apply (derive4_result _ EA i) ].
  - intros U X0 sol. unfold solveFromVelocity. rewrite result_bind.
    destruct (result (integrate4 nerdamer_text toString U X0)) as [X | ] eqn:EX; [ | discriminate ].
    rewrite result_bind.
    destruct (result (derive4 nerdamer_text U)) as [A | ] eqn:EA; [ | discriminate ].
    intros [= <-]. cbn [sol_X sol_U sol_A]. split; [ reflexivity | ].
    intros i Hd. split.
    + apply (@integrate_degenerate _ _ _ Hd (integrate4_result _ _ EX i)).
    + apply (@derive_degenerate _ _ Hd (derive4_result _ EA i)).
  - intros A U0 X0 sol. unfold solveFromAcceleration. rewrite result_bind.
    destruct (result (integrate4 nerdamer_text toString A U0)) as [U | ] eqn:EU; [ | discriminate ].
    rewrite result_bind.
    destruct (result (integrate4 nerdamer_text toString U X0)) as [X | ] eqn:EX; [ | discriminate ].
    intros [= <-]. cbn [sol_X sol_U sol_A]. split; [ reflexivity | ].
    intros i Hd.
    pose proof (@integrate_degenerate _ _ _ Hd (integrate4_result _ _ EU i)) as HU.
    split; [ exact HU | ].
    intros Hd'. apply (@integrate_degenerate (get4 U i)); [ now rewrite HU | ].
    apply (integrate4_result _ _ EX i).
  - intros X. unfold solveFromPosition. rewrite calls_bind.
    pose proof (calls_derive4_nondegenerate X).
    destruct (result (derive4 nerdamer_text X)) as [U | ] eqn:EU; [ | lia ].
    rewrite length_app, calls_bind. pose proof (calls_derive4_nondegenerate U).
    assert (nondegenerate U <= nondegenerate X)%nat.
    { apply nondegenerate_le. intros i Hd.
      now rewrite (@derive_degenerate _ _ Hd (derive4_result _ EU i)). }
    destruct (result (derive4 nerdamer_text U)) as [A | ]; [ | lia ].
    rewrite length_app. cbn [calls ret snd List.length]. lia.
  - intros U X0. unfold solveFromVelocity. rewrite calls_bind.
    pose proof (calls_integrate4_nondegenerate U X0).
    destruct (result (integrate4 nerdamer_text toString U X0)) as [X | ]; [ | lia ].
    rewrite length_app, calls_bind. pose proof (calls_derive4_nondegenerate U).
    destruct (result (derive4 nerdamer_text U)) as [A | ]; [ | lia ].
    rewrite length_app. cbn [calls ret snd List.length]. lia.
  - intros A U0 X0. unfold solveFromAcceleration. rewrite calls_bind.
    pose proof (calls_integrate4_nondegenerate A U0).
    destruct (result (integrate4 nerdamer_text toString A U0)) as [U | ]; [ | lia ].
    rewrite length_app, calls_bind. pose proof (calls_integrate4_nondegenerate U X0).
    destruct (result (integrate4 nerdamer_text toString U X0)) as [X | ]; [ | lia ].
    rewrite length_app. cbn [calls ret snd List.length]. lia.
  - intros X U X0 HX HU.
    assert (Hnil : forall (A : Type) (l : list A), (List.length l <= 0)%nat -> l = []).
    { intros A [ | a l ]; cbn; [ reflexivity | lia ]. }
    split; apply Hnil.
    + unfold solveFromPosition. rewrite calls_bind.
      pose proof (calls_derive4_nondegenerate X).
      destruct (result (derive4 nerdamer_text X)) as [U' | ] eqn:EU; [ | lia ].
      rewrite length_app, calls_bind. pose proof (calls_derive4_nondegenerate U').
      assert (nondegenerate U' <= nondegenerate X)%nat.
      { apply nondegenerate_le. intros i Hd.
        now rewrite (@derive_degenerate _ _ Hd (derive4_result _ EU i)). }
      destruct (result (derive4 nerdamer_text U')) as [A | ]; [ | lia ].
      rewrite length_app. cbn [calls ret snd List.length]. lia.
    + unfold solveFromVelocity. rewrite calls_bind.
      pose proof (calls_integrate4_nondegenerate U X0).
      destruct (result (integrate4 nerdamer_text toString U X0)) as [X' | ]; [ | lia ].
      rewrite length_app, calls_bind. pose proof (calls_derive4_nondegenerate U).
      destruct (result (derive4 nerdamer_text U)) as [A | ]; [ | lia ].
      rewrite length_app. cbn [calls ret snd List.length]. lia.
Qed.

End SolverFacts.

End SolverFacts.

(** ** The causality sweep *)

Module SweepFacts.

Lemma existsb_map {A B} (f : B -> bool) (g : A -> B) (l : list A) :
  existsb f (map g l) = existsb (fun a => f (g a)) l.
Proof. induction l as [ | a l IH ]; cbn; [ | rewrite IH ]; reflexivity. Qed.

Section SweepFacts.

Context {T : Type} `{Number T}.
Variable nerdamer_text : string -> list (string * string) -> option string.
Variable mathEval_number : string -> option T.
Variable toString : T -> string.

Abbreviation evaluate := (evaluateVectorAtTau nerdamer_text mathEval_number toString).
Abbreviation value := (vector_at nerdamer_text mathEval_number toString).
Abbreviation run := (sweep nerdamer_text mathEval_number toString).

Lemma evaluate_value (V : Vector4) (tau : T) : result (evaluate V tau) = Some (value V tau).
Proof. unfold vector_at. now rewrite evaluateVectorAtTau_result. Qed.

(** The sweep never throws, and reports whether some sample violates. *)
Lemma sweep_result (V : Vector4) (taus : list T) :
  result (run V taus) = Some (existsb (fun tau => violates (value V tau)) taus).
Proof.
  induction taus as [ | tau taus IH ]; [ reflexivity | ].
  cbn [sweep existsb]. rewrite result_bind, evaluate_value.
  destruct (violates (value V tau)); [ reflexivity | exact IH ].
Qed.

Lemma sweep_calls (V : Vector4) (taus : list T) :
  (List.length (calls (run V taus)) <= 8 * List.length taus)%nat.
Proof.
  induction taus as [ | tau taus IH ]; [ cbn; lia | ].
  cbn [sweep List.length]. rewrite calls_bind.
  pose proof (calls_evaluate nerdamer_text mathEval_number toString V tau) as Hc.
  destruct (result (evaluate V tau)) as [U | ]; [ | lia ].
  rewrite length_app. destruct (violates U); [ cbn; lia | lia ].
Qed.

(** Once the loop has stopped by its own condition, more fuel changes
    nothing. *)
Lemma loop_taus_stable (n : nat) :
  forall (m : nat) (tau : T),
    (List.length (loop_taus n tau) < n)%nat -> (n <= m)%nat -> loop_taus m tau = loop_taus n tau.
Proof.
  induction n as [ | n IH ]; intros m tau Hl Hm; [ cbn in Hl; lia | ].
  destruct m as [ | m ]; [ lia | ].
  cbn [loop_taus] in *. destruct (tau <=? lit 50 0); [ | reflexivity ].
  cbn [List.length] in Hl. f_equal. apply IH; lia.
Qed.

End SweepFacts.

End SweepFacts.

(** X12.  In binary64 the loop of [checkCausalityViolation] visits the 101
    integers [-50, ..., 50] and stops by its own condition; the function
    never throws; it returns [true] exactly when the 4-velocity evaluated
    at one of these integers violates the test of the loop body; and it
    calls the engine at most [8 * 101] times. *)
Theorem checkCausalityViolation_samples
    (nerdamer_text : string -> list (string * string) -> option string)
    (mathEval_number : string -> option float) (toString : float -> string)
    (velocityExpr : Vector4) :
  (forall fuel, (102 <= fuel)%nat ->
     @loop_taus float _ fuel (- lit 50 0) = map (fun k => lit k 0) integer_taus)
  /\ result (checkCausalityViolation nerdamer_text mathEval_number toString velocityExpr)
     = Some (existsb (fun k => violates (vector_at nerdamer_text mathEval_number toString
                                           velocityExpr (lit k 0)))
                     integer_taus)
  /\ (List.length (calls (checkCausalityViolation nerdamer_text mathEval_number toString
                            velocityExpr)) <= 8 * 101)%nat.
Proof.
  assert (Hloop : loop_taus 102 (- lit 50 0) = map (fun k => @lit float _ k 0) integer_taus)
    by (vm_compute; reflexivity).
  split; [ | split ].
  - intros fuel Hf. rewrite <- Hloop. apply SweepFacts.loop_taus_stable; [ | exact Hf ].
    rewrite Hloop. unfold integer_taus. rewrite !length_map, length_seq. lia.
  - unfold checkCausalityViolation. rewrite SweepFacts.sweep_result, Hloop.
    now rewrite SweepFacts.existsb_map.
  - unfold checkCausalityViolation.
    etransitivity; [ apply SweepFacts.sweep_calls | ].
    rewrite Hloop. unfold integer_taus. rewrite !length_map, length_seq. lia.
Qed.

(** X13.  A velocity that cannot be evaluated is not flagged: if at every
    proper time some component of [velocityExpr] throws or evaluates to
    NaN, [checkCausalityViolation] returns [false] (binary64). *)
Theorem checkCausalityViolation_unevaluable
    (nerdamer_text : string -> list (string * string) -> option string)
    (mathEval_number : string -> option float) (toString : float -> string)
    (velocityExpr : Vector4) :
  (forall tau, exists i,
     component nerdamer_text mathEval_number toString (get4 velocityExpr i) tau = None
     \/ exists x, component nerdamer_text mathEval_number toString (get4 velocityExpr i) tau
                  = Some x /\ Number_isNaN x = true) ->
  result (checkCausalityViolation nerdamer_text mathEval_number toString velocityExpr)
  = Some false.
Proof.
  intros Hfail. unfold checkCausalityViolation. rewrite SweepFacts.sweep_result. f_equal.
  induction (loop_taus 102 (- lit 50 0)) as [ | tau taus IH ]; [ reflexivity | ].
  cbn [existsb]. rewrite IH, orb_false_r.
  unfold vector_at. rewrite evaluateVectorAtTau_result.
  destruct (Hfail tau) as [i Hi].
  destruct (component nerdamer_text mathEval_number toString (c0 velocityExpr) tau)
    as [r0|] eqn:E0;
  destruct (component nerdamer_text mathEval_number toString (c1 velocityExpr) tau)
    as [r1|] eqn:E1;
  destruct (component nerdamer_text mathEval_number toString (c2 velocityExpr) tau)
    as [r2|] eqn:E2;
  destruct (component nerdamer_text mathEval_number toString (c3 velocityExpr) tau)
    as [r3|] eqn:E3;
  try (vm_compute; reflexivity).
  assert (Hn : Vec4_some Number_isNaN (vec4 r0 r1 r2 r3) = true).
  { unfold Vec4_some. cbn [c0 c1 c2 c3].
    destruct i; cbn [get4] in Hi; destruct Hi as [Hi | [x [Hx Hnan]]];
      try congruence;
      [ rewrite E0 in Hx | rewrite E1 in Hx | rewrite E2 in Hx | rewrite E3 in Hx ];
      injection Hx as <-; rewrite Hnan; rewrite ?orb_true_r; reflexivity. }
  rewrite Hn. vm_compute. reflexivity.
Qed.


(** ** The readers of the store *)

Module ViewFacts.

Import View.

Section ViewFacts.

Context {T : Type} `{Number T}.
Variable nerdamer_text : string -> list (string * string) -> option string.
Variable mathEval_number : string -> option T.
Variable toString : T -> string.

Abbreviation evaluate := (evaluateVectorAtTau nerdamer_text mathEval_number toString).
Abbreviation findTau := (findTauForLabTime nerdamer_text mathEval_number toString).
Abbreviation select := (selectFrame nerdamer_text mathEval_number toString).

Lemma evaluate_total (V : Vector4) (tau : T) :
  exists U, result (evaluate V tau) = Some U
            /\ (List.length (calls (evaluate V tau)) <= 8)%nat.
Proof.
  rewrite evaluateVectorAtTau_result. eexists. split; [ reflexivity | ].
  apply (calls_evaluate nerdamer_text mathEval_number toString V tau).
Qed.

Lemma findTau_total (P : Vector4) (t : T) :
  exists r, result (findTau P t) = Some r
            /\ (List.length (calls (findTau P t)) <= 8 * 101)%nat.
Proof.
  unfold findTauForLabTime.
  destruct (bisect_returns nerdamer_text mathEval_number toString P t 100
              (- lit 1000 0) (lit 1000 0)) as [r [Hr _]].
  exists r. split; [ exact Hr | ].
  apply (bisect_calls nerdamer_text mathEval_number toString P t 100).
Qed.

Lemma find_unknown (target : string) (l : list (@Store.ParticleState T)) :
  (forall p, In p l -> Store.id p <> target) ->
  find (fun p => Store.id p =? target) l = None.
Proof.
  intros Hno. destruct (find _ l) as [p | ] eqn:E; [ | reflexivity ].
  apply find_some in E as [Hin Hid]. apply String.eqb_eq in Hid.
  now destruct (Hno p Hin).
Qed.

(** The frame computation never throws; its matrix is the one asked for
    the zero velocity or a boost whose squared speed is not
    [>= 0.99999]; and it either has no translation or puts the playhead
    at the frame's proper time. *)
Lemma selectFrame_total (s : @Store.SimulatorState T) :
  exists r,
    result (select s) = Some r
    /\ ((Lambda (MCRF r) = getLorentzBoostMatrix (vec3 0 0 0)
         \/ exists v3, Lambda (MCRF r) = getLorentzBoostMatrix v3
                       /\ (speedSquared v3 >=? lit 99999 (-5)) = false)
        /\ ((X_origin (MCRF r) = zero4 /\ tau (MCRF r) = 0)
            \/ playheadTime r = tau (MCRF r)))
    /\ (List.length (calls (select s)) <= 8 * 103)%nat.
Proof.
  unfold selectFrame.
  destruct (Store.activeReferenceFrameId s =? "Lab").
  { eexists. split; [ reflexivity | ]. cbn [MCRF Lambda X_origin tau playheadTime unboosted calls ret snd List.length]. split; [ split; left; auto | lia ]. }
  destruct (find _ (Store.particles s)) as [p | ].
  2: { eexists. split; [ reflexivity | ]. cbn [MCRF Lambda X_origin tau playheadTime unboosted calls ret snd List.length]. split; [ split; left; auto | lia ]. }
  destruct (negb (Vec4_some (includes "tau") (Store.velocityExpr p))).
  - rewrite result_bind, calls_bind.
    destruct (evaluate_total (Store.velocityExpr p) 0) as [U [-> HcU]].
    destruct (Math_abs (c0 U) <? lit 1 (-5)).
    { eexists. split; [ reflexivity | ]. cbn [MCRF Lambda X_origin tau playheadTime unboosted].
      split; [ split; left; auto | ]. rewrite ?length_app; cbn [calls ret snd List.length]; lia. }
    match goal with
    | |- context [if ?b then _ else _] => destruct b eqn:Ev
    end.
    { eexists. split; [ reflexivity | ]. cbn [MCRF Lambda X_origin tau playheadTime unboosted].
      split; [ split; left; auto | ]. rewrite ?length_app; cbn [calls ret snd List.length]; lia. }
    rewrite result_bind, calls_bind.
    destruct (findTau_total (Store.positionExpr p) (Store.animationTime s)) as [r [-> Hcr]].
    eexists. split; [ reflexivity | ]. cbn [MCRF Lambda X_origin tau playheadTime].
    split; [ split; [ right; eexists; split; [ reflexivity | exact Ev ] | left; auto ] | ].
    rewrite ?length_app; cbn [calls ret snd List.length]; lia.
  - rewrite result_bind, calls_bind.
    destruct (findTau_total (Store.positionExpr p) (Store.animationTime s)) as [r [-> Hcr]].
    rewrite result_bind, calls_bind.
    destruct (evaluate_total (Store.positionExpr p) r) as [X [-> HcX]].
    rewrite result_bind, calls_bind.
    destruct (evaluate_total (Store.velocityExpr p) r) as [U [-> HcU]].
    destruct (Math_abs (c0 U) <? lit 1 (-5)).
    { eexists. split; [ reflexivity | ]. cbn [MCRF Lambda X_origin tau playheadTime unboosted].
      split; [ split; [ left | right ]; auto | ]. rewrite ?length_app; cbn [calls ret snd List.length]; lia. }
    match goal with
    | |- context [if ?b then _ else _] => destruct b eqn:Ev
    end.
    { eexists. split; [ reflexivity | ]. cbn [MCRF Lambda X_origin tau playheadTime unboosted].
      split; [ split; [ left | right ]; auto | ]. rewrite ?length_app; cbn [calls ret snd List.length]; lia. }
    eexists. split; [ reflexivity | ]. cbn [MCRF Lambda X_origin tau playheadTime].
    split; [ split; [ right; eexists; split; [ reflexivity | exact Ev ] | right; auto ] | ].
    rewrite ?length_app; cbn [calls ret snd List.length]; lia.
Qed.

(** X14.  The frame the two graphs compute ([MCRF], [playheadTime]): the
    computation never throws; the matrix is [getLorentzBoostMatrix] of
    the zero velocity or of a velocity whose squared speed is not
    [>= 0.99999]; the frame has zero origin and zero proper time, or the
    playhead is at the frame's proper time; the engine is called at most
    [8 * 103] times; and for the lab, or an identifier no particle has,
    the frame is the unboosted lab frame with the playhead at the
    animation time, without any engine call. *)
Theorem selectFrame_spec (s : @Store.SimulatorState T) :
  (exists r,
     result (select s) = Some r
     /\ (Lambda (MCRF r) = getLorentzBoostMatrix (vec3 0 0 0)
         \/ exists v3, Lambda (MCRF r) = getLorentzBoostMatrix v3
                       /\ (speedSquared v3 >=? lit 99999 (-5)) = false)
     /\ ((X_origin (MCRF r) = zero4 /\ tau (MCRF r) = 0)
         \/ playheadTime r = tau (MCRF r)))
  /\ (List.length (calls (select s)) <= 8 * 103)%nat
  /\ (Store.activeReferenceFrameId s = "Lab"
      \/ (forall p, In p (Store.particles s) -> Store.id p <> Store.activeReferenceFrameId s) ->
      select s = ret {| MCRF := unboosted zero4 0; playheadTime := Store.animationTime s |}).
Proof.
  destruct (selectFrame_total s) as [r (Hr & Hshape & Hcalls)].
  split; [ exists r; split; [ exact Hr | exact Hshape ] | split; [ exact Hcalls | ] ].
  intros Hlab. unfold selectFrame.
  destruct (Store.activeReferenceFrameId s =? "Lab") eqn:E; [ reflexivity | ].
  destruct Hlab as [Hlab | Hno]; [ apply String.eqb_neq in E; contradiction | ].
  now rewrite (find_unknown _ Hno).
Qed.

End ViewFacts.

End ViewFacts.

(** X16.  [getLabVelocityForParticle] never throws and calls the engine at
    most 8 times; for an identifier no particle has it returns
    [[0, 0, 0]] without calling the engine; and it returns [[0, 0, 0]]
    when the particle's velocity evaluates to the zero vector at the
    animation time, as it does when the evaluation fails (binary64). *)
Theorem getLabVelocityForParticle_safe
    (nerdamer_text : string -> list (string * string) -> option string)
    (mathEval_number : string -> option float) (toString : float -> string)
    (target : string) (s : @Store.SimulatorState float) :
  (exists v, result (View.getLabVelocityForParticle nerdamer_text mathEval_number toString
                       target s) = Some v)
  /\ (List.length (calls (View.getLabVelocityForParticle nerdamer_text mathEval_number toString
                            target s)) <= 8)%nat
  /\ ((forall p, In p (Store.particles s) -> Store.id p <> target) ->
      View.getLabVelocityForParticle nerdamer_text mathEval_number toString target s
      = ret (vec3 0 0 0))
  /\ (forall p,
        find (fun x => Store.id x =? target) (Store.particles s) = Some p ->
        vector_at nerdamer_text mathEval_number toString (Store.velocityExpr p)
          (Store.animationTime s) = zero4 ->
        result (View.getLabVelocityForParticle nerdamer_text mathEval_number toString target s)
        = Some (vec3 0 0 0)).
Proof.
  unfold View.getLabVelocityForParticle.
  split; [ | split; [ | split ] ].
  - destruct (find _ (Store.particles s)) as [p | ]; [ | eexists; reflexivity ].
    rewrite result_bind, evaluateVectorAtTau_result. eexists. reflexivity.
  - destruct (find _ (Store.particles s)) as [p | ]; [ | cbn; lia ].
    rewrite calls_bind.
    pose proof (calls_evaluate nerdamer_text mathEval_number toString (Store.velocityExpr p)
                  (Store.animationTime s)) as Hc.
    destruct (result (evaluateVectorAtTau _ _ _ _ _)); [ | exact Hc ].
    rewrite length_app. cbn [calls ret snd List.length]. lia.
  - intros Hno. now rewrite (ViewFacts.find_unknown _ Hno).
  - intros p -> Hz. unfold vector_at in Hz. rewrite result_bind.
    rewrite evaluateVectorAtTau_result in Hz |- *. rewrite Hz. vm_compute. reflexivity.
Qed.


(** ** More invariants of the store *)

Module StoreInvariants.

Import Store.

Section StoreInvariants.

Context {T : Type} `{Number T}.
Variable nerdamer_text : string -> list (string * string) -> option string.
Variable toString : T -> string.

Abbreviation particle := (@ParticleState T).
Abbreviation state := (@SimulatorState T).
Abbreviation step := (dispatch nerdamer_text toString).
Abbreviation update1 := (updateParticleInput_1 nerdamer_text toString).
Abbreviation reinit1 := (updateParticleInitialConditions_1 nerdamer_text toString).

Lemma updateParticleInput_1_exact (target : string) (inputType : InputType) (input : Vector4)
    (p p' : particle) :
  result (update1 target inputType input p) = Some p' ->
  primary_inputs p = 1%nat -> primary_inputs p' = 1%nat.
Proof.
  rewrite StoreFacts.updateParticleInput_1_result. intros [= <-] Hp.
  destruct (negb (id p =? target)); [ exact Hp | ].
  destruct (result (solve nerdamer_text toString inputType input p));
    destruct inputType; reflexivity.
Qed.

(** Every action keeps each particle on exactly one primary input. *)
Lemma dispatch_exactly_one (a : Action) (s s' : state) :
  result (step a s) = Some s' ->
  Forall (fun p => primary_inputs p = 1%nat) (particles s) ->
  Forall (fun p => primary_inputs p = 1%nat) (particles s').
Proof.
  destruct a; cbn [dispatch];
    try (intros [= <-]; cbn [particles set_particles]; intros Hs; exact Hs).
  - intros [= <-] Hs. cbn [particles set_particles].
    apply Forall_app. split; [ exact Hs | ].
    constructor; [ reflexivity | constructor ].
  - intros [= <-] Hs. cbn [particles]. now apply StoreFacts.Forall_filter.
  - intros [= <-] Hs. cbn [particles set_particles].
    apply StoreFacts.Forall_map_same; [ | exact Hs ].
    intros p Hp. unfold rename. destruct (id p =? target); exact Hp.
  - intros [= <-] Hs. cbn [particles set_particles].
    apply StoreFacts.Forall_map_same; [ | exact Hs ].
    intros p Hp. unfold recolor. destruct (id p =? target); exact Hp.
  - unfold updateParticleInput. rewrite result_bind.
    destruct (result (mapM _ (particles s))) as [ps | ] eqn:Hps; [ | discriminate ].
    intros [= <-] Hs. cbn [particles set_particles].
    eapply StoreFacts.mapM_preserves; [ | exact Hps | exact Hs ].
    intros p p'. apply updateParticleInput_1_exact.
  - unfold updateParticleInitialConditions. rewrite result_bind.
    destruct (result (mapM _ (particles s))) as [ps | ] eqn:Hps; [ | discriminate ].
    intros [= <-] Hs. cbn [particles set_particles].
    eapply StoreFacts.mapM_preserves; [ | exact Hps | exact Hs ].
    intros p p' Hp Hone. cbv beta in *.
    rewrite (StoreFacts.updateParticleInitialConditions_1_inputs _ _ _ _ _ _ Hp). exact Hone.
Qed.

(** X17.  In every reachable state of the store each particle has exactly
    one of [inputPosition], [inputVelocity], [inputAcceleration]: no
    action leaves a particle without a primary input. *)
Theorem exactly_one_primary_input (s : state) :
  reachable nerdamer_text toString s ->
  Forall (fun p => primary_inputs p = 1%nat) (particles s).
Proof.
  induction 1 as [ new_id new_color | s a s' _ IH Hstep ].
  - constructor; [ reflexivity | constructor ].
  - exact (dispatch_exactly_one a s Hstep IH).
Qed.

(** X22.  The control panel shows each particle's actual primary input:
    in every reachable state, the input kind and the input value the
    panel computes for a particle are those of its one primary input
    (the fallback [['0', '0', '0', '0']] is never shown), so storing
    them again leaves the particle as it is. *)
Theorem control_panel_shows_primary_input (s : state) :
  reachable nerdamer_text toString s ->
  Forall (fun p =>
            store_input (View.panel_inputType p) (View.panel_inputValue p) p = p
            /\ match View.panel_inputType p with
               | position => inputPosition p = Some (View.panel_inputValue p)
               | velocity => inputVelocity p = Some (View.panel_inputValue p)
               | acceleration => inputAcceleration p = Some (View.panel_inputValue p)
               end)
         (particles s).
Proof.
  intros Hs.
  assert (Hone : Forall (fun p => primary_inputs p = 1%nat) (particles s)).
  { induction Hs as [ new_id new_color | s a s' _ IH Hstep ].
    - constructor; [ reflexivity | constructor ].
    - exact (dispatch_exactly_one a s Hstep IH). }
  clear Hs. induction Hone as [ | p l Hp _ IH ]; constructor; [ | exact IH ].
  destruct p as [i n c m X0 U0 [ip | ] [iv | ] [ia | ] X U A];
    cbv in Hp; try discriminate; split; reflexivity.
Qed.

Lemma mapM_ids (f : particle -> Eff particle) (l l' : list particle) :
  (forall p p', result (f p) = Some p' -> id p' = id p) ->
  result (mapM f l) = Some l' -> map id l' = map id l.
Proof.
  intros Hf Hl. apply StoreFacts.mapM_result in Hl.
  induction Hl as [ | a b l l' Hab _ IH ]; [ reflexivity | ].
  cbn [map]. now rewrite (Hf a b Hab), IH.
Qed.

Lemma updateParticleInput_1_id (target : string) (inputType : InputType) (input : Vector4)
    (p p' : particle) :
  result (update1 target inputType input p) = Some p' -> id p' = id p.
Proof.
  rewrite StoreFacts.updateParticleInput_1_result. intros [= <-].
  destruct (negb (id p =? target)); [ reflexivity | ].
  destruct (result (solve nerdamer_text toString inputType input p)); reflexivity.
Qed.

Lemma updateParticleInitialConditions_1_id (target : string) (X0 U0 : option (Vec4 T))
    (p p' : particle) :
  result (reinit1 target X0 U0 p) = Some p' -> id p' = id p.
Proof.
  unfold updateParticleInitialConditions_1.
  destruct (negb (id p =? target)); [ now intros [= <-] | ].
  rewrite result_bind, result_try_catch.
  match goal with
  | |- context [result ?m] => destruct (result m) as [[[X U] A] | ]
  end; cbn [result ret fst]; intros [= <-]; reflexivity.
Qed.

(** The identifiers of the particles, in order, after an action. *)
Lemma dispatch_ids (a : Action) (s s' : state) :
  result (step a s) = Some s' ->
  map id (particles s')
  = match a with
    | addParticle new_id _ => (map id (particles s) ++ [new_id])%list
    | removeParticle target => filter (fun i => negb (i =? target)) (map id (particles s))
    | _ => map id (particles s)
    end.
Proof.
  destruct a; cbn [dispatch];
    try (intros [= <-]; cbn [particles set_particles]; reflexivity).
  - intros [= <-]. cbn [particles set_particles]. now rewrite map_app.
  - intros [= <-]. cbn [particles].
    induction (particles s) as [ | p l IH ]; [ reflexivity | ].
    cbn [filter map]. destruct (negb (id p =? target)); cbn [map]; now rewrite IH.
  - intros [= <-]. cbn [particles set_particles]. rewrite map_map.
    apply map_ext. intros p. unfold rename. destruct (id p =? target); reflexivity.
  - intros [= <-]. cbn [particles set_particles]. rewrite map_map.
    apply map_ext. intros p. unfold recolor. destruct (id p =? target); reflexivity.
  - unfold updateParticleInput. rewrite result_bind.
    destruct (result (mapM _ (particles s))) as [ps | ] eqn:Hps; [ | discriminate ].
    intros [= <-]. cbn [particles set_particles].
    eapply mapM_ids; [ | exact Hps ].
    intros p p'. apply updateParticleInput_1_id.
  - unfold updateParticleInitialConditions. rewrite result_bind.
    destruct (result (mapM _ (particles s))) as [ps | ] eqn:Hps; [ | discriminate ].
    intros [= <-]. cbn [particles set_particles].
    eapply mapM_ids; [ | exact Hps ].
    intros p p'. apply updateParticleInitialConditions_1_id.
Qed.

Lemma frame_known_ids (s : state) :
  View.frame_known s
  <-> activeReferenceFrameId s = "Lab" \/ In (activeReferenceFrameId s) (map id (particles s)).
Proof.
  unfold View.frame_known. split; (intros [Hl | Hp]; [ now left | right ]).
  - destruct Hp as [p [Hin Hid]]. rewrite <- Hid. now apply in_map.
  - apply in_map_iff in Hp. destruct Hp as [p [Hid Hin]]. eauto.
Qed.

Lemma dispatch_frame (a : Action) (s s' : state) :
  result (step a s) = Some s' ->
  activeReferenceFrameId s'
  = match a with
    | removeParticle target =>
        if activeReferenceFrameId s =? target then "Lab" else activeReferenceFrameId s
    | setActiveReferenceFrame frame => frame
    | _ => activeReferenceFrameId s
    end.
Proof.
  destruct a; cbn [dispatch];
    try (intros [= <-]; cbn [activeReferenceFrameId set_particles]; reflexivity).
  - unfold updateParticleInput. rewrite result_bind.
    destruct (result (mapM _ (particles s))) as [ps | ]; [ | discriminate ].
    now intros [= <-].
  - unfold updateParticleInitialConditions. rewrite result_bind.
    destruct (result (mapM _ (particles s))) as [ps | ]; [ | discriminate ].
    now intros [= <-].
Qed.

(** X18.  The active reference frame never dangles: if it names the lab
    or a particle of the store, it still does after any action, provided
    [setActiveReferenceFrame] is given the lab or the identifier of a
    particle of the store.  In particular [removeParticle] of the frame
    particle falls back to the lab. *)
Theorem active_frame_stays_known (a : Action) (s s' : state) :
  View.frame_known s ->
  (forall frame, a = setActiveReferenceFrame frame ->
     frame = "Lab" \/ In frame (map id (particles s))) ->
  result (step a s) = Some s' ->
  View.frame_known s'.
Proof.
  intros Hk Hsel Hstep.
  apply frame_known_ids. apply frame_known_ids in Hk.
  rewrite (dispatch_frame a s Hstep), (dispatch_ids a s Hstep).
  destruct a; try exact Hk.
  - destruct Hk as [Hl | Hin]; [ now left | right ].
    apply in_or_app. now left.
  - destruct (activeReferenceFrameId s =? target) eqn:E; [ now left | ].
    destruct Hk as [Hl | Hin]; [ now left | right ].
    apply filter_In. split; [ exact Hin | ]. now rewrite E.
  - apply (Hsel frame eq_refl).
Qed.

(** X19.  [updateParticleInitialConditions] never throws.  A particle
    other than the target is unchanged.  On the target the new initial
    conditions are stored (a missing one keeps its old value) and the
    primary inputs stay; the derived triple is solved again from the
    velocity input if there is one, otherwise from the acceleration
    input, and is kept as it was when that solve throws (the new initial
    conditions are stored all the same) or when the particle is given by
    its position, in which case the engine is not called. *)
Theorem updateParticleInitialConditions_spec (target : string) (X0 U0 : option (Vec4 T))
    (s : state) :
  exists s',
    result (updateParticleInitialConditions nerdamer_text toString target X0 U0 s) = Some s'
    /\ Forall2
         (fun p p' =>
            ((id p =? target) = false -> p' = p)
            /\ ((id p =? target) = true ->
                let nextX0 := match X0 with Some x => x | None => initialPosition p end in
                let nextU0 := match U0 with Some u => u | None => initialVelocity p end in
                initialPosition p' = nextX0 /\ initialVelocity p' = nextU0
                /\ (inputPosition p', inputVelocity p', inputAcceleration p')
                   = (inputPosition p, inputVelocity p, inputAcceleration p)
                /\ triple p'
                   = match inputVelocity p, inputAcceleration p with
                     | Some iv, _ =>
                         match result (solveFromVelocity nerdamer_text toString iv nextX0) with
                         | Some sol => (sol_X sol, sol_U sol, sol_A sol)
                         | None => triple p
                         end
                     | None, Some ia =>
                         match result (solveFromAcceleration nerdamer_text toString ia nextU0
                                         nextX0) with
                         | Some sol => (sol_X sol, sol_U sol, sol_A sol)
                         | None => triple p
                         end
                     | None, None => triple p
                     end
                /\ (inputVelocity p = None -> inputAcceleration p = None ->
                    calls (reinit1 target X0 U0 p) = [])))
         (particles s) (particles s').
Proof.
  assert (H1 : forall p, exists p', result (reinit1 target X0 U0 p) = Some p').
  { intros p. unfold updateParticleInitialConditions_1.
    destruct (negb (id p =? target)); [ eexists; reflexivity | ].
    rewrite result_bind, result_try_catch.
    match goal with
    | |- context [result ?m] => destruct (result m) as [[[X U] A] | ]
    end; cbn [result ret fst]; eexists; reflexivity. }
  unfold updateParticleInitialConditions. rewrite result_bind.
  destruct (StoreFacts.mapM_returns (reinit1 target X0 U0) (particles s) H1) as [ps Hps].
  rewrite Hps. eexists. split; [ reflexivity | ].
  cbn [particles set_particles].
  apply StoreFacts.mapM_result in Hps.
  induction Hps as [ | p p' l l' Hp _ IH ]; constructor; [ | exact IH ].
  clear IH H1. revert Hp. unfold updateParticleInitialConditions_1.
  destruct (id p =? target); cbn [negb].
  2: { intros [= <-]. split; [ reflexivity | discriminate ]. }
  intros Hp. split; [ discriminate | intros _ ]. revert Hp. cbv zeta.
  destruct (inputVelocity p) as [iv | ] eqn:Ev; [ | destruct (inputAcceleration p) as [ia | ] eqn:Ea ].
  - rewrite result_bind, result_try_catch, result_bind.
    destruct (result (solveFromVelocity _ _ iv _)) as [sol | ];
      cbn [result ret fst]; intros [= <-];
      cbn [initialPosition initialVelocity inputPosition inputVelocity inputAcceleration
           with_triple with_initial triple positionExpr velocityExpr accelerationExpr];
      rewrite ?Ev; repeat split; discriminate.
  - rewrite result_bind, result_try_catch, result_bind.
    destruct (result (solveFromAcceleration _ _ ia _ _)) as [sol | ];
      cbn [result ret fst]; intros [= <-];
      cbn [initialPosition initialVelocity inputPosition inputVelocity inputAcceleration
           with_triple with_initial triple positionExpr velocityExpr accelerationExpr];
      rewrite ?Ev, ?Ea; repeat split; discriminate.
  - cbn [result ret fst bind try_catch]. intros [= <-].
    cbn [initialPosition initialVelocity inputPosition inputVelocity inputAcceleration
         with_triple with_initial triple positionExpr velocityExpr accelerationExpr].
    rewrite ?Ev, ?Ea. repeat split.
Qed.

(** The three ranges after an action. *)
Lemma dispatch_ranges (a : Action) (s s' : state) :
  result (step a s) = Some s' ->
  tauRange s' = match a with
                | setTauRange range => Math_max (lit 10 0) (Math_min (lit 1000 0) range)
                | _ => tauRange s
                end
  /\ timeMin s' = match a with
                  | setTimeMin val => Math_min val (timeMax s - lit 1 (-1))
                  | _ => timeMin s
                  end
  /\ timeMax s' = match a with
                  | setTimeMax val => Math_max val (timeMin s + lit 1 (-1))
                  | _ => timeMax s
                  end.
Proof.
  destruct a; cbn [dispatch];
    try (intros [= <-]; cbn [tauRange timeMin timeMax set_particles]; repeat split).
  - unfold updateParticleInput. rewrite result_bind.
    destruct (result (mapM _ (particles s))) as [ps | ]; [ | discriminate ].
    intros [= <-]. repeat split.
  - unfold updateParticleInitialConditions. rewrite result_bind.
    destruct (result (mapM _ (particles s))) as [ps | ]; [ | discriminate ].
    intros [= <-]. repeat split.
Qed.

End StoreInvariants.

End StoreInvariants.

(** In exact arithmetic every reachable state of the store has
    [10 <= tauRange <= 1000] and [timeMin + 0.1 <= timeMax]. *)
Lemma ranges_exact
    (nerdamer_text : string -> list (string * string) -> option string)
    (toString : R -> string) (s : @Store.SimulatorState R) :
  Store.reachable nerdamer_text toString s ->
  (10 <= Store.tauRange s <= 1000)%R
  /\ (Store.timeMin s + 1 / 10 <= Store.timeMax s)%R.
Proof.
  induction 1 as [ new_id new_color | s a s' _ IH Hstep ].
  - cbn [Store.initial Store.tauRange Store.timeMin Store.timeMax].
    change (@lit R _ 50 0) with 50%R. change (@lit R _ 10 0) with 10%R.
    change (@neg R _) with Ropp. lra.
  - destruct (StoreInvariants.dispatch_ranges _ _ a s Hstep) as (Ht & Hmin & Hmax).
    rewrite Ht, Hmin, Hmax. clear Ht Hmin Hmax Hstep.
    change (@lit R _ 10 0) with 10%R. change (@lit R _ 1000 0) with 1000%R.
    change (@lit R _ 1 (-1)) with (1 / 10)%R.
    change (@Math_max R _) with Rmax. change (@Math_min R _) with Rmin.
    change (@add R _) with Rplus. change (@sub R _) with Rminus.
    destruct IH as [[Hlo Hhi] Hw].
    destruct a; try (split; [ split | ]; assumption).
    + split; [ | exact Hw ]. split.
      * apply Rmax_l.
      * apply Rmax_lub; [ lra | apply Rmin_l ].
    + split; [ split; assumption | ].
      pose proof (Rmin_r val (Store.timeMax s - 1 / 10)). lra.
    + split; [ split; assumption | ].
      pose proof (Rmax_r val (Store.timeMin s + 1 / 10)). lra.
Qed.

(** What [setTimeMin] and [setTimeMax] store, in binary64. *)
Lemma setTimeMin_binary64
    (nerdamer_text : string -> list (string * string) -> option string)
    (toString : float -> string) (val : float) (s s' : @Store.SimulatorState float) :
  result (Store.dispatch nerdamer_text toString (Store.setTimeMin val) s) = Some s' ->
  Store.timeMax s' = Store.timeMax s
  /\ Store.timeMin s' = Math_min val (Store.timeMax s - lit 1 (-1))
  /\ (PrimFloat.is_nan val || PrimFloat.is_nan (Store.timeMax s - lit 1 (-1)) = true ->
      PrimFloat.is_nan (Store.timeMin s') = true)
  /\ (PrimFloat.is_nan val || PrimFloat.is_nan (Store.timeMax s - lit 1 (-1)) = false ->
      (Store.timeMin s' <=? val) = true
      /\ (Store.timeMin s' <=? Store.timeMax s' - lit 1 (-1)) = true).
Proof.
  intros Hstep.
  destruct (StoreInvariants.dispatch_ranges _ _ _ s Hstep) as (_ & Hmin & Hmax).
  rewrite Hmin, Hmax. clear Hstep Hmin Hmax.
  change (@Math_min float _) with F64.Math_min. change (@le float _) with PrimFloat.leb.
  repeat split.
  - apply F64Facts.Math_min_NaN.
  - apply orb_false_iff in H as [Hv Hm].
    apply (@F64Facts.Math_min_spec _ _ Hv Hm).
  - apply orb_false_iff in H as [Hv Hm].
    apply (@F64Facts.Math_min_spec _ _ Hv Hm).
Qed.

Lemma setTimeMax_binary64
    (nerdamer_text : string -> list (string * string) -> option string)
    (toString : float -> string) (val : float) (s s' : @Store.SimulatorState float) :
  result (Store.dispatch nerdamer_text toString (Store.setTimeMax val) s) = Some s' ->
  Store.timeMin s' = Store.timeMin s
  /\ Store.timeMax s' = Math_max val (Store.timeMin s + lit 1 (-1))
  /\ (PrimFloat.is_nan val || PrimFloat.is_nan (Store.timeMin s + lit 1 (-1)) = true ->
      PrimFloat.is_nan (Store.timeMax s') = true)
  /\ (PrimFloat.is_nan val || PrimFloat.is_nan (Store.timeMin s + lit 1 (-1)) = false ->
      (val <=? Store.timeMax s') = true
      /\ (Store.timeMin s' + lit 1 (-1) <=? Store.timeMax s') = true).
Proof.
  intros Hstep.
  destruct (StoreInvariants.dispatch_ranges _ _ _ s Hstep) as (_ & Hmin & Hmax).
  rewrite Hmin, Hmax. clear Hstep Hmin Hmax.
  change (@Math_max float _) with F64.Math_max. change (@le float _) with PrimFloat.leb.
  repeat split.
  - apply F64Facts.Math_max_NaN.
  - apply orb_false_iff in H as [Hv Hm].
    apply (@F64Facts.Math_max_spec _ _ Hv Hm).
  - apply orb_false_iff in H as [Hv Hm].
    apply (@F64Facts.Math_max_spec _ _ Hv Hm).
Qed.

(** X20.  The time window of the store.  In exact arithmetic every
    reachable state has [10 <= tauRange <= 1000] and
    [timeMin + 0.1 <= timeMax].  In binary64 each setter gives its own
    guarantee and no more: [setTimeMin(val)] leaves [timeMax] as it is
    and stores [Math.min(val, timeMax - 0.1)], which is NaN if [val] or
    [timeMax - 0.1] is and otherwise is at most [val] and at most
    [timeMax - 0.1]; [setTimeMax(val)] leaves [timeMin] as it is and
    stores [Math.max(val, timeMin + 0.1)], which is NaN if [val] or
    [timeMin + 0.1] is and otherwise is at least [val] and at least
    [timeMin + 0.1].  The two do not add up to the exact invariant:
    after [setTimeMax(-4)] and [setTimeMin(0)] the store holds
    [timeMax = -4] and [timeMin = -4 - 0.1], with
    [timeMin <= timeMax - 0.1], but [timeMin + 0.1] is above [timeMax]
    (it is [-3.9999999999999996]). *)
Theorem ranges_invariant :
  (forall nerdamer_text (toString : R -> string) (s : @Store.SimulatorState R),
     Store.reachable nerdamer_text toString s ->
     (10 <= Store.tauRange s <= 1000)%R
     /\ (Store.timeMin s + 1 / 10 <= Store.timeMax s)%R)
  /\ (forall nerdamer_text (toString : float -> string) (val : float)
             (s s' : @Store.SimulatorState float),
        result (Store.dispatch nerdamer_text toString (Store.setTimeMin val) s) = Some s' ->
        Store.timeMax s' = Store.timeMax s
        /\ Store.timeMin s' = Math_min val (Store.timeMax s - lit 1 (-1))
        /\ (PrimFloat.is_nan val || PrimFloat.is_nan (Store.timeMax s - lit 1 (-1)) = true ->
            PrimFloat.is_nan (Store.timeMin s') = true)
        /\ (PrimFloat.is_nan val || PrimFloat.is_nan (Store.timeMax s - lit 1 (-1)) = false ->
            (Store.timeMin s' <=? val) = true
            /\ (Store.timeMin s' <=? Store.timeMax s' - lit 1 (-1)) = true))
  /\ (forall nerdamer_text (toString : float -> string) (val : float)
             (s s' : @Store.SimulatorState float),
        result (Store.dispatch nerdamer_text toString (Store.setTimeMax val) s) = Some s' ->
        Store.timeMin s' = Store.timeMin s
        /\ Store.timeMax s' = Math_max val (Store.timeMin s + lit 1 (-1))
        /\ (PrimFloat.is_nan val || PrimFloat.is_nan (Store.timeMin s + lit 1 (-1)) = true ->
            PrimFloat.is_nan (Store.timeMax s') = true)
        /\ (PrimFloat.is_nan val || PrimFloat.is_nan (Store.timeMin s + lit 1 (-1)) = false ->
            (val <=? Store.timeMax s') = true
            /\ (Store.timeMin s' + lit 1 (-1) <=? Store.timeMax s') = true))
  /\ (exists s' : @Store.SimulatorState float,
        result Scenario.narrowed = Some s'
        /\ Store.reachable Scenario.nerdamer_text Scenario.toString s'
        /\ Store.timeMax s' = - lit 4 0
        /\ Store.timeMin s' = - lit 4 0 - lit 1 (-1)
        /\ (Store.timeMin s' <=? Store.timeMax s' - lit 1 (-1)) = true
        /\ (Store.timeMin s' + lit 1 (-1) <=? Store.timeMax s') = false
        /\ (Store.timeMin s' + lit 1 (-1) >? Store.timeMax s') = true).
Proof.
  split; [ | split; [ | split ] ].
  - intros nerdamer_text toString s. apply ranges_exact.
  - intros nerdamer_text toString val s s'. apply setTimeMin_binary64.
  - intros nerdamer_text toString val s s'. apply setTimeMax_binary64.
  - eexists. split; [ vm_compute; reflexivity | ]. split.
    + eapply Store.reachable_dispatch with (a := Store.setTimeMin (lit 0 0)).
      * eapply Store.reachable_dispatch with (a := Store.setTimeMax (- lit 4 0)).
        -- apply (Store.reachable_initial _ _ "p1" "#ef4444").
        -- reflexivity.
      * vm_compute. reflexivity.
    + vm_compute. repeat split.
Qed.

(** X21.  In binary64 the [tauRange] of a reachable state is NaN or lies
    in [[10, 1000]].  [setTauRange range] stores NaN when [range] is NaN,
    a number in [[10, 1000]] otherwise, and a number equal to [range]
    when [range] is in [[10, 1000]] already. *)
Theorem tauRange_invariant_binary64
    (nerdamer_text : string -> list (string * string) -> option string)
    (toString : float -> string) :
  (forall s : @Store.SimulatorState float,
     Store.reachable nerdamer_text toString s ->
     Number_isNaN (Store.tauRange s) = true
     \/ ((lit 10 0 <=? Store.tauRange s) = true /\ (Store.tauRange s <=? lit 1000 0) = true))
  /\ (forall (range : float) (s s' : @Store.SimulatorState float),
        result (Store.dispatch nerdamer_text toString (Store.setTauRange range) s) = Some s' ->
        (Number_isNaN range = true -> Number_isNaN (Store.tauRange s') = true)
        /\ (Number_isNaN range = false ->
            (lit 10 0 <=? Store.tauRange s') = true /\ (Store.tauRange s' <=? lit 1000 0) = true)
        /\ ((lit 10 0 <=? range) = true -> (range <=? lit 1000 0) = true ->
            PrimFloat.eqb (Store.tauRange s') range = true)).
Proof.
  assert (Hclamp : forall range : float,
            PrimFloat.is_nan range = false ->
            let m := F64.Math_min (lit 1000 0) range in
            let r := F64.Math_max (lit 10 0) m in
            PrimFloat.is_nan m = false
            /\ (m = lit 1000 0 \/ m = range)
            /\ PrimFloat.leb m range = true
            /\ (r = lit 10 0 \/ r = m)
            /\ PrimFloat.leb m r = true
            /\ PrimFloat.leb (lit 10 0) r = true /\ PrimFloat.leb r (lit 1000 0) = true).
  { intros range Hr m r.
    assert (N10 : PrimFloat.is_nan (lit 10 0) = false) by (vm_compute; reflexivity).
    assert (N1000 : PrimFloat.is_nan (lit 1000 0) = false) by (vm_compute; reflexivity).
    destruct (@F64Facts.Math_min_spec (lit 1000 0) range N1000 Hr) as (Hm & Hm1 & Hm2).
    fold m in Hm, Hm1, Hm2.
    assert (Hmn : PrimFloat.is_nan m = false)
      by (destruct Hm as [-> | ->]; [ exact N1000 | exact Hr ]).
    destruct (@F64Facts.Math_max_spec (lit 10 0) m N10 Hmn) as (Hx & Hx1 & Hx2).
    fold r in Hx, Hx1, Hx2.
    repeat split; try assumption.
    destruct Hx as [-> | ->]; [ vm_compute; reflexivity | exact Hm1 ]. }
  split.
  - induction 1 as [ new_id new_color | s a s' _ IH Hstep ].
    + right. split; vm_compute; reflexivity.
    + destruct (StoreInvariants.dispatch_ranges _ _ a s Hstep) as (Ht & _).
      rewrite Ht. destruct a; try exact IH.
      change (@Math_max float _) with F64.Math_max. change (@Math_min float _) with F64.Math_min.
      change (@Number_isNaN float _) with PrimFloat.is_nan.
      destruct (PrimFloat.is_nan range) eqn:Hr.
      * left. apply F64Facts.Math_max_NaN. rewrite F64Facts.Math_min_NaN; [ apply orb_true_r | ].
        rewrite Hr. apply orb_true_r.
      * right. destruct (Hclamp range Hr) as (_ & _ & _ & _ & _ & Hlo & Hhi). split; assumption.
  - intros range s s' Hstep.
    destruct (StoreInvariants.dispatch_ranges _ _ _ s Hstep) as (Ht & _). rewrite Ht. clear Ht Hstep.
    change (@Math_max float _) with F64.Math_max. change (@Math_min float _) with F64.Math_min.
    change (@Number_isNaN float _) with PrimFloat.is_nan.
    change (@le float _) with PrimFloat.leb.
    split; [ | split ].
    + intros Hr. apply F64Facts.Math_max_NaN. rewrite F64Facts.Math_min_NaN; [ apply orb_true_r | ].
      rewrite Hr. apply orb_true_r.
    + intros Hr. destruct (Hclamp range Hr) as (_ & _ & _ & _ & _ & Hlo & Hhi). split; assumption.
    + intros Hlo Hhi.
      assert (Hr : PrimFloat.is_nan range = false) by apply (F64Facts.leb_not_NaN Hhi).
      destruct (Hclamp range Hr) as (Hmn & Hm & Hmr & Hx & Hmx & _ & _).
      set (m := F64.Math_min (lit 1000 0) range) in *.
      set (r := F64.Math_max (lit 10 0) m) in *.
      assert (Hmeq : PrimFloat.eqb m range = true).
      { apply F64Facts.not_ltb_eqb; try assumption.
        - destruct Hm as [-> | ->]; now apply F64Facts.leb_not_ltb.
        - now apply F64Facts.leb_not_ltb. }
      destruct Hx as [-> | ->]; [ | exact Hmeq ].
      apply F64Facts.not_ltb_eqb; try assumption; try (vm_compute; reflexivity).
      * destruct Hm as [Hm | Hm].
        -- rewrite Hm in Hmx. vm_compute in Hmx. discriminate.
        -- rewrite <- Hm. now apply F64Facts.leb_not_ltb.
      * now apply F64Facts.leb_not_ltb.
Qed.


(** ** The properties above at concrete inputs *)

(** The store after [setTauRange(5000)], in exact arithmetic. *)
Lemma ranges_invariant_witness :
  exists s',
    result (Store.dispatch Scenario.nerdamer_text_R Scenario.toString_R
              (Store.setTauRange 5000%R) (Store.initial "p1" "#ef4444")) = Some s'
    /\ (10 <= Store.tauRange s' <= 1000)%R
    /\ (Store.timeMin s' + 1 / 10 <= Store.timeMax s')%R.
Proof.
  eexists. split; [ reflexivity | ].
  apply (proj1 ranges_invariant Scenario.nerdamer_text_R Scenario.toString_R).
  eapply Store.reachable_dispatch with (a := Store.setTauRange 5000%R);
    [ apply (Store.reachable_initial _ _ "p1" "#ef4444") | reflexivity ].
Defined.

(** A velocity whose time component does not parse is not flagged. *)
Lemma checkCausalityViolation_unevaluable_witness :
  result (checkCausalityViolation Scenario.nerdamer_text Scenario.mathEval_number
            Scenario.toString Scenario.malformed) = Some false.
Proof.
  apply checkCausalityViolation_unevaluable.
  intros tau. exists I0. left. reflexivity.
Defined.

(** The store after [updateParticleInput("p1", "position", malformed)]:
    its particle has exactly one primary input. *)
Lemma exactly_one_primary_input_witness :
  exists s',
    result Scenario.after_malformed = Some s'
    /\ Forall (fun p => Store.primary_inputs p = 1%nat) (Store.particles s').
Proof.
  eexists. split; [ vm_compute; reflexivity | ].
  apply (@StoreInvariants.exactly_one_primary_input _ _ Scenario.nerdamer_text Scenario.toString).
  eapply Store.reachable_dispatch with
    (a := Store.updateParticleInputA "p1" position Scenario.malformed);
    [ apply (Store.reachable_initial _ _ "p1" "#ef4444") | vm_compute; reflexivity ].
Defined.

(** Selecting particle [p1] as the frame of the store as it starts. *)
Lemma active_frame_stays_known_witness :
  exists s',
    result (Store.dispatch Scenario.nerdamer_text Scenario.toString
              (Store.setActiveReferenceFrame "p1") Scenario.fresh) = Some s'
    /\ View.frame_known s'.
Proof.
  eexists. split; [ reflexivity | ].
  apply (@StoreInvariants.active_frame_stays_known _ _ Scenario.nerdamer_text Scenario.toString
           (Store.setActiveReferenceFrame "p1") Scenario.fresh).
  - left. reflexivity.
  - intros frame [= <-]. right. left. reflexivity.
  - reflexivity.
Defined.

(** The same store: what the control panel shows for its particle is the
    malformed position just entered. *)
Lemma control_panel_shows_primary_input_witness :
  exists s',
    result Scenario.after_malformed = Some s'
    /\ Forall (fun p =>
                 Store.store_input (View.panel_inputType p) (View.panel_inputValue p) p = p
                 /\ match View.panel_inputType p with
                    | position => Store.inputPosition p = Some (View.panel_inputValue p)
                    | velocity => Store.inputVelocity p = Some (View.panel_inputValue p)
                    | acceleration => Store.inputAcceleration p = Some (View.panel_inputValue p)
                    end)
              (Store.particles s').
Proof.
  eexists. split; [ vm_compute; reflexivity | ].
  apply (@StoreInvariants.control_panel_shows_primary_input _ _ Scenario.nerdamer_text
           Scenario.toString).
  eapply Store.reachable_dispatch with
    (a := Store.updateParticleInputA "p1" position Scenario.malformed);
    [ apply (Store.reachable_initial _ _ "p1" "#ef4444") | vm_compute; reflexivity ].
Defined.

(** ** The time slider *)

Section SliderFacts.

Variable nerdamer_text : string -> list (string * string) -> option string.
Variable toString : float -> string.

Local Open Scope num_scope.


(** X24.  Editing a bound of the time window, in binary64.  A text that
    parses to NaN leaves the store as it is.  Otherwise [submitMin]
    stores [Math.min(val, timeMax - 0.1)] as [timeMin] and moves the
    animation time up to [val] if it was below; the animation time is
    then never below the new [timeMin].  [submitMax] stores
    [Math.max(val, timeMin + 0.1)] as [timeMax] and moves the animation
    time down to [val] if it was above; it is then never above the new
    [timeMax].  But a minimum typed above [timeMax] moves the animation
    time to it, above the window, and a maximum typed below [timeMin]
    moves it below the window. *)
Theorem submit_bounds_and_playhead (val : float) (s : @Store.SimulatorState float) :
  (PrimFloat.is_nan val = true ->
   result (Slider.submitMin nerdamer_text toString val s) = Some s
   /\ result (Slider.submitMax nerdamer_text toString val s) = Some s)
  /\ (PrimFloat.is_nan val = false ->
      (exists s',
         result (Slider.submitMin nerdamer_text toString val s) = Some s'
         /\ Store.timeMax s' = Store.timeMax s
         /\ Store.timeMin s' = Math_min val (Store.timeMax s - lit 1 (-1))
         /\ Store.animationTime s'
            = (if Store.animationTime s <? val then val else Store.animationTime s)
         /\ (Store.animationTime s' <? Store.timeMin s') = false
         /\ ((Store.timeMax s <? val) = true -> (Store.animationTime s <? val) = true ->
             (Store.timeMax s' <? Store.animationTime s') = true))
      /\ (exists s',
            result (Slider.submitMax nerdamer_text toString val s) = Some s'
            /\ Store.timeMin s' = Store.timeMin s
            /\ Store.timeMax s' = Math_max val (Store.timeMin s + lit 1 (-1))
            /\ Store.animationTime s'
               = (if Store.animationTime s >? val then val else Store.animationTime s)
            /\ (Store.animationTime s' >? Store.timeMax s') = false
            /\ ((val <? Store.timeMin s) = true -> (Store.animationTime s >? val) = true ->
                (Store.animationTime s' <? Store.timeMin s') = true))).
Proof.
  unfold Slider.submitMin, Slider.submitMax. cbv zeta.
  change (@Number_isNaN float _) with PrimFloat.is_nan.
  split.
  - intros ->. cbn [negb]. split; reflexivity.
  - intros Hv. rewrite Hv. cbn [negb]. rewrite !result_bind.
    cbn [Store.dispatch result ret fst Store.animationTime Store.timeMin Store.timeMax].
    change (@lt float _) with PrimFloat.ltb.
    change (@Math_min float _) with F64.Math_min. change (@Math_max float _) with F64.Math_max.
    change (@sub float _) with PrimFloat.sub. change (@add float _) with PrimFloat.add.
    set (cur := Store.animationTime s).
    split.
    + set (m := F64.Math_min val (PrimFloat.sub (Store.timeMax s) (lit 1 (-1)))).
      assert (Hm : PrimFloat.is_nan m = true \/ PrimFloat.leb m val = true).
      { destruct (PrimFloat.is_nan (PrimFloat.sub (Store.timeMax s) (lit 1 (-1)))) eqn:E.
        - left. apply F64Facts.Math_min_NaN. rewrite E. apply orb_true_r.
        - right. apply (@F64Facts.Math_min_spec _ _ Hv E). }
      destruct (PrimFloat.ltb cur val) eqn:Hlt;
        (eexists; split; [ reflexivity | ]);
        cbn [Store.timeMin Store.timeMax Store.animationTime];
        repeat split; try (intros; assumption).
      * destruct Hm as [Hm | Hm].
        -- apply F64Facts.ltb_NaN. rewrite Hm. apply orb_true_r.
        -- now apply F64Facts.leb_not_ltb.
      * destruct Hm as [Hm | Hm].
        -- apply F64Facts.ltb_NaN. rewrite Hm. apply orb_true_r.
        -- destruct (PrimFloat.ltb cur m) eqn:E; [ | reflexivity ].
           pose proof (F64Facts.ltb_leb_trans E Hm). congruence.
      * intros _ Habs. fold cur in Habs. congruence.
    + set (m := F64.Math_max val (PrimFloat.add (Store.timeMin s) (lit 1 (-1)))).
      assert (Hm : PrimFloat.is_nan m = true \/ PrimFloat.leb val m = true).
      { destruct (PrimFloat.is_nan (PrimFloat.add (Store.timeMin s) (lit 1 (-1)))) eqn:E.
        - left. apply F64Facts.Math_max_NaN. rewrite E. apply orb_true_r.
        - right. apply (@F64Facts.Math_max_spec _ _ Hv E). }
      destruct (PrimFloat.ltb val cur) eqn:Hlt;
        (eexists; split; [ reflexivity | ]);
        cbn [Store.timeMin Store.timeMax Store.animationTime];
        repeat split; try (intros; assumption).
      * destruct Hm as [Hm | Hm].
        -- apply F64Facts.ltb_NaN. now rewrite Hm.
        -- now apply F64Facts.leb_not_ltb.
      * destruct Hm as [Hm | Hm].
        -- apply F64Facts.ltb_NaN. now rewrite Hm.
        -- destruct (PrimFloat.ltb m cur) eqn:E; [ | reflexivity ].
           pose proof (F64Facts.leb_ltb_trans Hm E). congruence.
      * intros _ Habs. fold cur in Habs. congruence.
Qed.

End SliderFacts.


(** Typing the minimum [20] into the store as it starts, whose window is
    [[-10, 10]]: the animation time goes to [20], above [timeMax]. *)
Lemma submit_bounds_and_playhead_witness :
  exists s',
    result (Slider.submitMin Scenario.nerdamer_text Scenario.toString (lit 20 0) Scenario.fresh)
    = Some s'
    /\ Store.animationTime s' = lit 20 0
    /\ (Store.animationTime s' <? Store.timeMin s') = false
    /\ (Store.timeMax s' <? Store.animationTime s') = true.
Proof.
  assert (Hv : PrimFloat.is_nan (lit 20 0) = false) by (vm_compute; reflexivity).
  destruct (proj1 (proj2 (@submit_bounds_and_playhead Scenario.nerdamer_text Scenario.toString
                            (lit 20 0) Scenario.fresh) Hv))
    as [s' (Hs & _ & _ & Ht & Hlo & Hhi)].
  exists s'. split; [ exact Hs | ]. split; [ | split ].
  - rewrite Ht. vm_compute. reflexivity.
  - exact Hlo.
  - apply Hhi; vm_compute; reflexivity.
Defined.
